(** * Summary extension: the summarization request orchestrator

    A shallow embedding of [src/background.ts] (the [BackgroundService] and
    the runtime message listener), [src/api-integrations/types.ts] (data
    model and prompt helpers) and the four provider adapters
    ([claude], [openai], [openrouter], [portkey]).

    Conventions.
    - A JavaScript string is the list of its UTF-16 code units ([jsstring]);
      [length] is the JS [.length].
    - An [async] function is run to completion: a rejected promise is the
      outcome [Thrown], a resolved one is [Returned].
    - Everything outside the sources (network, Portkey SDK, browser
      storage, the summary cache, clock) is a field of [Env]; each answer
      may depend on the whole history of interactions so far. *)

From Stdlib Require Import QArith.
From stdpp Require Import base numbers list option strings gmap pretty.

Local Open Scope Z_scope.

(** ** JavaScript strings *)

Definition jsstring := list N.

Definition lit (s : string) : jsstring := Ascii.N_of_ascii <$> String.list_ascii_of_string s.

Definition nl : jsstring := [10%N].

Definition DOLLAR : N := 36%N.
Definition AMPERSAND : N := 38%N.
Definition BACKTICK : N := 96%N.
Definition QUOTE : N := 39%N.

(** [truthy s]: a string is truthy when it is not empty. *)
Definition truthy (s : jsstring) : bool :=
  match s with [] => false | _ => true end.

(** [a || b] on optional strings ([undefined] and [''] are falsy). *)
Definition or_else (a : option jsstring) (b : jsstring) : jsstring :=
  match a with
  | Some s => if truthy s then s else b
  | None => b
  end.

Fixpoint startsWith (p s : jsstring) : bool :=
  match p, s with
  | [], _ => true
  | _ :: _, [] => false
  | a :: p', b :: s' => bool_decide (a = b) && startsWith p' s'
  end.

(** [s.indexOf(p)] *)
Fixpoint indexOf (p s : jsstring) : option nat :=
  if startsWith p s then Some 0%nat
  else match s with
       | [] => None
       | _ :: s' => S <$> indexOf p s'
       end.

(** [s.includes(p)] *)
Definition includes (p s : jsstring) : bool := bool_decide (is_Some (indexOf p s)).

(** [s.substring(0, n)]; a negative [n] counts as 0. *)
Definition substring0 (s : jsstring) (n : Z) : jsstring := take (Z.to_nat n) s.

(** The replacement text of [String.prototype.replace] for a string
    pattern (no capture groups): [$$], [$&], [$`] and [$'] are expanded,
    every other character is copied. *)
Fixpoint getSubstitution (matched before after replacement : jsstring) : jsstring :=
  match replacement with
  | [] => []
  | c :: r =>
      match r with
      | d :: r' =>
          if bool_decide (c = DOLLAR) then
            if bool_decide (d = DOLLAR) then DOLLAR :: getSubstitution matched before after r'
            else if bool_decide (d = AMPERSAND) then matched ++ getSubstitution matched before after r'
            else if bool_decide (d = BACKTICK) then before ++ getSubstitution matched before after r'
            else if bool_decide (d = QUOTE) then after ++ getSubstitution matched before after r'
            else c :: getSubstitution matched before after r
          else c :: getSubstitution matched before after r
      | [] => [c]
      end
  end.

(** [s.replace(pattern, replacement)] with a string pattern: only the first
    occurrence is replaced. *)
Definition replace (s pattern replacement : jsstring) : jsstring :=
  match indexOf pattern s with
  | None => s
  | Some pos =>
      let before := take pos s in
      let after := drop (pos + length pattern)%nat s in
      before ++ getSubstitution pattern before after replacement ++ after
  end.

(** ** Data model ([types.ts]) *)

Inductive Role := system | user | assistant.

Inductive Language := chinese | english.

Inductive APIProvider := claude | openai | openrouter | portkey.

#[global] Instance Role_eq_dec : EqDecision Role.
Proof. solve_decision. Defined.
#[global] Instance Language_eq_dec : EqDecision Language.
Proof. solve_decision. Defined.
#[global] Instance APIProvider_eq_dec : EqDecision APIProvider.
Proof. solve_decision. Defined.

Record ChatMessage := { role : Role; content : jsstring }.

#[global] Instance ChatMessage_eq_dec : EqDecision ChatMessage.
Proof. solve_decision. Defined.

Record LLMResponse := {
  summary : jsstring;
  error : option jsstring;
  fromCache : option bool;
  cachedAt : option Z
}.

Record PromptConfig := {
  systemPrompt : jsstring;
  userPrompt : jsstring;
  temperature : Q;
  maxTokens : Z
}.

(** [customPrompts[language]] may be missing at run time, which
    [getPromptConfig] checks. *)
Record CustomPrompts := {
  custom_chinese : option PromptConfig;
  custom_english : option PromptConfig
}.

Definition custom_at (c : CustomPrompts) (l : Language) : option PromptConfig :=
  match l with chinese => custom_chinese c | english => custom_english c end.

Record ChatRequest := {
  messages : list ChatMessage;
  provider : APIProvider;
  modelIdentifier : option jsstring;
  apiKey : jsstring;
  apiUrl : option jsstring;
  virtualKey : option jsstring;
  language : option Language;
  customPrompts : option CustomPrompts;
  url : option jsstring;
  forceFresh : option bool;
  tabId : option Z
}.

Record APIConfig := {
  cfg_apiKey : jsstring;
  cfg_apiUrl : option jsstring;
  cfg_virtualKey : option jsstring;
  cfg_modelIdentifier : option jsstring;
  cfg_language : option Language;
  cfg_customPrompts : option CustomPrompts
}.

Definition language_name (l : Language) : jsstring :=
  match l with chinese => lit "chinese" | english => lit "english" end.

Definition provider_name (p : APIProvider) : jsstring :=
  match p with
  | claude => lit "claude"
  | openai => lit "openai"
  | openrouter => lit "openrouter"
  | portkey => lit "portkey"
  end.

Definition TEXT_PLACEHOLDER : jsstring := lit "{text}".

Definition DEFAULT_PROMPTS (l : Language) : PromptConfig :=
  match l with
  | chinese =>
      {| systemPrompt :=
           [20320; 26159; 19968; 20010; 26377; 29992; 30340; 21161; 25163; 65292;
            19987; 38376; 24635; 32467; 32593; 39029; 20869; 23481; 12290; 35831;
            25552; 20379; 31616; 27905; 12289; 32467; 26500; 28165; 26224; 30340;
            25688; 35201; 65292; 31361; 20986; 20027; 35201; 35266; 28857; 21644;
            20851; 38190; 20449; 24687; 12290]%N;
         userPrompt :=
           [35831; 20026; 20197; 19979; 32593; 39029; 20869; 23481; 25552; 20379;
            19968; 20010; 31616; 27905; 12289; 32467; 26500; 28165; 26224; 30340;
            20013; 25991; 25688; 35201; 65292; 31361; 20986; 20027; 35201; 35266;
            28857; 21644; 20851; 38190; 20449; 24687; 65306]%N
           ++ nl ++ nl ++ TEXT_PLACEHOLDER;
         temperature := (1 # 2)%Q;
         maxTokens := 1000 |}
  | english =>
      {| systemPrompt :=
           lit "You are a helpful assistant that summarizes web page content. Provide a concise, well-structured summary highlighting the main points and key information.";
         userPrompt :=
           lit "Please provide a concise, well-structured summary of this webpage content, highlighting the main points and key information:"
           ++ nl ++ nl ++ TEXT_PLACEHOLDER;
         temperature := (1 # 2)%Q;
         maxTokens := 1000 |}
  end.

Definition DEFAULT_MODEL_IDENTIFIERS (p : APIProvider) : jsstring :=
  match p with
  | claude => lit "claude-sonnet-4-20250514"
  | openai => lit "gpt-4"
  | openrouter => lit "openai/gpt-4"
  | portkey => lit "gpt-4"
  end.

Definition getPromptConfig (l : Language) (custom : option CustomPrompts) : PromptConfig :=
  match custom with
  | Some c =>
      match custom_at c l with
      | Some pc => pc
      | None => DEFAULT_PROMPTS l
      end
  | None => DEFAULT_PROMPTS l
  end.

Definition createPrompt (text : jsstring) (l : Language) (custom : option CustomPrompts) : jsstring :=
  let promptConfig := getPromptConfig l custom in
  replace (userPrompt promptConfig) TEXT_PLACEHOLDER text.

Definition getModelIdentifier (p : APIProvider) (model : option jsstring) : jsstring :=
  or_else model (DEFAULT_MODEL_IDENTIFIERS p).

(** The [language] parameter defaults to ['chinese']. *)
Definition language_or_default (l : option Language) : Language := default chinese l.

Definition textToChatMessages (text : jsstring) (l : option Language)
    (custom : option CustomPrompts) : list ChatMessage :=
  let userPromptText := createPrompt text (language_or_default l) custom in
  [ {| role := user; content := userPromptText |} ].

Definition isTextSummarization (msgs : list ChatMessage) : bool :=
  match msgs with
  | [m] => bool_decide (role m = user)
  | _ => false
  end.

(** ** Size estimates *)

Definition contentLength (m : ChatMessage) : Z := Z.of_nat (length (content m)).

(** [messages.reduce((sum, msg) => sum + msg.content.length, 0)] *)
Definition totalLength (msgs : list ChatMessage) : Z :=
  foldl (fun sum msg => sum + contentLength msg) 0 msgs.

(** [Math.ceil(n / 4)] for a length [n]. *)
Definition ceil4 (n : Z) : Z := (n + 3) / 4.

Definition estimatedTokens (msgs : list ChatMessage) : Z := ceil4 (totalLength msgs).

Definition DIRECT_THRESHOLD : Z := 100000.

(** ** Context chunker ([background.ts], [chunkLargeContext]) *)

Definition maxChunkSize : Z := 50000.

(** The body of the [for ... of] loop, over the loop variables
    [chunks], [currentChunk] and [currentChunkSize]. *)
Fixpoint chunkLoop (msgs : list ChatMessage) (chunks : list (list ChatMessage))
    (currentChunk : list ChatMessage) (currentChunkSize : Z) : list (list ChatMessage) :=
  match msgs with
  | [] =>
      if bool_decide (0 < length currentChunk)%nat then chunks ++ [currentChunk] else chunks
  | message :: rest =>
      let messageSize := contentLength message in
      if bool_decide (currentChunkSize + messageSize > maxChunkSize)
         && bool_decide (0 < length currentChunk)%nat
      then chunkLoop rest (chunks ++ [currentChunk]) [message] messageSize
      else chunkLoop rest chunks (currentChunk ++ [message]) (currentChunkSize + messageSize)
  end.

Definition chunkLargeContext (msgs : list ChatMessage) : list (list ChatMessage) :=
  chunkLoop msgs [] [] 0.

(** [integrateSummaryWithChunk] *)
Definition summaryMessage (summaryText : jsstring) (l : Language) : ChatMessage :=
  {| role := system;
     content :=
       match l with
       | chinese =>
           [20043; 21069; 30340; 23545; 35805; 25688; 35201; 65306]%N ++ summaryText ++ nl ++ nl
           ++ [35831; 22522; 20110; 36825; 20010; 25688; 35201; 21644; 24403; 21069;
               23545; 35805; 32487; 32493; 22238; 31572; 12290]%N
       | english =>
           lit "Previous conversation summary: " ++ summaryText ++ nl ++ nl
           ++ lit "Please continue the conversation based on this summary and the current dialogue."
       end |}.

Definition integrateSummaryWithChunk (chunk : list ChatMessage) (summaryText : jsstring)
    (l : Language) : list ChatMessage :=
  if truthy summaryText then summaryMessage summaryText l :: chunk else chunk.

(** ** Portkey large-context truncation ([portkey.ts], [processLargeContext]) *)

(** [estimateTokens = text => Math.ceil(text.length / 4)] *)
Definition estimateTokens (text : jsstring) : Z := ceil4 (Z.of_nat (length text)).

Definition ELLIPSIS : jsstring := lit "...".

(** [maxTokens - Math.floor(maxTokens / 3)] *)
Definition availableTokensOf (maxTok : Z) : Z := maxTok - maxTok / 3.

(** The loop over [remainingMessages] (newest first), with the loop
    variables [totalTokens] and [processedMessages]; [unshift] is a cons. *)
Fixpoint keepLoop (maxTok : Z) (remaining : list ChatMessage) (totalTokens : Z)
    (processedMessages : list ChatMessage) : list ChatMessage :=
  match remaining with
  | [] => processedMessages
  | message :: rest =>
      let messageTokens := estimateTokens (content message) in
      let availableTokens := availableTokensOf maxTok in
      if bool_decide (totalTokens + messageTokens <= availableTokens) then
        keepLoop maxTok rest (totalTokens + messageTokens) (message :: processedMessages)
      else if bool_decide (messageTokens > availableTokens - totalTokens) then
        let availableChars := (availableTokens - totalTokens) * 4 in
        let truncatedContent := substring0 (content message) availableChars ++ ELLIPSIS in
        {| role := role message; content := truncatedContent |} :: processedMessages
      else keepLoop maxTok rest totalTokens processedMessages
  end.

Definition processLargeContext (msgs : list ChatMessage) (maxTok : Z) : list ChatMessage :=
  let '(processedMessages, totalTokens) :=
    match msgs with
    | m0 :: _ =>
        if bool_decide (role m0 = system) then ([m0], estimateTokens (content m0))
        else ([], 0)
    | [] => ([], 0)
    end in
  let remainingMessages := reverse (drop 1 msgs) in
  keepLoop maxTok remainingMessages totalTokens processedMessages.

(** ** Outcomes, thrown values and the interaction history *)

(** What a [catch] clause can receive. *)
Inductive JsThrown :=
| JsError (msg : jsstring)
    (* an [Error] that is not a [TypeError], without a [status] property *)
| JsTypeError (msg : jsstring)
| JsObject (statusProp : option (option Z)) (messageProp : option jsstring)
    (nestedMessage : option jsstring)
    (* a non-[Error] object: ['status' in error] (a number or not),
       ['message' in error], [error.error.message] *)
| JsPrimitive.

Inductive Outcome (A : Type) :=
| Returned (a : A)
| Thrown (e : JsThrown).
Arguments Returned {A} a.
Arguments Thrown {A} e.

(** Reading the property [prop] of [null] raises a [TypeError]; the
    message is the one of V8, the engine the extension runs on. *)
Definition nullRead (prop : string) : JsThrown :=
  JsTypeError (lit "Cannot read properties of null (reading '" ++ lit prop ++ lit "')").

(** [error instanceof Error ? error.message : 'Unknown error'] *)
Definition errorMessageOf (e : JsThrown) : jsstring :=
  match e with
  | JsError m | JsTypeError m => m
  | _ => lit "Unknown error"
  end.

Inductive MessagesOrText :=
| Msgs (msgs : list ChatMessage)
| Text (text : jsstring).

Record RequestBody := {
  body_model : jsstring;
  body_messages : list ChatMessage;
  body_max_tokens : Z;
  body_temperature : option Q
}.

Record FetchRequest := {
  req_endpoint : jsstring;
  req_headers : list (jsstring * jsstring);
  req_body : RequestBody
}.

Record SdkRequest := {
  sdk_apiKey : jsstring;
  sdk_virtualKey : option jsstring;
  sdk_baseURL : option jsstring;
  sdk_body : RequestBody
}.

(** The parts of a JSON payload the adapters read. *)
Record JsonBody := {
  choices0_message_content : option jsstring;  (* data.choices?.[0]?.message?.content *)
  content0_text : option jsstring;             (* data.content?.[0]?.text *)
  error_message : option jsstring;             (* errorData.error?.message *)
  top_message : option jsstring                (* errorData.message *)
}.

Definition emptyJson : JsonBody :=
  {| choices0_message_content := None; content0_text := None;
     error_message := None; top_message := None |}.

(** [response.json()] may reject; when it resolves, the value may be
    [null] (the body is the JSON text [null]), which is [None] here. *)
Record HttpResponse := {
  status : Z;
  statusText : jsstring;
  json : Outcome (option JsonBody)
}.

(** [response.ok]: the status is in the range 200-299. *)
Definition ok (r : HttpResponse) : bool :=
  bool_decide (200 <= status r) && bool_decide (status r <= 299).

(** An entry of the persisted [summary_cache] collection, as
    [getCacheEntry] reads it. *)
Record StoredEntry := { timestamp : option Z }.

Inductive AdapterCall :=
| CallAPI (input : MessagesOrText)
| CallLargeContextAPI (msgs : list ChatMessage).

Record RawTab := { raw_id : option Z; raw_url : option jsstring; raw_title : option jsstring }.

Record BrowserWindow := { isPopup : bool; showsPopupHtml : bool; window_id : option Z }.

Record CacheStats := { count : Z; size : Z }.

(** Calls that cross a component boundary, in the order they complete. *)
Inductive Event :=
| EvCacheGet (u : jsstring) (l : Language)
| EvCacheSet (u : jsstring) (l : Language) (s : jsstring) (p : APIProvider)
| EvCacheStats
| EvCacheClear
| EvStorageGet
| EvInitialize (p : APIProvider) (config : APIConfig)
| EvProviderCall (p : APIProvider) (call : AdapterCall) (outcome : Outcome LLMResponse)
| EvSdkCreate (req : SdkRequest)
| EvFetch (req : FetchRequest)
| EvClock
| EvTabsQuery
| EvExecuteScript (tab : option Z)
| EvWindowsGetAll
| EvWindowsUpdate (w : Z)
| EvWindowsCreate.

(** The collaborators. [SummaryCache] ([src/cache.ts]) is not among the
    sources: its [get] answers with a summary or nothing and, like [set],
    does not raise (cache failures are logged and count as a miss or a
    no-op). *)
Record Env := {
  SummaryCache_get : list Event -> jsstring -> Language -> option jsstring;
  SummaryCache_getStats : list Event -> CacheStats;
  storage_local_get : list Event -> Outcome (option (gmap jsstring StoredEntry));
  fetch : list Event -> FetchRequest -> Outcome HttpResponse;
  portkey_create : list Event -> SdkRequest -> Outcome (option jsstring);
  Date_now : list Event -> Z;
  Math_random_base36 : list Event -> jsstring;
  runtime_getURL : jsstring;
  tabs_query : list Event -> Outcome (list RawTab);
  scripting_executeScript : list Event -> option Z -> Outcome (option jsstring);
  windows_getAll : list Event -> Outcome (list BrowserWindow);
  windows_update : list Event -> Z -> Outcome unit;
  windows_create : list Event -> Outcome unit
}.

(** ** Service state *)

Module Status.
Inductive t := pending | processing | completed | error.
End Status.

Record PendingRequest := {
  pr_id : jsstring;
  pr_tabUrl : jsstring;
  pr_status : Status.t;
  pr_result : option LLMResponse;
  pr_error : option jsstring;
  pr_timestamp : Z
}.

#[global] Instance APIProvider_countable : Countable APIProvider.
Proof.
  refine (inj_countable'
            (fun p => match p with claude => 0 | openai => 1 | openrouter => 2 | portkey => 3 end)%nat
            (fun n => match n with 0 => claude | 1 => openai | 2 => openrouter | _ => portkey end)%nat
            _).
  by intros [].
Defined.

Record ServiceState := {
  pendingRequests : gmap jsstring PendingRequest;
  conversationContexts : gmap jsstring (list ChatMessage);
  configs : gmap APIProvider APIConfig;   (* the [config] field of each adapter instance *)
  trace : list Event
}.

Definition initialState : ServiceState :=
  {| pendingRequests := ∅; conversationContexts := ∅; configs := ∅; trace := [] |}.

(** ** The monad of service code: state and exceptions *)

Definition M (A : Type) : Type := ServiceState -> Outcome A * ServiceState.

Definition ret {A} (a : A) : M A := fun s => (Returned a, s).

Definition throw {A} (e : JsThrown) : M A := fun s => (Thrown e, s).

Definition bind {A B} (m : M A) (k : A -> M B) : M B :=
  fun s => match m s with
           | (Returned a, s') => k a s'
           | (Thrown e, s') => (Thrown e, s')
           end.

(** [try { m } catch (e) { h e }] *)
Definition try_catch {A} (m : M A) (h : JsThrown -> M A) : M A :=
  fun s => match m s with
           | (Returned a, s') => (Returned a, s')
           | (Thrown e, s') => h e s'
           end.

Declare Scope service_scope.
Delimit Scope service_scope with service.
Notation "'let*' x ':=' m 'in' k" := (bind m (fun x => k))
  (at level 10, x name, m at level 100, k at level 200) : service_scope.
Notation "m ';;' k" := (bind m (fun _ => k))
  (at level 100, k at level 200, right associativity) : service_scope.
Local Open Scope service_scope.

Definition emit (e : Event) : M unit :=
  fun s => (Returned tt,
            {| pendingRequests := pendingRequests s;
               conversationContexts := conversationContexts s;
               configs := configs s;
               trace := trace s ++ [e] |}).

(** Ask a collaborator: its answer depends on the history, and the call
    is appended to it. *)
Definition ask {A} (answer : list Event -> Outcome A) (e : Event) : M A :=
  fun s => (answer (trace s),
            {| pendingRequests := pendingRequests s;
               conversationContexts := conversationContexts s;
               configs := configs s;
               trace := trace s ++ [e] |}).

Definition getConfigs : M (gmap APIProvider APIConfig) := fun s => (Returned (configs s), s).

Definition setConfig (p : APIProvider) (c : APIConfig) : M unit :=
  fun s => (Returned tt,
            {| pendingRequests := pendingRequests s;
               conversationContexts := conversationContexts s;
               configs := <[p := c]> (configs s);
               trace := trace s |}).

Definition getPending : M (gmap jsstring PendingRequest) :=
  fun s => (Returned (pendingRequests s), s).

Definition setPending (id : jsstring) (r : PendingRequest) : M unit :=
  fun s => (Returned tt,
            {| pendingRequests := <[id := r]> (pendingRequests s);
               conversationContexts := conversationContexts s;
               configs := configs s;
               trace := trace s |}).

Definition getContexts : M (gmap jsstring (list ChatMessage)) :=
  fun s => (Returned (conversationContexts s), s).

Definition updContexts (f : gmap jsstring (list ChatMessage) -> gmap jsstring (list ChatMessage))
    : M unit :=
  fun s => (Returned tt,
            {| pendingRequests := pendingRequests s;
               conversationContexts := f (conversationContexts s);
               configs := configs s;
               trace := trace s |}).

(** ** Provider adapters *)

(** [BaseAPIProvider.initialize] *)
Definition initialize (p : APIProvider) (config : APIConfig) : M unit :=
  setConfig p config ;; emit (EvInitialize p config).

(** [BaseAPIProvider.validateConfig] *)
Definition validateConfig (p : APIProvider) : M unit :=
  let* cs := getConfigs in
  match cs !! p with
  | None => throw (JsError (lit "API provider not initialized. Call initialize() first."))
  | Some c =>
      if truthy (cfg_apiKey c) then ret tt
      else throw (JsError (lit "API key is required"))
  end.

(** [if (!this.config) throw ...; const { ... } = this.config] *)
Definition readConfig (p : APIProvider) : M APIConfig :=
  let* cs := getConfigs in
  match cs !! p with
  | None => throw (JsError (lit "API configuration not initialized"))
  | Some c => ret c
  end.

Definition doFetch (env : Env) (req : FetchRequest) : M HttpResponse :=
  ask (fun t => fetch env t req) (EvFetch req).

(** A computation that ends at once with the outcome [o]. *)
Definition lift {A} (o : Outcome A) : M A := fun s => (o, s).

(** [await response.json().catch(() => ({}))] followed by
    [errorData.error?.message || errorData.message || 'Unknown error'];
    on a body that is [null] the first property read raises. *)
Definition errorDetailsOf (r : HttpResponse) : Outcome jsstring :=
  let errorData := match json r with Returned b => b | Thrown _ => Some emptyJson end in
  match errorData with
  | None => Thrown (nullRead "error")
  | Some d =>
      Returned (or_else (error_message d) (or_else (top_message d) (lit "Unknown error")))
  end.

(** [`<label> (${statusCode} ${statusText}): ${errorDetails}`] *)
Definition failureLine (label : jsstring) (r : HttpResponse) (errorDetails : jsstring)
    : jsstring :=
  label ++ lit " (" ++ lit (pretty (status r)) ++ lit " " ++ statusText r ++ lit "): "
  ++ errorDetails.

(** The [catch] clause shared by the [fetch] paths. *)
Definition networkCatch {A} (networkMessage : jsstring) (e : JsThrown) : M A :=
  match e with
  | JsTypeError m =>
      if includes (lit "fetch") m then throw (JsError networkMessage) else throw e
  | _ => throw e
  end.

Definition withSystemPrompt (text : jsstring) (l : Language) (custom : option CustomPrompts)
    : list ChatMessage :=
  let promptConfig := getPromptConfig l custom in
  [ {| role := system; content := systemPrompt promptConfig |};
    {| role := user; content := createPrompt text l custom |} ].

(** "Convert text to ChatMessage format if needed", as the OpenAI,
    OpenRouter and Portkey adapters do it: a text becomes a system message
    and a user message. *)
Definition toMessages (messagesOrText : MessagesOrText) (l : Language)
    (custom : option CustomPrompts) : list ChatMessage :=
  match messagesOrText with
  | Text text => withSystemPrompt text l custom
  | Msgs m => m
  end.

Definition noResponse : jsstring := lit "No response generated".

Definition plainResponse (s : jsstring) : LLMResponse :=
  {| summary := s; error := None; fromCache := None; cachedAt := None |}.

(** *** Claude *)

Module ClaudeAPI.
Section WithEnv.
Variable env : Env.

Definition endpoint : jsstring := lit "https://api.anthropic.com/v1/messages".

(** "Convert text to ChatMessage format if needed": a text becomes one
    user message. *)
Definition toMessages (messagesOrText : MessagesOrText) (l : Language)
    (custom : option CustomPrompts) : list ChatMessage :=
    match messagesOrText with
    | Text text => [ {| role := user; content := createPrompt text l custom |} ]
    | Msgs m => m
    end.

Definition callAPI (messagesOrText : MessagesOrText) (l : Language)
      (custom : option CustomPrompts) : M LLMResponse :=
    validateConfig claude ;;
    let* config := readConfig claude in
    let msgs := toMessages messagesOrText l custom in
    let promptConfig := getPromptConfig l custom in
    let model := getModelIdentifier claude (cfg_modelIdentifier config) in
    try_catch
      (let* response :=
         doFetch env {| req_endpoint := endpoint;
                    req_headers := [ (lit "x-api-key", cfg_apiKey config);
                                 (lit "Content-Type", lit "application/json");
                                 (lit "anthropic-version", lit "2023-06-01");
                                 (lit "anthropic-dangerous-direct-browser-access", lit "true") ];
                    req_body := {| body_model := model;
                               body_messages := msgs;
                               body_max_tokens := maxTokens promptConfig;
                               body_temperature := None |} |} in
       if negb (ok response) then
         let* errorDetails := lift (errorDetailsOf response) in
         throw (JsError (failureLine (lit "Claude API request failed") response errorDetails))
       else
         match json response with
         | Thrown e => throw e
         | Returned None => throw (nullRead "content")
         | Returned (Some data) =>
             ret (plainResponse (or_else (content0_text data) noResponse))
         end)
      (networkCatch
         (lit "Network error: Unable to connect to Claude API. Check your internet connection.")).
End WithEnv.
End ClaudeAPI.

(** *** OpenAI *)

Module OpenAIAPI.
Section WithEnv.
Variable env : Env.

Definition endpoint : jsstring := lit "https://api.openai.com/v1/chat/completions".

Definition hint (statusCode : Z) : jsstring :=
    if bool_decide (statusCode = 401) then
      nl ++ nl ++ lit "Tip: Check if your OpenAI API key is valid. Get one from https://platform.openai.com/"
    else if bool_decide (statusCode = 404) then
      nl ++ nl ++ lit "Tip: The model may not be available. Check available models at https://platform.openai.com/docs/models"
    else if bool_decide (statusCode = 429) then
      nl ++ nl ++ lit "Tip: Rate limit exceeded. Please wait before trying again or check your usage limits."
    else if bool_decide (statusCode >= 500) then
      nl ++ nl ++ lit "Tip: OpenAI service error. The service may be temporarily unavailable."
    else [].

Definition callAPI (messagesOrText : MessagesOrText) (l : Language)
      (custom : option CustomPrompts) : M LLMResponse :=
    validateConfig openai ;;
    let* config := readConfig openai in
    let msgs := toMessages messagesOrText l custom in
    let promptConfig := getPromptConfig l custom in
    let model := getModelIdentifier openai (cfg_modelIdentifier config) in
    try_catch
      (let* response :=
         doFetch env {| req_endpoint := endpoint;
                    req_headers := [ (lit "Authorization", lit "Bearer " ++ cfg_apiKey config);
                                 (lit "Content-Type", lit "application/json") ];
                    req_body := {| body_model := model;
                               body_messages := msgs;
                               body_max_tokens := maxTokens promptConfig;
                               body_temperature := Some (temperature promptConfig) |} |} in
       if negb (ok response) then
         let* errorDetails := lift (errorDetailsOf response) in
         let enhancedError :=
           failureLine (lit "OpenAI API request failed") response errorDetails
           ++ hint (status response) in
         throw (JsError enhancedError)
       else
         match json response with
         | Thrown e => throw e
         | Returned None => throw (nullRead "choices")
         | Returned (Some data) =>
             ret (plainResponse (or_else (choices0_message_content data) noResponse))
         end)
      (networkCatch
         (lit "Network error: Unable to connect to OpenAI API. Check your internet connection.")).
End WithEnv.
End OpenAIAPI.

(** *** OpenRouter *)

Module OpenRouterAPI.
Section WithEnv.
Variable env : Env.

Definition defaultEndpoint : jsstring := lit "https://openrouter.ai/api/v1/chat/completions".

Definition hint (statusCode : Z) : jsstring :=
    if bool_decide (statusCode = 401) then
      nl ++ nl ++ lit "Tip: Check if your API key is valid and active."
    else if bool_decide (statusCode = 429) then
      nl ++ nl ++ lit "Tip: You have hit rate limits. Please wait before trying again."
    else if bool_decide (statusCode >= 500) then
      nl ++ nl ++ lit "Tip: This is a server error. The API service may be temporarily unavailable."
    else [].

Definition callAPI (messagesOrText : MessagesOrText) (l : Language)
      (custom : option CustomPrompts) : M LLMResponse :=
    validateConfig openrouter ;;
    let* config := readConfig openrouter in
    let msgs := toMessages messagesOrText l custom in
    let endpoint := or_else (cfg_apiUrl config) defaultEndpoint in
    let promptConfig := getPromptConfig l custom in
    let model := getModelIdentifier openrouter (cfg_modelIdentifier config) in
    try_catch
      (let* response :=
         doFetch env {| req_endpoint := endpoint;
                    req_headers := [ (lit "Authorization", lit "Bearer " ++ cfg_apiKey config);
                                 (lit "Content-Type", lit "application/json");
                                 (lit "HTTP-Referer", runtime_getURL env);
                                 (lit "X-Title", lit "AI Page Summarizer") ];
                    req_body := {| body_model := model;
                               body_messages := msgs;
                               body_max_tokens := maxTokens promptConfig;
                               body_temperature := Some (temperature promptConfig) |} |} in
       if negb (ok response) then
         let* errorDetails := lift (errorDetailsOf response) in
         let enhancedError :=
           failureLine (lit "API request failed") response errorDetails
           ++ hint (status response) in
         throw (JsError enhancedError)
       else
         match json response with
         | Thrown e => throw e
         | Returned None => throw (nullRead "choices")
         | Returned (Some data) =>
             ret (plainResponse (or_else (choices0_message_content data) noResponse))
         end)
      (networkCatch
         (lit "Network error: Unable to connect to API endpoint. Check your internet connection and URL: "
          ++ endpoint)).
End WithEnv.
End OpenRouterAPI.

(** *** Portkey *)

Module PortkeyAPI.
Section WithEnv.
Variable env : Env.

Definition defaultEndpoint : jsstring := lit "https://api.portkey.ai/v1/chat/completions".

Definition hint (statusCode : Z) : jsstring :=
    if bool_decide (statusCode = 401) then
      nl ++ nl ++ lit "Tip: Check if your Portkey API key is valid and active."
    else if bool_decide (statusCode = 403) then
      nl ++ nl ++ lit "Tip: Check if your virtual key is valid and has the required permissions."
    else if bool_decide (statusCode = 429) then
      nl ++ nl ++ lit "Tip: You have hit rate limits. Please wait before trying again."
    else if bool_decide (statusCode >= 500) then
      nl ++ nl ++ lit "Tip: This is a server error. The Portkey service may be temporarily unavailable."
    else [].

(** [if (x) ...] on an optional string property *)
Definition whenTruthy (x : option jsstring) : option jsstring :=
    match x with
    | Some s => if truthy s then Some s else None
    | None => None
    end.

Definition callDirectChatAPI (msgs : list ChatMessage) (l : Language)
      (custom : option CustomPrompts) : M LLMResponse :=
    let* config := readConfig portkey in
    let endpoint := or_else (cfg_apiUrl config) defaultEndpoint in
    try_catch
      (let headers :=
         [ (lit "Authorization", lit "Bearer " ++ cfg_apiKey config);
           (lit "Content-Type", lit "application/json");
           (lit "X-Title", lit "AI Page Summarizer") ]
         ++ match whenTruthy (cfg_virtualKey config) with
            | Some vk => [ (lit "x-portkey-virtual-key", vk) ]
            | None => []
            end in
       let promptConfig := getPromptConfig l custom in
       let model := getModelIdentifier portkey (cfg_modelIdentifier config) in
       let* response :=
         doFetch env {| req_endpoint := endpoint;
                        req_headers := headers;
                        req_body := {| body_model := model;
                                       body_messages := msgs;
                                       body_max_tokens := maxTokens promptConfig;
                                       body_temperature := Some (temperature promptConfig) |} |} in
       if negb (ok response) then
         let* errorDetails := lift (errorDetailsOf response) in
         let enhancedError :=
           failureLine (lit "Portkey API request failed") response errorDetails
           ++ hint (status response) in
         throw (JsError enhancedError)
       else
         match json response with
         | Thrown e => throw e
         | Returned None => throw (nullRead "choices")
         | Returned (Some data) =>
             ret (plainResponse (or_else (choices0_message_content data) noResponse))
         end)
      (networkCatch
         (lit "Network error: Unable to connect to Portkey API endpoint. Check your internet connection and URL: "
          ++ endpoint)).

(** The message built by the outer [catch] of [callAPI]. *)
Definition wrapError (e : JsThrown) : jsstring :=
    let errorMessage := lit "Portkey API request failed" in
    match e with
    | JsObject (Some st) messageProp nested =>
        let statusCode := default 0 st in
        let errorDetails :=
          or_else (Some (default [] messageProp)) (or_else nested (lit "Unknown error")) in
        errorMessage ++ lit " (" ++ lit (pretty statusCode) ++ lit "): " ++ errorDetails
        ++ hint statusCode
    | JsObject None (Some m) _ => errorMessage ++ lit ": " ++ m
    | JsError m | JsTypeError m => errorMessage ++ lit ": " ++ m
    | JsObject None None _ | JsPrimitive => errorMessage
    end.

Definition callAPI (messagesOrText : MessagesOrText) (l : Language)
      (custom : option CustomPrompts) : M LLMResponse :=
    validateConfig portkey ;;
    let* config := readConfig portkey in
    let msgs := toMessages messagesOrText l custom in
    try_catch
      (try_catch
         (let promptConfig := getPromptConfig l custom in
          let model := getModelIdentifier portkey (cfg_modelIdentifier config) in
          let request :=
            {| sdk_apiKey := cfg_apiKey config;
               sdk_virtualKey := whenTruthy (cfg_virtualKey config);
               sdk_baseURL := whenTruthy (cfg_apiUrl config);
               sdk_body := {| body_model := model;
                              body_messages := msgs;
                              body_max_tokens := maxTokens promptConfig;
                              body_temperature := Some (temperature promptConfig) |} |} in
          let* responseContent :=
            ask (fun t => portkey_create env t request) (EvSdkCreate request) in
          ret (plainResponse (or_else responseContent noResponse)))
         (fun _ => callDirectChatAPI msgs l custom))
      (fun e => throw (JsError (wrapError e))).

Definition callLargeContextAPI (msgs : list ChatMessage) (l : Language)
      (custom : option CustomPrompts) : M LLMResponse :=
    let promptConfig := getPromptConfig l custom in
    let processedMessages := processLargeContext msgs (maxTokens promptConfig) in
    callAPI (Msgs processedMessages) l custom.
End WithEnv.
End PortkeyAPI.

(** ** The provider table *)

Record APIProviderInterface := {
  callAPI : MessagesOrText -> Language -> option CustomPrompts -> M LLMResponse;
  callLargeContextAPI :
    option (list ChatMessage -> Language -> option CustomPrompts -> M LLMResponse)
}.

(** A call of the service into an adapter is recorded, with its outcome,
    when it completes. *)
Definition observed (p : APIProvider) (call : AdapterCall) (m : M LLMResponse) : M LLMResponse :=
  fun s => match m s with
           | (o, s') => (o, snd (emit (EvProviderCall p call o) s'))
           end.

Definition apiProviders (env : Env) (p : APIProvider) : APIProviderInterface :=
  match p with
  | claude =>
      {| callAPI := fun i l c => observed claude (CallAPI i) (ClaudeAPI.callAPI env i l c);
         callLargeContextAPI := None |}
  | openai =>
      {| callAPI := fun i l c => observed openai (CallAPI i) (OpenAIAPI.callAPI env i l c);
         callLargeContextAPI := None |}
  | openrouter =>
      {| callAPI := fun i l c => observed openrouter (CallAPI i) (OpenRouterAPI.callAPI env i l c);
         callLargeContextAPI := None |}
  | portkey =>
      {| callAPI := fun i l c => observed portkey (CallAPI i) (PortkeyAPI.callAPI env i l c);
         callLargeContextAPI :=
           Some (fun m l c =>
                   observed portkey (CallLargeContextAPI m)
                     (PortkeyAPI.callLargeContextAPI env m l c)) |}
  end.

(** ** The background service ([background.ts]) *)

Record TabInfo := { tab_id : Z; tab_url : jsstring; tab_title : jsstring }.

Module BackgroundService.
Section WithEnv.
Variable env : Env.

(** Modelled from the spec: [SummaryCache.get] ([src/cache.ts] is not
    among the sources) answers with the summary stored for the URL and
    language, or with nothing, and does not raise; what it answers is up
    to the environment. *)
Definition SummaryCache_get' (u : jsstring) (l : Language) : M (option jsstring) :=
    ask (fun t => Returned (SummaryCache_get env t u l)) (EvCacheGet u l).

(** Modelled from the spec: [SummaryCache.set] ([src/cache.ts] is not
    among the sources) records the summary and does not raise; the call
    is all that is observed of it. *)
Definition SummaryCache_set (u : jsstring) (l : Language) (s : jsstring) (p : APIProvider)
      : M unit :=
    emit (EvCacheSet u l s p).

Definition now : M Z := ask (fun t => Returned (Date_now env t)) EvClock.

(** Requests older than 30 minutes are dropped. *)
Definition cleanupOldRequests : M unit :=
    let* t := now in
    let maxAge := 30 * 60 * 1000 in
    fun s => (Returned tt,
              {| pendingRequests :=
                   filter (fun kv => ¬ (t - pr_timestamp (snd kv) > maxAge)) (pendingRequests s);
                 conversationContexts := conversationContexts s;
                 configs := configs s;
                 trace := trace s |}).

Definition getAllTabsInfo : M (list TabInfo) :=
    try_catch
      (let* tabs := ask (tabs_query env) EvTabsQuery in
       ret (filter (fun tab => tab_id tab ≠ -1)
              ((fun tab =>
                  {| tab_id := match raw_id tab with
                               | Some i => if bool_decide (i = 0) then -1 else i
                               | None => -1
                               end;
                     tab_url := or_else (raw_url tab) [];
                     tab_title := or_else (raw_title tab) (lit "Untitled") |}) <$> tabs)))
      (fun _ => ret []).

Definition extractTextFromTab (tab : option Z) : M jsstring :=
    try_catch
      (let* results := ask (fun t => scripting_executeScript env t tab) (EvExecuteScript tab) in
       ret (or_else results []))
      (fun _ => ret []).

Definition getRequestStatus (requestId : jsstring) : M (option PendingRequest) :=
    let* reqs := getPending in ret (reqs !! requestId).

(** [`req_${Date.now()}_${Math.random().toString(36).substring(2, 9)}`] *)
Definition generateRequestId : M jsstring :=
    let* t := now in
    let* r := ask (fun t => Returned (Math_random_base36 env t)) EvClock in
    ret (lit "req_" ++ lit (pretty t) ++ lit "_" ++ take 7 (drop 2 r)).

Definition getApiProvider (p : APIProvider) : APIProviderInterface := apiProviders env p.

Definition initializeApiProvider (p : APIProvider) (config : APIConfig) : M unit :=
    initialize p config.

Definition getCacheEntry (u : jsstring) (l : Language) : M (option StoredEntry) :=
    try_catch
      (let* result := ask (storage_local_get env) EvStorageGet in
       let cache := default ∅ result in
       let cacheKey := u ++ lit "|" ++ language_name l in
       ret (cache !! cacheKey))
      (fun _ => ret None).

Definition roleName (r : Role) : jsstring :=
    match r with system => lit "system" | user => lit "user" | assistant => lit "assistant" end.

(** [parts.join(sep)] *)
Fixpoint join (sep : jsstring) (parts : list jsstring) : jsstring :=
    match parts with
    | [] => []
    | [x] => x
    | x :: rest => x ++ sep ++ join sep rest
    end.

(** [chunk.map(msg => `${msg.role}: ${msg.content}`).join('\n')] *)
Definition renderChunk (chunk : list ChatMessage) : jsstring :=
    join nl ((fun msg => roleName (role msg) ++ lit ": " ++ content msg) <$> chunk).

(** The first block of the loop body: [if (i > 0 && processedContext.length > 0)
    { try { ... conversationSummary = summaryResponse.summary } catch { warn } }];
    the result is the new value of [conversationSummary]. *)
Definition refreshSummary (l : Language) (custom : option CustomPrompts) (i : nat)
    (processedContext conversationSummary : jsstring) : M jsstring :=
    let portkeyProvider := getApiProvider portkey in
    if bool_decide (0 < i)%nat && bool_decide (0 < length processedContext)%nat then
      try_catch
        (let* summaryResponse := callAPI portkeyProvider (Text processedContext) l custom in
         ret (summary summaryResponse))
        (fun _ => ret conversationSummary)
    else ret conversationSummary.

(** The second block: [try { response = await callLargeContextAPI(...);
    processedContext += ... } catch (error) { throw error }]; the result
    is the response and the new value of [processedContext]. *)
Definition processChunk (l : Language) (custom : option CustomPrompts)
    (chunk : list ChatMessage) (processedContext conversationSummary : jsstring)
    : M (LLMResponse * jsstring) :=
    let portkeyProvider := getApiProvider portkey in
    let chunkWithSummary := integrateSummaryWithChunk chunk conversationSummary l in
    try_catch
      (let* response :=
         match callLargeContextAPI portkeyProvider with
         | Some large => large chunkWithSummary l custom
         | None => throw (JsError (lit "Large context API not available"))
         end in
       ret (response, processedContext ++ (nl ++ nl) ++ renderChunk chunk))
      (fun e => throw e).

(** The [for] loop of [handleExtremelyLargeContext], entered at index
    [i] with [chunks] the chunks from [i] on and [n] the number of all
    chunks. *)
Fixpoint chunkedLoop (n : nat) (l : Language) (custom : option CustomPrompts)
    (chunks : list (list ChatMessage)) (i : nat)
    (processedContext conversationSummary : jsstring) : M LLMResponse :=
    match chunks with
    | [] => throw (JsError (lit "Failed to process large context"))
    | chunk :: rest =>
        let* conversationSummary' :=
          refreshSummary l custom i processedContext conversationSummary in
        let* done := processChunk l custom chunk processedContext conversationSummary' in
        if bool_decide (i = n - 1)%nat then ret (fst done)
        else chunkedLoop n l custom rest (S i) (snd done) conversationSummary'
    end.

Definition handleExtremelyLargeContext (msgs : list ChatMessage) (config : APIConfig)
      (l : Language) (custom : option CustomPrompts) : M LLMResponse :=
    let portkeyProvider := getApiProvider portkey in
    initialize portkey config ;;
    match (if bool_decide (estimatedTokens msgs < DIRECT_THRESHOLD)
           then callLargeContextAPI portkeyProvider else None) with
    | Some large => large msgs l custom
    | None =>
        let chunkedMessages := chunkLargeContext msgs in
        chunkedLoop (length chunkedMessages) l custom chunkedMessages 0 [] []
    end.

(** [!!x] for an optional string *)
Definition truthyOpt (x : option jsstring) : bool :=
    match x with Some s => truthy s | None => false end.

Definition errorResponse (e : JsThrown) : LLMResponse :=
    {| summary := []; error := Some (errorMessageOf e); fromCache := None; cachedAt := None |}.

Definition tabKey (t : option Z) : jsstring :=
    lit "tab_" ++ match t with Some z => lit (pretty z) | None => lit "undefined" end.

(** [callLLMAPI], first block: the cache is consulted when a URL is given,
    no fresh result is forced and the request is a single user message;
    on a hit the response is built from the cached summary. *)
Definition lookupCache (request : ChatRequest) : M (option LLMResponse) :=
    let msgs := messages request in
    let l := language_or_default (language request) in
    let forceFresh' := default false (forceFresh request) in
    let u := default [] (url request) in
    if truthy u && negb forceFresh' && isTextSummarization msgs then
      let* cachedSummary := SummaryCache_get' u l in
      match cachedSummary with
      | Some s =>
          if truthy s then
            let* cacheEntry := getCacheEntry u l in
            ret (Some {| summary := s; error := None; fromCache := Some true;
                         cachedAt := cacheEntry ≫= timestamp |})
          else ret None
      | None => ret None
      end
    else ret None.

(** [if (tabId !== undefined) this.conversationContexts.set(`tab_${tabId}`, messages)] *)
Definition rememberContext (request : ChatRequest) : M unit :=
    match tabId request with
    | Some t => updContexts (fun m => <[tabKey (Some t) := messages request]> m)
    | None => ret tt
    end.

Definition configOf (request : ChatRequest) : APIConfig :=
    {| cfg_apiKey := apiKey request;
       cfg_apiUrl := apiUrl request;
       cfg_virtualKey := virtualKey request;
       cfg_modelIdentifier := modelIdentifier request;
       cfg_language := Some (language_or_default (language request));
       cfg_customPrompts := customPrompts request |}.

(** The special handling of large contexts: only for Portkey; [Some r]
    is a response returned at once. *)
Definition routeLargeContext (request : ChatRequest) : M (option LLMResponse) :=
    let msgs := messages request in
    let l := language_or_default (language request) in
    let custom := customPrompts request in
    let apiProvider := getApiProvider (provider request) in
    if bool_decide (provider request = portkey) then
      match callLargeContextAPI apiProvider with
      | Some largeAPI =>
          if bool_decide (estimatedTokens msgs > DIRECT_THRESHOLD) then
            let* r := handleExtremelyLargeContext msgs (configOf request) l custom in
            ret (Some r)
          else
            let* r := largeAPI msgs l custom in ret (Some r)
      | None => ret None
      end
    else ret None.

(** The response is cached when it is a success, a URL is given and the
    request is a single user message. *)
Definition storeInCache (request : ChatRequest) (apiResponse : LLMResponse) : M unit :=
    let u := default [] (url request) in
    if truthy u && truthy (summary apiResponse)
       && negb (truthyOpt (error apiResponse)) && isTextSummarization (messages request)
    then SummaryCache_set u (language_or_default (language request)) (summary apiResponse)
           (provider request)
    else ret tt.

Definition callLLMAPI (request : ChatRequest) : M LLMResponse :=
    try_catch
      (let* cached := lookupCache request in
       match cached with
       | Some response => ret response
       | None =>
           rememberContext request ;;
           initializeApiProvider (provider request) (configOf request) ;;
           let apiProvider := getApiProvider (provider request) in
           let* large := routeLargeContext request in
           match large with
           | Some response => ret response
           | None =>
               let* apiResponse :=
                 callAPI apiProvider (Msgs (messages request))
                   (language_or_default (language request)) (customPrompts request) in
               storeInCache request apiResponse ;;
               ret apiResponse
           end
       end)
      (fun e => ret (errorResponse e)).

Definition processLLMRequest (requestId : jsstring) (request : ChatRequest) : M unit :=
    let* reqs := getPending in
    match reqs !! requestId with
    | None => ret tt
    | Some pendingRequest =>
        let processingRequest :=
          {| pr_id := pr_id pendingRequest; pr_tabUrl := pr_tabUrl pendingRequest;
             pr_status := Status.processing; pr_result := pr_result pendingRequest;
             pr_error := pr_error pendingRequest; pr_timestamp := pr_timestamp pendingRequest |} in
        setPending requestId processingRequest ;;
        try_catch
          (let* result := callLLMAPI request in
           setPending requestId
             {| pr_id := pr_id processingRequest; pr_tabUrl := pr_tabUrl processingRequest;
                pr_status := Status.completed; pr_result := Some result;
                pr_error := pr_error processingRequest;
                pr_timestamp := pr_timestamp processingRequest |})
          (fun e =>
             setPending requestId
               {| pr_id := pr_id processingRequest; pr_tabUrl := pr_tabUrl processingRequest;
                  pr_status := Status.error; pr_result := pr_result processingRequest;
                  pr_error := Some (errorMessageOf e);
                  pr_timestamp := pr_timestamp processingRequest |})
    end.

(** The request is registered and its processing started; the
    processing (a promise nobody awaits) is run to its end here, before
    the id is handed back. *)
Definition startLLMRequest (request : ChatRequest) (requestId : option jsstring) : M jsstring :=
    let* id :=
      match requestId with
      | Some i => if truthy i then ret i else generateRequestId
      | None => generateRequestId
      end in
    let* t := now in
    let pendingRequest :=
      {| pr_id := id; pr_tabUrl := default [] (url request); pr_status := Status.pending;
         pr_result := None; pr_error := None; pr_timestamp := t |} in
    setPending id pendingRequest ;;
    try_catch
      (processLLMRequest id request)
      (fun e =>
         let* reqs := getPending in
         match reqs !! id with
         | Some req =>
             setPending id
               {| pr_id := pr_id req; pr_tabUrl := pr_tabUrl req; pr_status := Status.error;
                  pr_result := pr_result req; pr_error := Some (errorMessageOf e);
                  pr_timestamp := pr_timestamp req |}
         | None => ret tt
         end) ;;
    ret id.

Definition openDetachedWindow : M unit :=
    try_catch
      (let* existingWindows := ask (windows_getAll env) EvWindowsGetAll in
       let popupWindow :=
         head (filter (fun w => isPopup w = true ∧ showsPopupHtml w = true) existingWindows) in
       match popupWindow ≫= window_id with
       | Some i =>
           if bool_decide (i = 0)
           then ask (windows_create env) EvWindowsCreate
           else ask (fun t => windows_update env t i) (EvWindowsUpdate i)
       | None => ask (windows_create env) EvWindowsCreate
       end)
      (fun e => throw e).

(** Modelled from the spec: [SummaryCache.getStats] and
    [SummaryCache.clear] ([src/cache.ts] is not among the sources) do not
    raise. *)
Definition getCacheStats : M CacheStats :=
    ask (fun t => Returned (SummaryCache_getStats env t)) EvCacheStats.

Definition clearCache : M unit := emit EvCacheClear.

Definition getConversationContext (t : option Z) : M (option (list ChatMessage)) :=
    let* ctxs := getContexts in ret (ctxs !! tabKey t).

Definition clearConversationContext (t : option Z) : M unit :=
    updContexts (fun m => delete (tabKey t) m).

Definition clearAllConversationContexts : M unit := updContexts (fun _ => ∅).
End WithEnv.
End BackgroundService.

(** ** The runtime message listener *)

(** [request.data]: the page text (summarize actions) and the request
    fields; an action reads the parts it needs. A [data] that is present
    is taken to have the fields of its TypeScript type; a message may
    come without [data] altogether. *)
Record MessageData := { text : jsstring; base : ChatRequest }.

Record Message := {
  action : jsstring;
  msg_tabId : option Z;
  msg_data : option MessageData;
  msg_url : option jsstring;
  msg_forceFresh : option bool;
  msg_requestId : option jsstring
}.

(** The argument [sendResponse] is called with. *)
Inductive Response :=
| RespTabs (tabs : list TabInfo)
| RespText (t : jsstring)
| RespRequestId (id : jsstring)
| RespError (msg : option jsstring)
| RespStatus (st : option PendingRequest)
| RespLLM (r : LLMResponse)
| RespVoid
| RespStats (st : CacheStats)
| RespSuccess
| RespContext (ctx : option (list ChatMessage)).

(** What the listener did: the response sent, if any, and whether it
    returned [true] (the channel stays open for a later response). *)
Record Handled := { sent : option Response; keepsChannel : bool }.

Definition knownActions : list jsstring :=
  [ lit "getAllTabs"; lit "extractTabText"; lit "startSummarize"; lit "getRequestStatus";
    lit "summarizeText"; lit "openDetachedWindow"; lit "getCacheStats"; lit "clearCache";
    lit "chatMessage"; lit "getConversationContext"; lit "clearConversationContext" ].

Section Listener.
Variable env : Env.

(** [{ ...restData, messages, url: request.url, forceFresh: request.forceFresh }] *)
Definition dataWithUrl (request : Message) (data : MessageData) : ChatRequest :=
    let d := base data in
    {| messages := textToChatMessages (text data) (language d) (customPrompts d);
       provider := provider d;
       modelIdentifier := modelIdentifier d;
       apiKey := apiKey d;
       apiUrl := apiUrl d;
       virtualKey := virtualKey d;
       language := language d;
       customPrompts := customPrompts d;
       url := msg_url request;
       forceFresh := msg_forceFresh request;
       tabId := tabId d |}.

(** [{ ...request.data, tabId: request.tabId }] *)
Definition chatRequestOf (request : Message) (data : MessageData) : ChatRequest :=
    let d := base data in
    {| messages := messages d;
       provider := provider d;
       modelIdentifier := modelIdentifier d;
       apiKey := apiKey d;
       apiUrl := apiUrl d;
       virtualKey := virtualKey d;
       language := language d;
       customPrompts := customPrompts d;
       url := url d;
       forceFresh := forceFresh d;
       tabId := msg_tabId request |}.

(** [error.message] *)
Definition messageProp (e : JsThrown) : option jsstring :=
    match e with
    | JsError m | JsTypeError m => Some m
    | JsObject _ m _ => m
    | JsPrimitive => None
    end.

(** [promise.then(sendResponse)]: nothing is sent when the promise
    rejects. *)
Definition thenSend {A} (m : M A) (wrap : A -> Response) : M Handled :=
    fun s => match m s with
             | (Returned a, s') => (Returned {| sent := Some (wrap a); keepsChannel := true |}, s')
             | (Thrown _, s') => (Returned {| sent := None; keepsChannel := true |}, s')
             end.

(** [promise.then(id => sendResponse(...)).catch(error => sendResponse(...))] *)
Definition thenSendCatch {A} (m : M A) (wrap : A -> Response) (onError : JsThrown -> Response)
      : M Handled :=
    fun s => match m s with
             | (Returned a, s') => (Returned {| sent := Some (wrap a); keepsChannel := true |}, s')
             | (Thrown e, s') => (Returned {| sent := Some (onError e); keepsChannel := true |}, s')
             end.

(** [const { text, ...restData } = request.data] raises a [TypeError]
    when the message has no [data]; the message is V8's. *)
Definition destructuringError : JsThrown :=
    JsTypeError (lit "Cannot destructure property 'text' of 'request.data' as it is undefined.").

(** [callLLMAPI({ ...undefined, tabId })], the chat request of a message
    without [data]: no field but [tabId] is defined. The cache is not
    consulted (no URL); with a tab id, [undefined] is stored as the tab's
    context, which reads back as [null], like no entry; the look-up of the
    provider [undefined] raises, and the outer [catch] turns that into a
    response. *)
Definition callLLMAPI_without_data (t : option Z) : M LLMResponse :=
    match t with
    | Some z => updContexts (fun m => delete (BackgroundService.tabKey (Some z)) m)
    | None => ret tt
    end ;;
    ret (BackgroundService.errorResponse (JsError (lit "Unknown API provider: undefined"))).

Definition onMessage (request : Message) : M Handled :=
    let a := action request in
    if bool_decide (a = lit "getAllTabs") then
      thenSend (BackgroundService.getAllTabsInfo env) RespTabs
    else if bool_decide (a = lit "extractTabText") then
      thenSend (BackgroundService.extractTextFromTab env (msg_tabId request)) RespText
    else if bool_decide (a = lit "startSummarize") then
      match msg_data request with
      | None => throw destructuringError
      | Some data =>
          thenSendCatch
            (BackgroundService.startLLMRequest env (dataWithUrl request data)
               (msg_requestId request))
            RespRequestId (fun e => RespError (messageProp e))
      end
    else if bool_decide (a = lit "getRequestStatus") then
      let* st := match msg_requestId request with
                 | Some id => BackgroundService.getRequestStatus id
                 | None => ret None
                 end in
      ret {| sent := Some (RespStatus st); keepsChannel := true |}
    else if bool_decide (a = lit "summarizeText") then
      match msg_data request with
      | None => throw destructuringError
      | Some data =>
          thenSend (BackgroundService.callLLMAPI env (dataWithUrl request data)) RespLLM
      end
    else if bool_decide (a = lit "openDetachedWindow") then
      thenSend (BackgroundService.openDetachedWindow env) (fun _ => RespVoid)
    else if bool_decide (a = lit "getCacheStats") then
      thenSend (BackgroundService.getCacheStats env) RespStats
    else if bool_decide (a = lit "clearCache") then
      thenSend BackgroundService.clearCache (fun _ => RespSuccess)
    else if bool_decide (a = lit "chatMessage") then
      match msg_data request with
      | None => thenSend (callLLMAPI_without_data (msg_tabId request)) RespLLM
      | Some data =>
          thenSend (BackgroundService.callLLMAPI env (chatRequestOf request data)) RespLLM
      end
    else if bool_decide (a = lit "getConversationContext") then
      let* ctx := BackgroundService.getConversationContext (msg_tabId request) in
      ret {| sent := Some (RespContext ctx); keepsChannel := true |}
    else if bool_decide (a = lit "clearConversationContext") then
      BackgroundService.clearConversationContext (msg_tabId request) ;;
      ret {| sent := Some RespSuccess; keepsChannel := true |}
    else
      ret {| sent := Some (RespError (Some (lit "Unknown action"))); keepsChannel := false |}.
End Listener.

(** * Vocabulary of the properties, and stub collaborators *)

(** A chunk the chunker may produce: it is not empty, and it stays
    within the budget unless it is one message that alone exceeds it. *)
Definition wellSized (chunk : list ChatMessage) : Prop :=
    chunk ≠ [] ∧
    (totalLength chunk <= maxChunkSize
     ∨ ∃ m, chunk = [m] ∧ contentLength m > maxChunkSize).

(** The same in estimated tokens. *)
Definition wellSizedInTokens (chunk : list ChatMessage) : Prop :=
  chunk ≠ [] ∧
  (estimatedTokens chunk <= maxChunkSize
   ∨ ∃ m, chunk = [m] ∧ estimatedTokens [m] > maxChunkSize).

Definition sumTokens (msgs : list ChatMessage) : Z :=
    foldr (fun m acc => estimateTokens (content m) + acc) 0 msgs.

(** The message [m] cut down to its first [chars] characters. *)
Definition truncated (m : ChatMessage) (chars : Z) : ChatMessage :=
    {| role := role m; content := substring0 (content m) chars ++ ELLIPSIS |}.

(** The first message, when its role is [system]. *)
Definition leadingSystem (msgs : list ChatMessage) : list ChatMessage :=
    match msgs with
    | m0 :: _ => if bool_decide (role m0 = system) then [m0] else []
    | [] => []
    end.



(** Events of an adapter talking to its vendor. *)
Definition netEvent (e : Event) : Prop :=
  match e with
  | EvSdkCreate _ | EvFetch _ => True
  | _ => False
  end.

(** Events on the provider side of the service: adapter set-up, adapter
    calls and vendor traffic. *)
Definition providerSide (e : Event) : Prop :=
  match e with
  | EvSdkCreate _ | EvFetch _ | EvProviderCall _ _ _ | EvInitialize _ _ => True
  | _ => False
  end.

(** [m] leaves the pending requests alone and only appends events
    satisfying [P] to the history. *)
Definition frame (P : Event → Prop) {A} (m : M A) : Prop :=
  ∀ s, pendingRequests (snd (m s)) = pendingRequests s
       ∧ ∃ evs, trace (snd (m s)) = trace s ++ evs ∧ Forall P evs.

(** A completed call of the service into an adapter. *)
Definition Call : Type := APIProvider * AdapterCall * Outcome LLMResponse.

Definition callOf (e : Event) : option Call :=
  match e with
  | EvProviderCall p c o => Some (p, c, o)
  | _ => None
  end.

(** The adapter calls recorded in a history, oldest first. *)
Definition providerCalls (t : list Event) : list Call := omap callOf t.

(** The adapter calls made between two states of the service. *)
Definition newCalls (s s' : ServiceState) : list Call :=
  drop (length (providerCalls (trace s))) (providerCalls (trace s')).

Definition isChunkCall (c : Call) : bool :=
  match c with
  | (_, CallLargeContextAPI _, _) => true
  | _ => false
  end.

Definition isSynopsisCall (c : Call) : bool :=
  match c with
  | (_, CallAPI (Text _), _) => true
  | _ => false
  end.

(** The synopsis carried into the next chunk: the summary of the
    synopsis request when it succeeded, the previous one otherwise. *)
Definition carry (summ : jsstring) (o : Outcome LLMResponse) : jsstring :=
  match o with
  | Returned q => summary q
  | Thrown _ => summ
  end.

(** [sent] is [chunk] as it goes out with the synopsis [synopsis]: the
    chunk itself when the synopsis is empty; otherwise the chunk with one
    more message in front, of role [system], whose content holds the
    synopsis. *)
Definition withSynopsis (synopsis : jsstring) (chunk sent : list ChatMessage) : Prop :=
  match synopsis with
  | [] => sent = chunk
  | _ :: _ =>
      ∃ m before after,
        sent = m :: chunk ∧ role m = system ∧ content m = before ++ synopsis ++ after
  end.

(** The text [t] holds the content of every message of the chunks
    [processed]. *)
Definition holdsAll (processed : list (list ChatMessage)) (t : jsstring) : Prop :=
  ∀ chunk m, chunk ∈ processed → m ∈ chunk → ∃ before after, t = before ++ content m ++ after.

(** The calls for the chunks after the first: for each chunk a synopsis
    request on everything processed so far ([ctx]), then the chunk with
    the carried synopsis integrated. *)
Fixpoint laterCalls (l : Language) (ctx summ : jsstring) (chunks : list (list ChatMessage))
    (synopses : list (Outcome LLMResponse)) (responses : list LLMResponse) : list Call :=
  match chunks, synopses, responses with
  | chunk :: chunks', o :: synopses', r :: responses' =>
      (portkey, CallAPI (Text ctx), o)
      :: (portkey, CallLargeContextAPI (integrateSummaryWithChunk chunk (carry summ o) l),
          Returned r)
      :: laterCalls l (ctx ++ (nl ++ nl) ++ BackgroundService.renderChunk chunk)
           (carry summ o) chunks' synopses' responses'
  | _, _, _ => []
  end.

Definition expectedCalls (l : Language) (chunks : list (list ChatMessage))
    (synopses : list (Outcome LLMResponse)) (responses : list LLMResponse) : list Call :=
  match chunks, responses with
  | chunk :: chunks', r :: responses' =>
      (portkey, CallLargeContextAPI (integrateSummaryWithChunk chunk [] l), Returned r)
      :: laterCalls l ((nl ++ nl) ++ BackgroundService.renderChunk chunk) [] chunks'
           synopses responses'
  | _, _ => []
  end.

(** The synopsis request made before chunk [i]. *)
Inductive SynopsisStep (i : nat) (ctx summ : jsstring) : list Call → jsstring → Prop :=
| syn_skip :
    i = 0%nat ∨ ctx = [] →
    SynopsisStep i ctx summ [] summ
| syn_asked o :
    (0 < i)%nat → ctx ≠ [] →
    SynopsisStep i ctx summ [(portkey, CallAPI (Text ctx), o)] (carry summ o).

(** A run of the chunk loop from index [i]: the calls it makes and its
    outcome. *)
Inductive ChunkedRun (l : Language) :
    nat → jsstring → jsstring → list (list ChatMessage) → list Call → Outcome LLMResponse → Prop :=
| run_none i ctx summ :
    ChunkedRun l i ctx summ [] []
      (Thrown (JsError (lit "Failed to process large context")))
| run_abort i ctx summ chunk rest syn summ' e :
    SynopsisStep i ctx summ syn summ' →
    ChunkedRun l i ctx summ (chunk :: rest)
      (syn ++ [(portkey, CallLargeContextAPI (integrateSummaryWithChunk chunk summ' l),
                Thrown e)])
      (Thrown e)
| run_last i ctx summ chunk syn summ' r :
    SynopsisStep i ctx summ syn summ' →
    ChunkedRun l i ctx summ [chunk]
      (syn ++ [(portkey, CallLargeContextAPI (integrateSummaryWithChunk chunk summ' l),
                Returned r)])
      (Returned r)
| run_next i ctx summ chunk rest syn summ' r cs o :
    rest ≠ [] →
    SynopsisStep i ctx summ syn summ' →
    ChunkedRun l (S i) (ctx ++ (nl ++ nl) ++ BackgroundService.renderChunk chunk) summ' rest cs o →
    ChunkedRun l i ctx summ (chunk :: rest)
      (syn ++ (portkey, CallLargeContextAPI (integrateSummaryWithChunk chunk summ' l),
               Returned r) :: cs)
      o.

(** The SDK fails on the first synopsis request and on the third chunk
    of a run that starts from an empty history. *)
Definition sdkFailsTwice : list Event → SdkRequest → Outcome (option jsstring) :=
  fun t _ => if bool_decide (length t = 3%nat ∨ length t = 10%nat) then Thrown JsPrimitive
             else Returned (Some (lit "S")).

(** A chunk call that failed. *)
Definition failedChunkCall (c : Call) : bool :=
  match c with
  | (_, CallLargeContextAPI _, Thrown _) => true
  | _ => false
  end.

Definition countCalls (f : Call → bool) (cs : list Call) : nat := length (List.filter f cs).

(** A world with an empty cache in which the vendor answers every HTTP
    request with [response] and the Portkey SDK answers as [sdk] says. *)
Definition stubEnv (response : HttpResponse)
    (sdk : list Event → SdkRequest → Outcome (option jsstring)) : Env :=
  {| SummaryCache_get := fun _ _ _ => None;
     SummaryCache_getStats := fun _ => {| count := 0; size := 0 |};
     storage_local_get := fun _ => Returned None;
     fetch := fun _ _ => Returned response;
     portkey_create := sdk;
     Date_now := fun _ => 1700000000000;
     Math_random_base36 := fun _ => lit "0.abcdefghijk";
     runtime_getURL := lit "chrome-extension://abcdefgh/";
     tabs_query := fun _ => Returned [];
     scripting_executeScript := fun _ _ => Returned None;
     windows_getAll := fun _ => Returned [];
     windows_update := fun _ _ => Returned tt;
     windows_create := fun _ => Returned tt |}.

Definition okResponse (s : jsstring) : HttpResponse :=
  {| status := 200; statusText := lit "OK";
     json := Returned (Some {| choices0_message_content := Some s; content0_text := Some s;
                               error_message := None; top_message := None |}) |}.

Definition rateLimited : HttpResponse :=
  {| status := 429; statusText := lit "Too Many Requests";
     json := Returned (Some {| choices0_message_content := None; content0_text := None;
                               error_message := Some (lit "Rate limit reached");
                               top_message := None |}) |}.

Definition serverError : HttpResponse :=
  {| status := 500; statusText := lit "Internal Server Error";
     json := Thrown (JsError (lit "Unexpected end of JSON input")) |}.

(** The SDK always answers ["S"]. *)
Definition sdkAnswers : list Event → SdkRequest → Outcome (option jsstring) :=
  fun _ _ => Returned (Some (lit "S")).

(** The SDK fails on its second request of a run that starts from an
    empty history (the first synopsis request of a chunked operation). *)
Definition sdkFailsOnce : list Event → SdkRequest → Outcome (option jsstring) :=
  fun t _ => if bool_decide (length t = 3%nat) then Thrown JsPrimitive
             else Returned (Some (lit "S")).

Definition someConfig : APIConfig :=
  {| cfg_apiKey := lit "pk-test"; cfg_apiUrl := None; cfg_virtualKey := None;
     cfg_modelIdentifier := None; cfg_language := Some english; cfg_customPrompts := None |}.

(** Three user messages of 140000 characters each: an estimate of 105000
    tokens, cut into three chunks. *)
Definition threeBigMessages : list ChatMessage :=
  replicate 3 {| role := user; content := replicate (Z.to_nat 140000) 97%N |}.

Definition smallMessages : list ChatMessage := [ {| role := user; content := lit "hello" |} ].

(** A call whose outcome is a failure. *)
Definition failedCall (c : Call) : bool :=
  match c with
  | (_, _, Thrown _) => true
  | _ => false
  end.

Definition someRequest : ChatRequest :=
  {| messages := [ {| role := user; content := lit "Summarize: hello" |} ];
     provider := openai;
     modelIdentifier := None;
     apiKey := lit "sk-test";
     apiUrl := None;
     virtualKey := None;
     language := Some english;
     customPrompts := None;
     url := Some (lit "https://example.com");
     forceFresh := None;
     tabId := None |}.

Definition pingMessage : Message :=
  {| action := lit "ping";
     msg_tabId := None;
     msg_data := Some {| text := []; base := someRequest |};
     msg_url := None;
     msg_forceFresh := None;
     msg_requestId := None |}.

(** The [callAPI] method of each adapter class. *)
Definition adapterCallAPI (env : Env) (p : APIProvider) :
    MessagesOrText → Language → option CustomPrompts → M LLMResponse :=
  match p with
  | claude => ClaudeAPI.callAPI env
  | openai => OpenAIAPI.callAPI env
  | openrouter => OpenRouterAPI.callAPI env
  | portkey => PortkeyAPI.callAPI env
  end.

(** The label a failure message starts with. Three adapters name their
    provider; OpenRouter's label names none. *)
Definition failureLabel (p : APIProvider) : jsstring :=
  match p with
  | claude => lit "Claude API request failed"
  | openai => lit "OpenAI API request failed"
  | openrouter => lit "API request failed"
  | portkey => lit "Portkey API request failed"
  end.

(** The vendor's detail of a failure: the message of the body's [error]
    object when it is not empty, else the body's own [message] when it is
    not empty, else ["Unknown error"] (also when the body cannot be
    parsed). *)
Definition vendorDetail (r : HttpResponse) : jsstring :=
  match json r with
  | Returned (Some d) =>
      match error_message d with
      | Some (c :: m) => c :: m
      | _ =>
          match top_message d with
          | Some (c :: m) => c :: m
          | _ => lit "Unknown error"
          end
      end
  | _ => lit "Unknown error"
  end.

(** The failure message up to the hint: label, status code and status
    text, the vendor's detail. *)
Definition failureText (p : APIProvider) (r : HttpResponse) : jsstring :=
  failureLabel p ++ lit " (" ++ lit (pretty (status r)) ++ lit " " ++ statusText r
  ++ lit "): " ++ vendorDetail r.

(** Portkey's [callAPI] wraps what its direct request raised: the label
    and a colon come in front of the message. *)
Definition wrapped (p : APIProvider) (message : jsstring) : jsstring :=
  match p with
  | portkey => lit "Portkey API request failed: " ++ message
  | _ => message
  end.

(** The status codes for which a hint follows the message. *)
Definition hinted (p : APIProvider) (statusCode : Z) : bool :=
  match p with
  | claude => false
  | openai =>
      bool_decide (statusCode = 401 ∨ statusCode = 404 ∨ statusCode = 429 ∨ 500 <= statusCode)
  | openrouter => bool_decide (statusCode = 401 ∨ statusCode = 429 ∨ 500 <= statusCode)
  | portkey =>
      bool_decide (statusCode = 401 ∨ statusCode = 403 ∨ statusCode = 429 ∨ 500 <= statusCode)
  end.

(** The hint of each adapter. *)
Definition hintOf (p : APIProvider) (statusCode : Z) : jsstring :=
  match p with
  | claude => []
  | openai => OpenAIAPI.hint statusCode
  | openrouter => OpenRouterAPI.hint statusCode
  | portkey => PortkeyAPI.hint statusCode
  end.

(** The message of the [Error] an adapter raises for the response [r]. *)
Definition nonOkMessage (p : APIProvider) (r : HttpResponse) : jsstring :=
  wrapped p (failureText p r ++ hintOf p (status r)).

(** What is asked of a hint: none for a status code that is not
    [hinted], and two line breaks followed by ["Tip: "] and some advice
    for one that is. *)
Definition isHint (p : APIProvider) (statusCode : Z) (tip : jsstring) : Prop :=
  (hinted p statusCode = false → tip = [])
  ∧ (hinted p statusCode = true →
     ∃ advice, advice ≠ [] ∧ tip = nl ++ nl ++ lit "Tip: " ++ advice).

(** A response is well formed when its body is not the JSON value
    [null]. *)
Definition wellFormed (r : HttpResponse) : Prop := json r ≠ Returned None.

(** What an adapter raises on a failure status whose body is [null]: the
    [TypeError] of the property read, which Portkey's [callAPI] wraps like
    any other failure of its direct request. *)
Definition nullBodyThrown (p : APIProvider) : JsThrown :=
  match p with
  | portkey =>
      JsError (lit "Portkey API request failed: Cannot read properties of null (reading 'error')")
  | _ => JsTypeError (lit "Cannot read properties of null (reading 'error')")
  end.

(** The vendor answers every request with the response [r]; for Portkey,
    whose SDK raises on such a response, the SDK call fails and the direct
    request gets [r]. *)
Definition vendorAnswers (env : Env) (r : HttpResponse) : Prop :=
  (∀ t req, fetch env t req = Returned r)
  ∧ (∀ t req, ∃ e, portkey_create env t req = Thrown e).

Definition CacheWrite : Type := jsstring * Language * jsstring * APIProvider.

Definition setOf (e : Event) : option CacheWrite :=
  match e with
  | EvCacheSet u l s p => Some (u, l, s, p)
  | _ => None
  end.

(** The [SummaryCache.set] calls recorded in a history. *)
Definition cacheSets (t : list Event) : list CacheWrite := omap setOf t.

(** The cache writes made between two states of the service. *)
Definition cacheWrites (s s' : ServiceState) : list CacheWrite :=
  drop (length (cacheSets (trace s))) (cacheSets (trace s')).

(** Neither an adapter call nor a cache write. *)
Definition silent (e : Event) : Prop := callOf e = None ∧ setOf e = None.

Definition noWrite (e : Event) : Prop := setOf e = None.

Definition noCall (e : Event) : Prop := callOf e = None.

(** [s'] is [s] with the same pending requests and more history, all of
    it satisfying [P]. *)
Definition extends (P : Event → Prop) (s s' : ServiceState) : Prop :=
  pendingRequests s' = pendingRequests s
  ∧ ∃ evs, trace s' = trace s ++ evs ∧ Forall P evs.

(** A call of [callAPI] on a message sequence (not a synopsis request,
    not a large-context call). *)
Definition isMessagesCall (c : Call) : bool :=
  match c with
  | (_, CallAPI (Msgs _), _) => true
  | _ => false
  end.

(** What [storeInCache] writes for a response. *)
Definition storedFor (request : ChatRequest) (r : LLMResponse) : list CacheWrite :=
  if truthy (default [] (url request)) && truthy (summary r)
     && negb (BackgroundService.truthyOpt (error r)) && isTextSummarization (messages request)
  then [(default [] (url request), language_or_default (language request), summary r,
         provider request)]
  else [].

(** The response of a provider call that succeeded: it does not come
    from the cache, and it carries a summary and no error. *)
Definition providerSucceeded (r : LLMResponse) : Prop :=
  fromCache r ≠ Some true
  ∧ truthy (summary r) = true
  ∧ BackgroundService.truthyOpt (error r) = false.

Definition forcedRequest : ChatRequest :=
  {| messages := [ {| role := user; content := lit "Summarize: hello" |} ];
     provider := openai;
     modelIdentifier := None;
     apiKey := lit "sk-test";
     apiUrl := None;
     virtualKey := None;
     language := Some english;
     customPrompts := None;
     url := Some (lit "https://example.com");
     forceFresh := Some true;
     tabId := None |}.

Definition chatRequest : ChatRequest :=
  {| messages := [ {| role := user; content := lit "What is this page about?" |};
                   {| role := assistant; content := lit "It is about tea." |};
                   {| role := user; content := lit "Which kinds?" |} ];
     provider := openai;
     modelIdentifier := None;
     apiKey := lit "sk-test";
     apiUrl := None;
     virtualKey := None;
     language := Some english;
     customPrompts := None;
     url := Some (lit "https://example.com");
     forceFresh := None;
     tabId := Some 7 |}.

(** The timestamp [getCacheEntry] finds for a URL and language in the
    persisted collection, read at history [t]. *)
Definition storedTimestamp (env : Env) (t : list Event) (u : jsstring) (l : Language)
    : option Z :=
  match storage_local_get env t with
  | Returned (Some cache) => cache !! (u ++ lit "|" ++ language_name l) ≫= timestamp
  | _ => None
  end.

(** A world whose cache holds a summary of [https://example.com] in
    English, stored at time 1699999999999. *)
Definition cachedEnv : Env :=
  {| SummaryCache_get := fun _ u l =>
       if bool_decide (u = lit "https://example.com" ∧ l = english)
       then Some (lit "A cached summary") else None;
     SummaryCache_getStats := fun _ => {| count := 1; size := 16 |};
     storage_local_get := fun _ =>
       Returned (Some {[ lit "https://example.com|english" :=
                           {| timestamp := Some 1699999999999 |} ]});
     fetch := fun _ _ => Returned serverError;
     portkey_create := sdkAnswers;
     Date_now := fun _ => 1700000000000;
     Math_random_base36 := fun _ => lit "0.abcdefghijk";
     runtime_getURL := lit "chrome-extension://abcdefgh/";
     tabs_query := fun _ => Returned [];
     scripting_executeScript := fun _ _ => Returned None;
     windows_getAll := fun _ => Returned [];
     windows_update := fun _ _ => Returned tt;
     windows_create := fun _ => Returned tt |}.

(** The Portkey SDK raises its API error for a rate-limited request. *)
Definition sdkRaises : list Event → SdkRequest → Outcome (option jsstring) :=
  fun _ _ => Thrown (JsObject (Some (Some 429)) (Some (lit "Rate limit reached")) None).

Definition rateLimitedEnv : Env := stubEnv rateLimited sdkRaises.

(** The service after [initialize(someConfig)] on the adapter of [p]. *)
Definition configuredState (p : APIProvider) : ServiceState :=
  snd (initialize p someConfig initialState).

(** What the default templates put before the text. *)
Definition defaultLead (l : Language) : jsstring :=
  take (length (userPrompt (DEFAULT_PROMPTS l)) - length TEXT_PLACEHOLDER)
    (userPrompt (DEFAULT_PROMPTS l)).

(** ** Vocabulary of the further properties *)

(** Adjacent chunks cannot be merged: the first message of a chunk did
    not fit into the chunk before it. *)
Definition greedy (chunks : list (list ChatMessage)) : Prop :=
  ∀ i c m rest,
    chunks !! i = Some c → chunks !! S i = Some (m :: rest) →
    totalLength c + contentLength m > maxChunkSize.

(** [s] with [evs] appended to its history. *)
Definition withEvents (s : ServiceState) (evs : list Event) : ServiceState :=
  {| pendingRequests := pendingRequests s;
     conversationContexts := conversationContexts s;
     configs := configs s;
     trace := trace s ++ evs |}.

(** A response as an adapter builds it: a summary that is not empty and
    nothing else. *)
Definition isAnswer (r : LLMResponse) : Prop :=
  truthy (summary r) = true ∧ error r = None ∧ fromCache r = None ∧ cachedAt r = None.

(** What [m] returns, when it returns, satisfies [Q]. *)
Definition returns {A} (Q : A → Prop) (m : M A) : Prop :=
  ∀ s, match fst (m s) with Returned a => Q a | Thrown _ => True end.

(** [m] leaves the conversation contexts and the adapters'
    configurations alone. *)
Definition quiet {A} (m : M A) : Prop :=
  ∀ s, conversationContexts (snd (m s)) = conversationContexts s
       ∧ configs (snd (m s)) = configs s.

(** The conversation contexts after a request that the cache did not
    answer. *)
Definition remembered (request : ChatRequest) (ctxs : gmap jsstring (list ChatMessage))
    : gmap jsstring (list ChatMessage) :=
  match tabId request with
  | Some t => <[BackgroundService.tabKey (Some t) := messages request]> ctxs
  | None => ctxs
  end.

(** The message of the [Error] an adapter raises when [fetch] itself
    fails (no connection). *)
Definition networkMessage (p : APIProvider) (config : APIConfig) : jsstring :=
  match p with
  | claude =>
      lit "Network error: Unable to connect to Claude API. Check your internet connection."
  | openai =>
      lit "Network error: Unable to connect to OpenAI API. Check your internet connection."
  | openrouter =>
      lit "Network error: Unable to connect to API endpoint. Check your internet connection and URL: "
      ++ or_else (cfg_apiUrl config) OpenRouterAPI.defaultEndpoint
  | portkey =>
      lit "Portkey API request failed: "
      ++ lit "Network error: Unable to connect to Portkey API endpoint. Check your internet connection and URL: "
      ++ or_else (cfg_apiUrl config) PortkeyAPI.defaultEndpoint
  end.

(** A world without a connection: [fetch] rejects with the browser's
    [TypeError: Failed to fetch], and the Portkey SDK fails as well. *)
Definition offlineEnv : Env :=
  {| SummaryCache_get := fun _ _ _ => None;
     SummaryCache_getStats := fun _ => {| count := 0; size := 0 |};
     storage_local_get := fun _ => Returned None;
     fetch := fun _ _ => Thrown (JsTypeError (lit "Failed to fetch"));
     portkey_create := fun _ _ => Thrown (JsError (lit "Connection error."));
     Date_now := fun _ => 1700000000000;
     Math_random_base36 := fun _ => lit "0.abcdefghijk";
     runtime_getURL := lit "chrome-extension://abcdefgh/";
     tabs_query := fun _ => Returned [];
     scripting_executeScript := fun _ _ => Returned None;
     windows_getAll := fun _ => Returned [];
     windows_update := fun _ _ => Returned tt;
     windows_create := fun _ => Returned tt |}.

(** Reads of the summary cache and of its persisted collection. *)
Definition cacheRead (e : Event) : Prop :=
  match e with
  | EvCacheGet _ _ | EvStorageGet => True
  | _ => False
  end.

(** A request to the vendor (through the SDK or over HTTP) that carries
    no message at all. *)
Definition sendsNoMessage (e : Event) : Prop :=
  match e with
  | EvSdkCreate req => body_messages (sdk_body req) = []
  | EvFetch req => body_messages (req_body req) = []
  | _ => True
  end.

(** The part of [callLLMAPI] after the adapter is set up: the
    large-context route, the call itself and the cache write. *)
Definition afterSetup (env : Env) (request : ChatRequest) : M LLMResponse :=
  let* large := BackgroundService.routeLargeContext env request in
  match large with
  | Some response => ret response
  | None =>
      let* apiResponse :=
        callAPI (BackgroundService.getApiProvider env (provider request))
          (Msgs (messages request))
          (language_or_default (language request)) (customPrompts request) in
      BackgroundService.storeInCache request apiResponse ;;
      ret apiResponse
  end.

(** A request without an API key. *)
Definition keylessRequest : ChatRequest :=
  {| messages := [ {| role := user; content := lit "Summarize: hello" |} ];
     provider := openai;
     modelIdentifier := None;
     apiKey := [];
     apiUrl := None;
     virtualKey := None;
     language := Some english;
     customPrompts := None;
     url := Some (lit "https://example.com");
     forceFresh := None;
     tabId := None |}.

(** A page summarization through Portkey. *)
Definition portkeyRequest : ChatRequest :=
  {| messages := [ {| role := user; content := lit "Summarize: hello" |} ];
     provider := portkey;
     modelIdentifier := None;
     apiKey := lit "pk-test";
     apiUrl := None;
     virtualKey := None;
     language := Some english;
     customPrompts := None;
     url := Some (lit "https://example.com");
     forceFresh := None;
     tabId := None |}.

(** What [getAllTabsInfo] lists of a browser tab: nothing for a tab
    without an id or with the id 0 or -1; otherwise the tab's id, its URL
    (or ['']) and its title (or ["Untitled"] when the browser has none or
    an empty one). *)
Definition listedTab (tab : RawTab) : option TabInfo :=
  match raw_id tab with
  | Some i =>
      if bool_decide (i = 0 ∨ i = -1) then None
      else Some {| tab_id := i;
                   tab_url := match raw_url tab with Some u => u | None => [] end;
                   tab_title := match raw_title tab with
                                | Some (c :: t) => c :: t
                                | _ => lit "Untitled"
                                end |}
  | None => None
  end.

(** The detached popup window, as [openDetachedWindow] looks for it. *)
Definition isDetachedPopup (w : BrowserWindow) : Prop :=
  isPopup w = true ∧ showsPopupHtml w = true.

(** [w] is the first detached popup among the windows [ws]. *)
Definition firstDetachedPopup (ws : list BrowserWindow) (w : BrowserWindow) : Prop :=
  ∃ before after,
    ws = before ++ w :: after
    ∧ Forall (fun v => ¬ isDetachedPopup v) before
    ∧ isDetachedPopup w.

(** The actions whose handler takes [request.data] apart before anything
    else. *)
Definition needsData (a : jsstring) : Prop :=
  a = lit "startSummarize" ∨ a = lit "summarizeText".

(** The first character of the placeholder. *)
Definition BRACE : N := 123%N.

(** Custom templates for English: the placeholder occurs twice. *)
Definition twicePrompts : CustomPrompts :=
  {| custom_chinese := None;
     custom_english :=
       Some {| systemPrompt := lit "Be brief.";
               userPrompt := lit "Summarize " ++ TEXT_PLACEHOLDER ++ lit " (again: {text})";
               temperature := (1 # 2)%Q;
               maxTokens := 500 |} |}.

(** A world with three tabs (one of them without an id) and a detached
    popup window. *)
Definition browserEnv : Env :=
  {| SummaryCache_get := fun _ _ _ => None;
     SummaryCache_getStats := fun _ => {| count := 0; size := 0 |};
     storage_local_get := fun _ => Returned None;
     fetch := fun _ _ => Returned serverError;
     portkey_create := sdkAnswers;
     Date_now := fun _ => 1700000000000;
     Math_random_base36 := fun _ => lit "0.abcdefghijk";
     runtime_getURL := lit "chrome-extension://abcdefgh/";
     tabs_query := fun _ =>
       Returned [ {| raw_id := Some 11; raw_url := Some (lit "https://a.example");
                     raw_title := Some (lit "A") |};
                  {| raw_id := None; raw_url := None; raw_title := None |};
                  {| raw_id := Some 12; raw_url := Some (lit "https://b.example");
                     raw_title := None |} ];
     scripting_executeScript := fun _ _ => Returned None;
     windows_getAll := fun _ =>
       Returned [ {| isPopup := false; showsPopupHtml := false; window_id := Some 1 |};
                  {| isPopup := true; showsPopupHtml := true; window_id := Some 5 |} ];
     windows_update := fun _ _ => Returned tt;
     windows_create := fun _ => Returned tt |}.

(** Forty user messages of 4000 characters each. *)
Definition longConversation : list ChatMessage :=
  replicate 40 {| role := user; content := replicate 4000 97%N |}.

(** The condition under which [callLLMAPI] consults the cache: a URL,
    no forced refresh, one user message. *)
Definition cacheEligible (request : ChatRequest) : bool :=
  truthy (default [] (url request))
  && negb (default false (forceFresh request))
  && isTextSummarization (messages request).

(** * Properties *)

(** ** Chunking *)

Section ChunkerFacts.

Lemma totalLength_from (acc : Z) (msgs : list ChatMessage) :
    foldl (fun sum msg => sum + contentLength msg) acc msgs = acc + totalLength msgs.
  Proof.
    unfold totalLength. revert acc.
    induction msgs as [|m msgs IH]; intros acc; simpl; [lia|].
    rewrite IH, (IH (0 + contentLength m)). lia.
  Qed.

Lemma totalLength_cons (m : ChatMessage) (msgs : list ChatMessage) :
    totalLength (m :: msgs) = contentLength m + totalLength msgs.
  Proof. unfold totalLength at 1. simpl. rewrite totalLength_from. lia. Qed.

Lemma totalLength_app (l1 l2 : list ChatMessage) :
    totalLength (l1 ++ l2) = totalLength l1 + totalLength l2.
  Proof.
    induction l1 as [|m l1 IH]; simpl.
    - unfold totalLength at 2. simpl. lia.
    - rewrite !totalLength_cons, IH. lia.
  Qed.

Lemma totalLength_nil : totalLength [] = 0.
  Proof. reflexivity. Qed.

Lemma contentLength_nonneg (m : ChatMessage) : 0 <= contentLength m.
  Proof. unfold contentLength. lia. Qed.

Lemma totalLength_nonneg (msgs : list ChatMessage) : 0 <= totalLength msgs.
  Proof.
    induction msgs as [|m msgs IH]; [rewrite totalLength_nil; lia|].
    rewrite totalLength_cons. pose proof (contentLength_nonneg m). lia.
  Qed.

Lemma wellSized_singleton (m : ChatMessage) : wellSized [m].
  Proof.
    split; [done|].
    destruct (decide (contentLength m > maxChunkSize)) as [Hbig|Hsmall].
    - right. eauto.
    - left. rewrite totalLength_cons, totalLength_nil. lia.
  Qed.

Lemma wellSized_tokens (chunk : list ChatMessage) : wellSized chunk → wellSizedInTokens chunk.
Proof.
  intros [Hne Hsize]. split; [done|].
  destruct Hsize as [Hle|(m & -> & Hbig)].
  - left. unfold estimatedTokens, ceil4, maxChunkSize in *.
    pose proof (totalLength_nonneg chunk).
    apply Z.div_le_upper_bound; lia.
  - destruct (decide (estimatedTokens [m] <= maxChunkSize)); [by left|].
    right. exists m. split; [done | lia].
Qed.

Lemma chunkLoop_concat (msgs : list ChatMessage) chunks cur sz :
    concat (chunkLoop msgs chunks cur sz) = concat chunks ++ cur ++ msgs.
  Proof.
    revert chunks cur sz.
    induction msgs as [|m msgs IH]; intros chunks cur sz; simpl.
    - case_bool_decide as Hlen.
      + rewrite concat_app. simpl. by rewrite !app_nil_r.
      + destruct cur; [by rewrite !app_nil_r | simpl in Hlen; lia].
    - destruct (bool_decide (sz + contentLength m > maxChunkSize)
                && bool_decide (0 < length cur)%nat).
      + rewrite IH, concat_app. simpl. by rewrite app_nil_r, <- !app_assoc.
      + rewrite IH. by rewrite <- !app_assoc.
  Qed.

Lemma chunkLoop_wellSized (msgs : list ChatMessage) chunks cur sz :
    Forall wellSized chunks →
    sz = totalLength cur →
    (cur = [] ∨ wellSized cur) →
    Forall wellSized (chunkLoop msgs chunks cur sz).
  Proof.
    revert chunks cur sz.
    induction msgs as [|m msgs IH]; intros chunks cur sz Hchunks Hsz Hcur; simpl.
    - case_bool_decide as Hlen; [|done].
      apply Forall_app. split; [done|].
      apply Forall_singleton.
      destruct Hcur as [->|?]; [simpl in Hlen; lia | done].
    - destruct (bool_decide (sz + contentLength m > maxChunkSize)) eqn:Hover;
        destruct (bool_decide (0 < length cur)%nat) eqn:Hlen; simpl.
      + apply bool_decide_eq_true in Hlen.
        apply IH.
        * apply Forall_app. split; [done|]. apply Forall_singleton.
          destruct Hcur as [->|?]; [simpl in Hlen; lia | done].
        * by rewrite totalLength_cons, totalLength_nil, Z.add_0_r.
        * right. apply wellSized_singleton.
      + apply bool_decide_eq_false in Hlen.
        assert (cur = []) as -> by (destruct cur; [done | simpl in Hlen; lia]).
        apply IH; [done | |].
        * subst sz. rewrite totalLength_nil. simpl.
          by rewrite totalLength_cons, totalLength_nil, Z.add_0_r.
        * right. apply wellSized_singleton.
      + apply bool_decide_eq_false in Hover.
        apply IH; [done | |].
        * subst sz. rewrite totalLength_app, totalLength_cons, totalLength_nil. lia.
        * right. split; [by destruct cur|].
          left. subst sz.
          rewrite totalLength_app, totalLength_cons, totalLength_nil. lia.
      + apply bool_decide_eq_false in Hlen.
        assert (cur = []) as -> by (destruct cur; [done | simpl in Hlen; lia]).
        apply IH; [done | |].
        * subst sz. rewrite totalLength_nil. simpl.
          by rewrite totalLength_cons, totalLength_nil, Z.add_0_r.
        * right. apply wellSized_singleton.
  Qed.

Lemma chunkLargeContext_concat (msgs : list ChatMessage) :
    concat (chunkLargeContext msgs) = msgs.
  Proof. unfold chunkLargeContext. by rewrite chunkLoop_concat. Qed.

Lemma chunkLargeContext_wellSized (msgs : list ChatMessage) :
    Forall wellSized (chunkLargeContext msgs).
  Proof. unfold chunkLargeContext. apply chunkLoop_wellSized; auto. Qed.

Lemma chunkLargeContext_nonempty (msgs : list ChatMessage) :
    msgs ≠ [] → chunkLargeContext msgs ≠ [].
  Proof.
    intros Hne Hnil. pose proof (chunkLargeContext_concat msgs) as Hc.
    rewrite Hnil in Hc. simpl in Hc. congruence.
  Qed.

End ChunkerFacts.

(** ** Large-context truncation *)

Section TruncationFacts.

Lemma sumTokens_app (l1 l2 : list ChatMessage) :
    sumTokens (l1 ++ l2) = sumTokens l1 + sumTokens l2.
  Proof. induction l1 as [|m l1 IH]; simpl; [lia|]. unfold sumTokens in *. simpl. lia. Qed.

Lemma sumTokens_reverse (l : list ChatMessage) : sumTokens (reverse l) = sumTokens l.
  Proof.
    induction l as [|m l IH]; [done|].
    rewrite reverse_cons, sumTokens_app, IH. unfold sumTokens. simpl. lia.
  Qed.

Lemma keepLoop_shape (maxTok : Z) (remaining : list ChatMessage) (total : Z)
      (acc : list ChatMessage) :
    ∃ kept rest cut,
      remaining = kept ++ rest ∧
      keepLoop maxTok remaining total acc = cut ++ reverse kept ++ acc ∧
      (kept ≠ [] → total + sumTokens kept <= availableTokensOf maxTok) ∧
      ((cut = [] ∧ rest = []) ∨
       ∃ m rest',
         rest = m :: rest' ∧
         cut = [truncated m ((availableTokensOf maxTok - (total + sumTokens kept)) * 4)] ∧
         total + sumTokens kept + estimateTokens (content m) > availableTokensOf maxTok).
  Proof.
    revert total acc.
    induction remaining as [|m remaining IH]; intros total acc.
    - exists [], [], []. simpl. split_and!; auto. done.
    - simpl. case_bool_decide as Hfits.
      + destruct (IH (total + estimateTokens (content m)) (m :: acc))
          as (kept & rest & cut & -> & Hres & Hbound & Hcut).
        exists (m :: kept), rest, cut.
        assert (sumTokens (m :: kept) = estimateTokens (content m) + sumTokens kept) as Hsum
          by reflexivity.
        split_and!.
        * done.
        * rewrite Hres, reverse_cons, <- !app_assoc. done.
        * intros _. destruct kept as [|k kept]; [simpl; unfold sumTokens; simpl; lia|].
          rewrite Hsum. specialize (Hbound ltac:(done)). lia.
        * destruct Hcut as [?|(m' & rest' & -> & -> & Hover)]; [by left|].
          right. exists m', rest'. rewrite Hsum. split_and!; [done | | lia].
          do 2 f_equal. lia.
      + case_bool_decide as Hlong.
        * exists [], (m :: remaining),
            [truncated m ((availableTokensOf maxTok - total) * 4)].
          simpl. split_and!; [done | done | done |].
          right. exists m, remaining. unfold sumTokens; simpl.
          split_and!; [done | | lia].
          do 2 f_equal. lia.
        * lia.
  Qed.

(** The exact result: the truncated message (if any), the recent
    messages kept whole, then the leading system message. *)
Lemma processLargeContext_shape (msgs : list ChatMessage) (maxTok : Z) :
    ∃ older newer cut,
      drop 1 msgs = older ++ newer ∧
      processLargeContext msgs maxTok = cut ++ newer ++ leadingSystem msgs ∧
      (newer ≠ [] →
       sumTokens (leadingSystem msgs) + sumTokens newer <= availableTokensOf maxTok) ∧
      ((cut = [] ∧ older = []) ∨
       ∃ older' m,
         older = older' ++ [m] ∧
         cut = [truncated m ((availableTokensOf maxTok
                              - (sumTokens (leadingSystem msgs) + sumTokens newer)) * 4)] ∧
         sumTokens (leadingSystem msgs) + sumTokens newer + estimateTokens (content m)
         > availableTokensOf maxTok).
  Proof.
    unfold processLargeContext.
    set (start := match msgs with
                  | m0 :: _ => if bool_decide (role m0 = system)
                               then ([m0], estimateTokens (content m0)) else ([], 0)
                  | [] => ([], 0)
                  end).
    assert (start = (leadingSystem msgs, sumTokens (leadingSystem msgs))) as ->.
    { subst start. destruct msgs as [|m0 ?]; [done|]. simpl.
      case_bool_decide; [|done]. unfold sumTokens. simpl. f_equal. lia. }
    destruct (keepLoop_shape maxTok (reverse (drop 1 msgs))
                (sumTokens (leadingSystem msgs)) (leadingSystem msgs))
      as (kept & rest & cut & Hsplit & Hres & Hbound & Hcut).
    exists (reverse rest), (reverse kept), cut.
    assert (drop 1 msgs = reverse rest ++ reverse kept) as Hdrop.
    { rewrite <- reverse_app, <- Hsplit. by rewrite reverse_involutive. }
    split_and!.
    - done.
    - done.
    - intros Hne. rewrite sumTokens_reverse. apply Hbound.
      intros ->. by apply Hne.
    - rewrite sumTokens_reverse.
      destruct Hcut as [[-> ->]|(m & rest' & -> & -> & Hover)]; [by left|].
      right. exists (reverse rest'), m. by rewrite reverse_cons.
  Qed.

End TruncationFacts.



(** ** Frames: what a piece of service code can touch *)

Section Frames.

Lemma frame_ret P {A} (a : A) : frame P (ret a).
Proof. intros s. split; [done|]. exists []. by rewrite app_nil_r. Qed.

Lemma frame_throw P {A} (e : JsThrown) : frame P (@throw A e).
Proof. intros s. split; [done|]. exists []. by rewrite app_nil_r. Qed.

Lemma frame_lift P {A} (o : Outcome A) : frame P (lift o).
Proof. intros s. split; [done|]. exists []. by rewrite app_nil_r. Qed.

Lemma frame_bind P {A B} (m : M A) (k : A → M B) :
  frame P m → (∀ a, frame P (k a)) → frame P (bind m k).
Proof.
  intros Hm Hk s. unfold bind.
  destruct (Hm s) as (Hp & evs & Ht & HP).
  destruct (m s) as [[a|e] s']; simpl in *.
  - destruct (Hk a s') as (Hp' & evs' & Ht' & HP').
    split; [congruence|].
    exists (evs ++ evs'). rewrite Ht', Ht, app_assoc. split; [done|].
    by apply Forall_app.
  - eauto.
Qed.

Lemma frame_try P {A} (m : M A) (h : JsThrown → M A) :
  frame P m → (∀ e, frame P (h e)) → frame P (try_catch m h).
Proof.
  intros Hm Hh s. unfold try_catch.
  destruct (Hm s) as (Hp & evs & Ht & HP).
  destruct (m s) as [[a|e] s']; simpl in *.
  - eauto.
  - destruct (Hh e s') as (Hp' & evs' & Ht' & HP').
    split; [congruence|].
    exists (evs ++ evs'). rewrite Ht', Ht, app_assoc. split; [done|].
    by apply Forall_app.
Qed.

Lemma frame_emit (P : Event → Prop) (e : Event) : P e → frame P (emit e).
Proof. intros He s. split; [done|]. exists [e]. split; [done|]. by apply Forall_singleton. Qed.

Lemma frame_ask (P : Event → Prop) {A} (answer : list Event → Outcome A) (e : Event) :
  P e → frame P (ask answer e).
Proof. intros He s. split; [done|]. exists [e]. split; [done|]. by apply Forall_singleton. Qed.

Lemma frame_getConfigs P : frame P getConfigs.
Proof. intros s. split; [done|]. exists []. by rewrite app_nil_r. Qed.

Lemma frame_setConfig P p c : frame P (setConfig p c).
Proof. intros s. split; [done|]. exists []. by rewrite app_nil_r. Qed.

Lemma frame_getPending P : frame P getPending.
Proof. intros s. split; [done|]. exists []. by rewrite app_nil_r. Qed.

Lemma frame_getContexts P : frame P getContexts.
Proof. intros s. split; [done|]. exists []. by rewrite app_nil_r. Qed.

Lemma frame_updContexts P f : frame P (updContexts f).
Proof. intros s. split; [done|]. exists []. by rewrite app_nil_r. Qed.

Lemma frame_weaken (P Q : Event → Prop) {A} (m : M A) :
  (∀ e, P e → Q e) → frame P m → frame Q m.
Proof.
  intros HPQ Hm s. destruct (Hm s) as (Hp & evs & Ht & HP).
  split; [done|]. exists evs. split; [done|].
  eapply Forall_impl; eauto.
Qed.

Lemma frame_observed (P : Event → Prop) p call (m : M LLMResponse) :
  (∀ o, P (EvProviderCall p call o)) → frame P m → frame P (observed p call m).
Proof.
  intros He Hm s. unfold observed.
  destruct (Hm s) as (Hp & evs & Ht & HP).
  destruct (m s) as [o s']; simpl in *.
  split; [done|]. exists (evs ++ [EvProviderCall p call o]).
  rewrite Ht, app_assoc. split; [done|].
  apply Forall_app. split; [done|]. by apply Forall_singleton.
Qed.

End Frames.

(** Decompose a frame goal along the structure of the code. *)
Ltac frame_step :=
  match goal with
  | |- frame _ (ret _) => apply frame_ret
  | |- frame _ (throw _) => apply frame_throw
  | |- frame _ (lift _) => apply frame_lift
  | |- frame _ (bind _ _) => apply frame_bind; [|intros ?]
  | |- frame _ (try_catch _ _) => apply frame_try; [|intros ?]
  | |- frame _ (emit _) => apply frame_emit; simpl; tauto
  | |- frame _ (ask _ _) => apply frame_ask; simpl; tauto
  | |- frame _ getConfigs => apply frame_getConfigs
  | |- frame _ (setConfig _ _) => apply frame_setConfig
  | |- frame _ getPending => apply frame_getPending
  | |- frame _ getContexts => apply frame_getContexts
  | |- frame _ (updContexts _) => apply frame_updContexts
  | |- frame _ (observed _ _ _) => apply frame_observed; [intros ?; simpl; tauto|]
  | |- frame _ (match ?x with _ => _ end) => destruct x
  | |- frame _ (let '(_, _) := ?x in _) => destruct x
  end.

Ltac frame_tac := repeat frame_step.

Section AdapterFrames.
Variable env : Env.

Lemma frame_validateConfig P p : frame P (validateConfig p).
Proof. unfold validateConfig. frame_tac. Qed.

Lemma frame_readConfig P p : frame P (readConfig p).
Proof. unfold readConfig. frame_tac. Qed.

Lemma frame_networkCatch P {A} msg e : frame P (@networkCatch A msg e).
Proof. unfold networkCatch. frame_tac. Qed.

Lemma frame_initialize p c : frame providerSide (initialize p c).
Proof. unfold initialize. frame_tac. Qed.

Lemma frame_claude i l c : frame netEvent (ClaudeAPI.callAPI env i l c).
Proof.
  unfold ClaudeAPI.callAPI, doFetch.
  frame_tac; auto using frame_validateConfig, frame_readConfig, frame_networkCatch.
Qed.

Lemma frame_openai i l c : frame netEvent (OpenAIAPI.callAPI env i l c).
Proof.
  unfold OpenAIAPI.callAPI, doFetch.
  frame_tac; auto using frame_validateConfig, frame_readConfig, frame_networkCatch.
Qed.

Lemma frame_openrouter i l c : frame netEvent (OpenRouterAPI.callAPI env i l c).
Proof.
  unfold OpenRouterAPI.callAPI, doFetch.
  frame_tac; auto using frame_validateConfig, frame_readConfig, frame_networkCatch.
Qed.

Lemma frame_portkey_direct m l c : frame netEvent (PortkeyAPI.callDirectChatAPI env m l c).
Proof.
  unfold PortkeyAPI.callDirectChatAPI, doFetch.
  frame_tac; auto using frame_validateConfig, frame_readConfig, frame_networkCatch.
Qed.

Lemma frame_portkey i l c : frame netEvent (PortkeyAPI.callAPI env i l c).
Proof.
  unfold PortkeyAPI.callAPI.
  frame_tac;
    auto using frame_validateConfig, frame_readConfig, frame_networkCatch, frame_portkey_direct.
Qed.

Lemma frame_portkey_large m l c : frame netEvent (PortkeyAPI.callLargeContextAPI env m l c).
Proof. unfold PortkeyAPI.callLargeContextAPI. apply frame_portkey. Qed.

End AdapterFrames.

(** ** The chunked operation, seen from the provider *)

Section CallFacts.
Variable env : Env.

Lemma providerCalls_app (t1 t2 : list Event) :
  providerCalls (t1 ++ t2) = providerCalls t1 ++ providerCalls t2.
Proof. unfold providerCalls. apply omap_app. Qed.

Lemma providerCalls_net (evs : list Event) :
  Forall netEvent evs → providerCalls evs = [].
Proof.
  induction 1 as [|e evs He _ IH]; [done|].
  unfold providerCalls in *. by destruct e.
Qed.

Lemma newCalls_app (s s' : ServiceState) (cs : list Call) :
  providerCalls (trace s') = providerCalls (trace s) ++ cs → newCalls s s' = cs.
Proof. intros H. unfold newCalls. rewrite H. by rewrite drop_app_length. Qed.

(** An observed adapter call adds exactly one call, carrying its outcome. *)
Lemma observed_calls p call (m : M LLMResponse) (s : ServiceState) :
  frame netEvent m →
  providerCalls (trace (snd (observed p call m s)))
  = providerCalls (trace s) ++ [(p, call, fst (observed p call m s))].
Proof.
  intros Hm. unfold observed.
  destruct (Hm s) as (_ & evs & Ht & Hnet).
  destruct (m s) as [o s']; simpl in *.
  rewrite Ht, !providerCalls_app, (providerCalls_net _ Hnet), app_nil_r. done.
Qed.

Lemma portkey_callAPI_calls i l c s :
  providerCalls (trace (snd (callAPI (apiProviders env portkey) i l c s)))
  = providerCalls (trace s)
    ++ [(portkey, CallAPI i, fst (callAPI (apiProviders env portkey) i l c s))].
Proof. simpl. apply observed_calls, frame_portkey. Qed.

End CallFacts.

Section ChunkedFacts.
Variable env : Env.

Lemma refreshSummary_step l custom i ctx summ s :
  ∃ syn summ' s',
    BackgroundService.refreshSummary env l custom i ctx summ s = (Returned summ', s')
    ∧ providerCalls (trace s') = providerCalls (trace s) ++ syn
    ∧ SynopsisStep i ctx summ syn summ'.
Proof.
  unfold BackgroundService.refreshSummary.
  destruct (bool_decide (0 < i)%nat) eqn:Hi; simpl;
    [destruct (bool_decide (0 < length ctx)%nat) eqn:Hctx; simpl|].
  - apply bool_decide_eq_true in Hi. apply bool_decide_eq_true in Hctx.
    pose proof (portkey_callAPI_calls env (Text ctx) l custom s) as Hcalls.
    unfold try_catch, bind. simpl in Hcalls |- *.
    destruct (observed portkey (CallAPI (Text ctx)) (PortkeyAPI.callAPI env (Text ctx) l custom) s)
      as [[q|e] s'] eqn:Hrun; simpl in Hcalls.
    + eexists _, _, _. split_and!; [done | exact Hcalls |].
      apply (syn_asked i ctx summ (Returned q)); [done|]. intros ->. simpl in Hctx. lia.
    + eexists _, _, _. split_and!; [done | exact Hcalls |].
      apply (syn_asked i ctx summ (Thrown e)); [done|]. intros ->. simpl in Hctx. lia.
  - apply bool_decide_eq_false in Hctx.
    exists [], summ, s. rewrite app_nil_r. split_and!; [done | done |].
    constructor. right. destruct ctx; [done | simpl in Hctx; lia].
  - apply bool_decide_eq_false in Hi.
    exists [], summ, s. rewrite app_nil_r. split_and!; [done | done |].
    constructor. left. lia.
Qed.

Lemma processChunk_step l custom chunk ctx summ s :
  ∃ o s',
    BackgroundService.processChunk env l custom chunk ctx summ s = (o, s')
    ∧ providerCalls (trace s')
      = providerCalls (trace s)
        ++ [(portkey, CallLargeContextAPI (integrateSummaryWithChunk chunk summ l),
             match o with Returned d => Returned (fst d) | Thrown e => Thrown e end)]
    ∧ match o with
      | Returned d => snd d = ctx ++ (nl ++ nl) ++ BackgroundService.renderChunk chunk
      | Thrown _ => True
      end.
Proof.
  unfold BackgroundService.processChunk. simpl.
  pose proof (observed_calls portkey
                (CallLargeContextAPI (integrateSummaryWithChunk chunk summ l))
                (PortkeyAPI.callLargeContextAPI env (integrateSummaryWithChunk chunk summ l)
                   l custom) s (frame_portkey_large env _ _ _)) as Hcalls.
  unfold try_catch, bind.
  destruct (observed portkey _ _ s) as [[r|e] s'] eqn:Hrun; simpl in Hcalls |- *.
  - eexists _, _. split_and!; [done | exact Hcalls | done].
  - eexists _, _. split_and!; [done | exact Hcalls | done].
Qed.

(** The loop of the source makes the calls of a [ChunkedRun]. *)
Lemma chunkedLoop_run n l custom chunks :
  ∀ i ctx summ s,
    n = (i + length chunks)%nat →
    ∃ cs,
      providerCalls
        (trace (snd (BackgroundService.chunkedLoop env n l custom chunks i ctx summ s)))
      = providerCalls (trace s) ++ cs
      ∧ ChunkedRun l i ctx summ chunks cs
          (fst (BackgroundService.chunkedLoop env n l custom chunks i ctx summ s)).
Proof.
  induction chunks as [|chunk rest IH]; intros i ctx summ s Hn.
  - exists []. simpl. rewrite app_nil_r. split; [done | constructor].
  - cbn [BackgroundService.chunkedLoop]. unfold bind.
    destruct (refreshSummary_step l custom i ctx summ s)
      as (syn & summ' & s1 & Hr & Hsyn & Hstep).
    rewrite Hr.
    destruct (processChunk_step l custom chunk ctx summ' s1)
      as (o & s2 & Hc & Hchunk & Hctx).
    rewrite Hc.
    destruct o as [[r ctx']|e]; cbn [fst snd] in Hchunk, Hctx.
    + subst ctx'. cbn [fst snd].
      case_bool_decide as Hlast.
      * assert (rest = []) as -> by (destruct rest; [done | simpl in Hn; lia]).
        eexists. split.
        -- simpl. rewrite Hchunk, Hsyn, <- app_assoc. done.
        -- simpl. by apply run_last.
      * assert (rest ≠ []) as Hrest by (intros ->; simpl in Hn; lia).
        destruct (IH (S i) (ctx ++ (nl ++ nl) ++ BackgroundService.renderChunk chunk)
                    summ' s2 ltac:(simpl in Hn; lia)) as (cs & Hcs & Hrun).
        eexists. split.
        -- rewrite Hcs, Hchunk, Hsyn, <- !app_assoc. simpl. done.
        -- by apply run_next.
    + eexists. split.
      * simpl. rewrite Hchunk, Hsyn, <- app_assoc. done.
      * simpl. by apply run_abort.
Qed.

End ChunkedFacts.

Section RunFacts.

Lemma countCalls_app f cs1 cs2 :
  countCalls f (cs1 ++ cs2) = (countCalls f cs1 + countCalls f cs2)%nat.
Proof. unfold countCalls. by rewrite List.filter_app, length_app. Qed.

Lemma countCalls_none f cs : Forall (fun c => f c = false) cs → countCalls f cs = 0%nat.
Proof.
  induction 1 as [|c cs Hc _ IH]; [done|].
  unfold countCalls in *. simpl. by rewrite Hc.
Qed.

Lemma SynopsisStep_first ctx summ syn summ' :
  SynopsisStep 0 ctx summ syn summ' → syn = [] ∧ summ' = summ.
Proof. inversion 1; [done | lia]. Qed.

Lemma SynopsisStep_later i ctx summ syn summ' :
  (0 < i)%nat → ctx ≠ [] →
  SynopsisStep i ctx summ syn summ' →
  ∃ o, syn = [(portkey, CallAPI (Text ctx), o)] ∧ summ' = carry summ o.
Proof.
  intros Hi Hctx Hstep. inversion Hstep as [[?|?]|o]; subst; [lia | done | eauto].
Qed.

Lemma SynopsisStep_not_chunk i ctx summ syn summ' :
  SynopsisStep i ctx summ syn summ' →
  Forall (fun c => isChunkCall c = false) syn.
Proof. inversion 1; [constructor | by apply Forall_singleton]. Qed.

Lemma context_grows (ctx : jsstring) chunk :
  ctx ++ (nl ++ nl) ++ BackgroundService.renderChunk chunk ≠ [].
Proof. intros H. apply app_eq_nil in H as [_ H]. done. Qed.

(** Past the first chunk, a run in which no chunk call fails asks for a
    synopsis before every chunk and ends with the last response. *)
Lemma ChunkedRun_later l i ctx summ chunks cs o :
  ChunkedRun l i ctx summ chunks cs o →
  (0 < i)%nat → ctx ≠ [] → chunks ≠ [] →
  Forall (fun c => failedChunkCall c = false) cs →
  ∃ synopses responses r,
    length synopses = length chunks
    ∧ length responses = length chunks
    ∧ cs = laterCalls l ctx summ chunks synopses responses
    ∧ o = Returned r
    ∧ last responses = Some r.
Proof.
  induction 1 as [i ctx summ
                 |i ctx summ chunk rest syn summ' e Hsyn
                 |i ctx summ chunk syn summ' r Hsyn
                 |i ctx summ chunk rest syn summ' r cs o Hrest Hsyn Hrun IH];
    intros Hi Hctx Hne Hok.
  - done.
  - apply Forall_app in Hok as [_ Hok]. rewrite Forall_singleton in Hok. done.
  - destruct (SynopsisStep_later _ _ _ _ _ Hi Hctx Hsyn) as (q & -> & ->).
    exists [q], [r], r. done.
  - destruct (SynopsisStep_later _ _ _ _ _ Hi Hctx Hsyn) as (q & -> & ->).
    apply Forall_app in Hok as [_ Hok]. apply Forall_cons_1 in Hok as [_ Hok].
    destruct (IH ltac:(lia) (context_grows _ _) Hrest Hok)
      as (synopses & responses & r' & Hls & Hlr & -> & -> & Hlast).
    exists (q :: synopses), (r :: responses), r'.
    split_and!; [simpl; lia | simpl; lia | done | done |].
    destruct responses; [by destruct rest | done].
Qed.

(** From the start, a run in which no chunk call fails. *)
Lemma ChunkedRun_success l chunks cs o :
  ChunkedRun l 0 [] [] chunks cs o →
  chunks ≠ [] →
  Forall (fun c => failedChunkCall c = false) cs →
  ∃ synopses responses r,
    length synopses = (length chunks - 1)%nat
    ∧ length responses = length chunks
    ∧ cs = expectedCalls l chunks synopses responses
    ∧ o = Returned r
    ∧ last responses = Some r.
Proof.
  intros Hrun Hne Hok.
  inversion Hrun as [|? ? ? chunk rest syn summ' e Hsyn
                     |? ? ? chunk syn summ' r Hsyn
                     |? ? ? chunk rest syn summ' r cs' o' Hrest Hsyn Hrun']; subst.
  - done.
  - apply Forall_app in Hok as [_ Hok]. rewrite Forall_singleton in Hok. done.
  - apply SynopsisStep_first in Hsyn as [-> ->].
    exists [], [r], r. done.
  - apply SynopsisStep_first in Hsyn as [-> ->].
    apply Forall_cons_1 in Hok as [_ Hok].
    destruct (ChunkedRun_later _ _ _ _ _ _ _ Hrun' ltac:(lia) (context_grows _ _) Hrest Hok)
      as (synopses & responses & r' & Hls & Hlr & -> & -> & Hlast).
    exists synopses, (r :: responses), r'.
    split_and!; [simpl; lia | simpl; lia | done | done |].
    destruct responses; [by destruct rest | done].
Qed.

(** The calls of [expectedCalls]: one per chunk, and one synopsis request
    per chunk after the first. *)
Lemma laterCalls_counts l ctx summ chunks synopses responses :
  length synopses = length chunks → length responses = length chunks →
  countCalls isChunkCall (laterCalls l ctx summ chunks synopses responses) = length chunks
  ∧ countCalls isSynopsisCall (laterCalls l ctx summ chunks synopses responses) = length chunks
  ∧ length (laterCalls l ctx summ chunks synopses responses) = (2 * length chunks)%nat.
Proof.
  revert ctx summ synopses responses.
  induction chunks as [|chunk chunks IH]; intros ctx summ synopses responses Hs Hr.
  - done.
  - destruct synopses as [|o synopses]; [done|]. destruct responses as [|r responses]; [done|].
    simpl in Hs, Hr.
    destruct (IH (ctx ++ (nl ++ nl) ++ BackgroundService.renderChunk chunk) (carry summ o)
                synopses responses ltac:(lia) ltac:(lia)) as (H1 & H2 & H3).
    cbn [laterCalls]. unfold countCalls in *. cbn [List.filter isChunkCall isSynopsisCall length].
    rewrite H1, H2, H3. simpl. split_and!; lia.
Qed.

Lemma expectedCalls_counts l chunks synopses responses :
  chunks ≠ [] →
  length synopses = (length chunks - 1)%nat → length responses = length chunks →
  countCalls isChunkCall (expectedCalls l chunks synopses responses) = length chunks
  ∧ countCalls isSynopsisCall (expectedCalls l chunks synopses responses)
    = (length chunks - 1)%nat
  ∧ length (expectedCalls l chunks synopses responses) = (2 * length chunks - 1)%nat.
Proof.
  intros Hne Hs Hr.
  destruct chunks as [|chunk chunks]; [done|]. destruct responses as [|r responses]; [done|].
  simpl in Hs, Hr.
  destruct (laterCalls_counts l ((nl ++ nl) ++ BackgroundService.renderChunk chunk) []
              chunks synopses responses ltac:(lia) ltac:(lia)) as (H1 & H2 & H3).
  cbn [expectedCalls]. unfold countCalls in *. cbn [List.filter isChunkCall isSynopsisCall length].
  rewrite H1, H2, H3. simpl. split_and!; lia.
Qed.

(** What any run guarantees about failure: a failed chunk call is the
    last call and its error is the outcome; a returned response is the
    response to the last of as many chunk calls as there are chunks. *)
Lemma ChunkedRun_abort l i ctx summ chunks cs o :
  ChunkedRun l i ctx summ chunks cs o →
  (∀ c, c ∈ cs → failedChunkCall c = true →
        ∃ m e, c = (portkey, CallLargeContextAPI m, Thrown e)
               ∧ o = Thrown e ∧ last cs = Some c)
  ∧ (∀ r, o = Returned r →
          (∃ m, last cs = Some (portkey, CallLargeContextAPI m, Returned r))
          ∧ countCalls isChunkCall cs = length chunks
          ∧ Forall (fun c => failedChunkCall c = false) cs).
Proof.
  induction 1 as [i ctx summ
                 |i ctx summ chunk rest syn summ' e Hsyn
                 |i ctx summ chunk syn summ' r Hsyn
                 |i ctx summ chunk rest syn summ' r cs o Hrest Hsyn Hrun IH].
  - split; [intros c Hc; by apply elem_of_nil in Hc | done].
  - pose proof (SynopsisStep_not_chunk _ _ _ _ _ Hsyn) as Hnot.
    split; [|done].
    intros c Hc Hfailed. apply elem_of_app in Hc as [Hc|Hc].
    + rewrite Forall_forall in Hnot. specialize (Hnot c Hc).
      destruct c as [[? []] []]; done.
    + apply list_elem_of_singleton in Hc as ->.
      eexists _, _. split_and!; [done | done | by rewrite last_snoc].
  - pose proof (SynopsisStep_not_chunk _ _ _ _ _ Hsyn) as Hnot.
    split.
    + intros c Hc Hfailed. apply elem_of_app in Hc as [Hc|Hc].
      * rewrite Forall_forall in Hnot. specialize (Hnot c Hc).
        destruct c as [[? []] []]; done.
      * apply list_elem_of_singleton in Hc as ->. done.
    + intros r' [= <-]. split_and!.
      * eexists. by rewrite last_snoc.
      * by rewrite countCalls_app, (countCalls_none _ _ Hnot).
      * apply Forall_app. split; [|by apply Forall_singleton].
        eapply Forall_impl; [exact Hnot|]. intros [[? []] []]; done.
  - pose proof (SynopsisStep_not_chunk _ _ _ _ _ Hsyn) as Hnot.
    destruct IH as [IHfail IHok].
    split.
    + intros c Hc Hfailed. apply elem_of_app in Hc as [Hc|Hc].
      * rewrite Forall_forall in Hnot. specialize (Hnot c Hc).
        destruct c as [[? []] []]; done.
      * apply elem_of_cons in Hc as [->|Hc]; [done|].
        destruct (IHfail c Hc Hfailed) as (m & e & -> & -> & Hlast).
        eexists _, _. split_and!; [done | done |].
        rewrite last_app, last_cons, Hlast. done.
    + intros r' ->. destruct (IHok r' eq_refl) as ((m & Hlast) & Hcount & Hall).
      split_and!.
      * exists m. rewrite last_app, last_cons, Hlast. done.
      * rewrite countCalls_app, (countCalls_none _ _ Hnot).
        unfold countCalls in *. simpl. by rewrite Hcount.
      * apply Forall_app. split; [|by apply Forall_cons].
        eapply Forall_impl; [exact Hnot|]. intros [[? []] []]; done.
Qed.

(** A run over at least one chunk fails only through a chunk call, the
    last call made. *)
Lemma ChunkedRun_thrown l i ctx summ chunks cs o :
  ChunkedRun l i ctx summ chunks cs o →
  chunks ≠ [] →
  ∀ e, o = Thrown e → ∃ m, last cs = Some (portkey, CallLargeContextAPI m, Thrown e).
Proof.
  induction 1 as [i ctx summ
                 |i ctx summ chunk rest syn summ' e Hsyn
                 |i ctx summ chunk syn summ' r Hsyn
                 |i ctx summ chunk rest syn summ' r cs o Hrest Hsyn Hrun IH];
    intros Hne e' He.
  - done.
  - injection He as <-. eexists. by rewrite last_snoc.
  - done.
  - destruct (IH Hrest e' He) as [m Hlast]. exists m.
    rewrite last_app, last_cons, Hlast. done.
Qed.

(** The chunk as it goes out: the synopsis message, if any, then the
    chunk. *)
Lemma integrateSummaryWithChunk_header chunk summ l :
  integrateSummaryWithChunk chunk summ l
  = (if truthy summ then [summaryMessage summ l] else []) ++ chunk.
Proof. unfold integrateSummaryWithChunk. by destruct (truthy summ). Qed.

Lemma integrateSummaryWithChunk_withSynopsis chunk summ l :
  withSynopsis summ chunk (integrateSummaryWithChunk chunk summ l).
Proof.
  unfold withSynopsis, integrateSummaryWithChunk.
  destruct summ as [|c summ]; [done|]. cbn [truthy].
  exists (summaryMessage (c :: summ) l). destruct l; cbn [summaryMessage role content].
  - eexists _, _. split_and!; [done | done | reflexivity].
  - eexists _, _. split_and!; [done | done | reflexivity].
Qed.

Lemma SynopsisStep_cases i ctx summ syn summ' :
  SynopsisStep i ctx summ syn summ' →
  (syn = [] ∧ summ' = summ)
  ∨ ((0 < i)%nat ∧ ∃ o, syn = [(portkey, CallAPI (Text ctx), o)] ∧ summ' = carry summ o).
Proof. inversion 1; [by left | right; eauto]. Qed.

(** A synopsis request that failed is followed by the next chunk, sent
    with the synopsis message of the chunk before it. *)
Lemma ChunkedRun_failed_synopsis l i ctx summ chunks cs o :
  ChunkedRun l i ctx summ chunks cs o →
  ∀ k t e, cs !! k = Some (portkey, CallAPI (Text t), Thrown e) →
    (k = 0%nat ∧ (0 < i)%nat
     ∧ ∃ c rest o', chunks = c :: rest
                    ∧ cs !! 1%nat
                      = Some (portkey, CallLargeContextAPI (integrateSummaryWithChunk c summ l),
                              o'))
    ∨ (∃ k' j cj cj1 header r1 o2,
         k = S k' ∧ chunks !! j = Some cj ∧ chunks !! S j = Some cj1
         ∧ cs !! k' = Some (portkey, CallLargeContextAPI (header ++ cj), Returned r1)
         ∧ cs !! S k = Some (portkey, CallLargeContextAPI (header ++ cj1), o2)).
Proof.
  induction 1 as [i ctx summ
                 |i ctx summ chunk rest syn summ' e Hsyn
                 |i ctx summ chunk syn summ' r Hsyn
                 |i ctx summ chunk rest syn summ' r cs o Hrest Hsyn Hrun IH];
    intros k t e' Hk.
  - done.
  - destruct (SynopsisStep_cases _ _ _ _ _ Hsyn) as [[-> ->]|(Hi & q & -> & ->)].
    + destruct k as [|k]; simpl in Hk; [done|]. by destruct k.
    + destruct k as [|[|k]]; simpl in Hk; [|done|done].
      injection Hk as Ht Hq; subst t q. left. split_and!; [done | done |].
      by eexists chunk, rest, _.
  - destruct (SynopsisStep_cases _ _ _ _ _ Hsyn) as [[-> ->]|(Hi & q & -> & ->)].
    + destruct k as [|k]; simpl in Hk; [done|]. by destruct k.
    + destruct k as [|[|k]]; simpl in Hk; [|done|done].
      injection Hk as Ht Hq; subst t q. left. split_and!; [done | done |].
      by eexists chunk, [], _.
  - assert (∀ k0, cs !! k0 = Some (portkey, CallAPI (Text t), Thrown e') →
              ∀ n, (syn ++ (portkey, CallLargeContextAPI (integrateSummaryWithChunk chunk summ' l),
                             Returned r) :: cs) !! n
                   = Some (portkey, CallLargeContextAPI (integrateSummaryWithChunk chunk summ' l),
                           Returned r) →
              (∀ m, (syn ++ (portkey,
                             CallLargeContextAPI (integrateSummaryWithChunk chunk summ' l),
                             Returned r) :: cs) !! (S n + m)%nat = cs !! m) →
              ∃ k' j cj cj1 header r1 o2,
                (S n + k0)%nat = S k' ∧ (chunk :: rest) !! j = Some cj
                ∧ (chunk :: rest) !! S j = Some cj1
                ∧ (syn ++ (portkey,
                           CallLargeContextAPI (integrateSummaryWithChunk chunk summ' l),
                           Returned r) :: cs) !! k'
                  = Some (portkey, CallLargeContextAPI (header ++ cj), Returned r1)
                ∧ (syn ++ (portkey,
                           CallLargeContextAPI (integrateSummaryWithChunk chunk summ' l),
                           Returned r) :: cs) !! S (S n + k0)
                  = Some (portkey, CallLargeContextAPI (header ++ cj1), o2)) as Hrestcase.
    { intros k0 Hk0 n Hn Hshift.
      destruct (IH k0 t e' Hk0)
        as [(-> & _ & c & rest' & o' & -> & Hnext)
           |(k' & j & cj & cj1 & header & r1 & o2 & -> & Hj & Hj1 & Hprev & Hnext)].
      - exists n, 0%nat, chunk, c, (if truthy summ' then [summaryMessage summ' l] else []), r, o'.
        split_and!; [lia | done | done | |].
        + by rewrite <- integrateSummaryWithChunk_header.
        + replace (S (S n + 0))%nat with (S n + 1)%nat by lia.
          by rewrite Hshift, <- integrateSummaryWithChunk_header.
      - exists (S n + k')%nat, (S j), cj, cj1, header, r1, o2.
        split_and!; [lia | done | done | by rewrite Hshift |].
        replace (S (S n + S k'))%nat with (S n + S (S k'))%nat by lia.
        by rewrite Hshift. }
    destruct (SynopsisStep_cases _ _ _ _ _ Hsyn) as [[-> ->]|(Hi & q & -> & ->)].
    + destruct k as [|k]; simpl in Hk; [done|].
      right. apply (Hrestcase k Hk 0%nat); [done | by intros m].
    + destruct k as [|[|k]]; simpl in Hk; [|done|].
      * injection Hk as Ht Hq; subst t q. left. split_and!; [done | done |].
        by eexists chunk, rest, _.
      * right. apply (Hrestcase k Hk 1%nat); [done | by intros m].
Qed.

(** ** The payloads of the expected calls *)

Lemma join_holds (sep x : jsstring) (parts : list jsstring) :
  x ∈ parts → ∃ before after, BackgroundService.join sep parts = before ++ x ++ after.
Proof.
  induction parts as [|y parts IH]; intros Hin; [by apply elem_of_nil in Hin|].
  apply elem_of_cons in Hin as [->|Hin].
  - destruct parts as [|z parts].
    + exists [], []. by rewrite app_nil_r.
    + exists [], (sep ++ BackgroundService.join sep (z :: parts)). done.
  - destruct (IH Hin) as (before & after & Heq).
    destruct parts as [|z parts]; [by apply elem_of_nil in Hin|].
    exists (y ++ sep ++ before), after.
    cbn [BackgroundService.join] in Heq |- *. rewrite Heq. by rewrite <- !app_assoc.
Qed.

Lemma renderChunk_holds (chunk : list ChatMessage) (m : ChatMessage) :
  m ∈ chunk → ∃ before after, BackgroundService.renderChunk chunk = before ++ content m ++ after.
Proof.
  intros Hin. unfold BackgroundService.renderChunk.
  destruct (join_holds nl (BackgroundService.roleName (role m) ++ lit ": " ++ content m)
              ((fun msg => BackgroundService.roleName (role msg) ++ lit ": " ++ content msg)
                 <$> chunk)) as (before & after & ->).
  { apply list_elem_of_fmap. by exists m. }
  exists (before ++ BackgroundService.roleName (role m) ++ lit ": "), after.
  by rewrite <- !app_assoc.
Qed.

Lemma holdsAll_grows processed ctx chunk :
  holdsAll processed ctx →
  holdsAll (processed ++ [chunk]) (ctx ++ (nl ++ nl) ++ BackgroundService.renderChunk chunk).
Proof.
  intros Hctx c m Hc Hm. apply elem_of_app in Hc as [Hc|Hc].
  - destruct (Hctx c m Hc Hm) as (before & after & ->).
    exists before, (after ++ (nl ++ nl) ++ BackgroundService.renderChunk chunk).
    by rewrite <- !app_assoc.
  - apply list_elem_of_singleton in Hc as ->.
    destruct (renderChunk_holds chunk m Hm) as (before & after & ->).
    exists (ctx ++ (nl ++ nl) ++ before), after. by rewrite <- !app_assoc.
Qed.

(** Where the calls for the chunks after the first are, and what they
    carry. *)
Lemma laterCalls_payloads l chunks :
  ∀ ctx summ synopses responses processed,
    length synopses = length chunks → length responses = length chunks →
    holdsAll processed ctx →
    (∀ j chunk, chunks !! j = Some chunk →
       ∃ sent r',
         laterCalls l ctx summ chunks synopses responses !! (2 * j + 1)%nat
         = Some (portkey, CallLargeContextAPI sent, Returned r')
         ∧ responses !! j = Some r'
         ∧ withSynopsis (foldl carry summ (take (S j) synopses)) chunk sent)
    ∧ (∀ j o, synopses !! j = Some o →
         ∃ t, laterCalls l ctx summ chunks synopses responses !! (2 * j)%nat
              = Some (portkey, CallAPI (Text t), o)
              ∧ holdsAll (processed ++ take j chunks) t).
Proof.
  induction chunks as [|chunk chunks IH]; intros ctx summ synopses responses processed Hs Hr Hctx.
  - destruct synopses; [|done]. split; intros j ?; by rewrite lookup_nil.
  - destruct synopses as [|o synopses]; [done|]. destruct responses as [|r responses]; [done|].
    simpl in Hs, Hr.
    destruct (IH (ctx ++ (nl ++ nl) ++ BackgroundService.renderChunk chunk) (carry summ o)
                synopses responses (processed ++ [chunk]) ltac:(lia) ltac:(lia)
                (holdsAll_grows _ _ _ Hctx)) as [IHchunk IHsyn].
    cbn [laterCalls]. split.
    + intros [|j] c Hc.
      * injection Hc as <-. eexists _, r. split_and!; [done | done |].
        apply integrateSummaryWithChunk_withSynopsis.
      * replace (2 * S j + 1)%nat with (S (S (2 * j + 1))) by lia.
        destruct (IHchunk j c Hc) as (sent & r' & Hcall & Hresp & Hsent).
        by exists sent, r'.
    + intros [|j] q Hq.
      * injection Hq as <-. exists ctx. split; [done|]. by rewrite app_nil_r.
      * replace (2 * S j)%nat with (S (S (2 * j))) by lia.
        destruct (IHsyn j q Hq) as (t & Hcall & Ht).
        exists t. split; [done|]. by rewrite <- app_assoc in Ht.
Qed.

Lemma expectedCalls_payloads l chunks synopses responses :
  length synopses = (length chunks - 1)%nat → length responses = length chunks →
  (∀ j chunk, chunks !! j = Some chunk →
     ∃ sent r',
       expectedCalls l chunks synopses responses !! (2 * j)%nat
       = Some (portkey, CallLargeContextAPI sent, Returned r')
       ∧ responses !! j = Some r'
       ∧ withSynopsis (foldl carry [] (take j synopses)) chunk sent)
  ∧ (∀ j o, synopses !! j = Some o →
       ∃ t, expectedCalls l chunks synopses responses !! (2 * j + 1)%nat
            = Some (portkey, CallAPI (Text t), o)
            ∧ holdsAll (take (S j) chunks) t).
Proof.
  intros Hs Hr.
  destruct chunks as [|chunk chunks].
  { destruct synopses; [|done]. split; intros j ?; by rewrite lookup_nil. }
  destruct responses as [|r responses]; [done|]. simpl in Hs, Hr.
  assert (holdsAll [chunk] ((nl ++ nl) ++ BackgroundService.renderChunk chunk)) as Hctx.
  { apply (holdsAll_grows [] [] chunk). intros c m Hc. by apply elem_of_nil in Hc. }
  destruct (laterCalls_payloads l chunks ((nl ++ nl) ++ BackgroundService.renderChunk chunk) []
              synopses responses [chunk] ltac:(lia) ltac:(lia) Hctx) as [Hchunk Hsyn].
  cbn [expectedCalls]. split.
  - intros [|j] c Hc.
    + injection Hc as <-. eexists _, r. split_and!; [done | done |].
      apply integrateSummaryWithChunk_withSynopsis.
    + replace (2 * S j)%nat with (S (2 * j + 1)) by lia.
      destruct (Hchunk j c Hc) as (sent & r' & Hcall & Hresp & Hsent).
      by exists sent, r'.
  - intros j q Hq.
    replace (2 * j + 1)%nat with (S (2 * j)) by lia.
    destruct (Hsyn j q Hq) as (t & Hcall & Ht). by exists t.
Qed.

End RunFacts.

Section LargeContextFacts.
Variable env : Env.

Lemma estimate_positive_nonempty (msgs : list ChatMessage) :
  DIRECT_THRESHOLD <= estimatedTokens msgs → msgs ≠ [].
Proof. intros H ->. vm_compute in H. by apply H. Qed.

Lemma initialize_calls p c s :
  fst (initialize p c s) = Returned tt
  ∧ providerCalls (trace (snd (initialize p c s))) = providerCalls (trace s).
Proof.
  unfold initialize, bind, setConfig, emit. simpl.
  split; [done|]. rewrite providerCalls_app. simpl. by rewrite app_nil_r.
Qed.

(** Above the threshold the operation is a run of the chunk loop over
    the chunks of [chunkLargeContext], from the first one. *)
Lemma handleExtremelyLargeContext_chunked msgs config l custom s :
  DIRECT_THRESHOLD <= estimatedTokens msgs →
  ChunkedRun l 0 [] [] (chunkLargeContext msgs)
    (newCalls s (snd (BackgroundService.handleExtremelyLargeContext env msgs config l custom s)))
    (fst (BackgroundService.handleExtremelyLargeContext env msgs config l custom s)).
Proof.
  intros Hbig. unfold BackgroundService.handleExtremelyLargeContext.
  rewrite bool_decide_false by lia.
  unfold bind.
  destruct (initialize_calls portkey config s) as [Hret Hcalls].
  destruct (initialize portkey config s) as [o s0]. simpl in Hret, Hcalls. subst o.
  destruct (chunkedLoop_run env (length (chunkLargeContext msgs)) l custom
              (chunkLargeContext msgs) 0 [] [] s0 eq_refl) as (cs & Hcs & Hrun).
  lazy beta iota. rewrite Hcalls in Hcs. by rewrite (newCalls_app _ _ _ Hcs).
Qed.

(** Below the threshold there is one call, with the whole sequence. *)
Lemma handleExtremelyLargeContext_direct msgs config l custom s :
  estimatedTokens msgs < DIRECT_THRESHOLD →
  newCalls s (snd (BackgroundService.handleExtremelyLargeContext env msgs config l custom s))
  = [(portkey, CallLargeContextAPI msgs,
      fst (BackgroundService.handleExtremelyLargeContext env msgs config l custom s))].
Proof.
  intros Hsmall. unfold BackgroundService.handleExtremelyLargeContext.
  rewrite bool_decide_true by lia.
  unfold bind.
  destruct (initialize_calls portkey config s) as [Hret Hcalls].
  destruct (initialize portkey config s) as [o s0]. simpl in Hret, Hcalls. subst o.
  lazy beta iota.
  cbn [BackgroundService.getApiProvider apiProviders callLargeContextAPI].
  apply newCalls_app. rewrite <- Hcalls.
  apply observed_calls, frame_portkey_large.
Qed.

End LargeContextFacts.

(** C2. In the chunked path (estimate at or above the threshold), when no
    chunk call fails, the calls into the provider are, in this order: the
    first chunk; then for every further chunk, in input order, a synopsis
    request on everything processed so far followed by the chunk. Chunk
    [j] is the call at position [2 j]; it goes out with the synopsis
    carried at that point (the summary of the latest synopsis request that
    succeeded, if any): as it is when that synopsis is empty, and
    otherwise with one message in front, of role [system], whose content
    holds the synopsis. The synopsis request before chunk [j + 1] is the
    call at position [2 j + 1]; it is made on a text that holds the
    content of every message of the chunks up to [j]. With [k] chunks
    that is [k] chunk calls and [k - 1] synopsis calls, and the result is
    the response to the last chunk. *)
Theorem chunked_calls_in_order (env : Env) (msgs : list ChatMessage) (config : APIConfig)
    (l : Language) (custom : option CustomPrompts) (s : ServiceState) :
  let chunks := chunkLargeContext msgs in
  let run := BackgroundService.handleExtremelyLargeContext env msgs config l custom s in
  let calls := newCalls s (snd run) in
  DIRECT_THRESHOLD <= estimatedTokens msgs →
  Forall (fun c => failedChunkCall c = false) calls →
  ∃ synopses responses r,
    length responses = length chunks
    ∧ length synopses = (length chunks - 1)%nat
    ∧ calls = expectedCalls l chunks synopses responses
    ∧ (∀ j chunk, chunks !! j = Some chunk →
         ∃ sent r',
           calls !! (2 * j)%nat = Some (portkey, CallLargeContextAPI sent, Returned r')
           ∧ responses !! j = Some r'
           ∧ withSynopsis (foldl carry [] (take j synopses)) chunk sent)
    ∧ (∀ j o, synopses !! j = Some o →
         ∃ t, calls !! (2 * j + 1)%nat = Some (portkey, CallAPI (Text t), o)
              ∧ holdsAll (take (S j) chunks) t)
    ∧ countCalls isChunkCall calls = length chunks
    ∧ countCalls isSynopsisCall calls = (length chunks - 1)%nat
    ∧ length calls = (2 * length chunks - 1)%nat
    ∧ fst run = Returned r
    ∧ last responses = Some r.
Proof.
  intros chunks run calls Hbig Hok.
  pose proof (handleExtremelyLargeContext_chunked env msgs config l custom s Hbig) as Hrun.
  fold run in Hrun. fold calls in Hrun. fold chunks in Hrun.
  assert (chunks ≠ []) as Hne
    by (apply chunkLargeContext_nonempty, estimate_positive_nonempty, Hbig).
  destruct (ChunkedRun_success _ _ _ _ Hrun Hne Hok)
    as (synopses & responses & r & Hls & Hlr & Hcalls & Hout & Hlast).
  destruct (expectedCalls_counts l chunks synopses responses Hne Hls Hlr) as (H1 & H2 & H3).
  destruct (expectedCalls_payloads l chunks synopses responses Hls Hlr) as (H4 & H5).
  exists synopses, responses, r. rewrite Hcalls. done.
Qed.

(** C3. The chunker cuts the sequence into chunks whose concatenation is
    the sequence itself (whole messages, in order, none lost); no chunk is
    empty; each chunk's accumulated size stays within the budget of 50000
    unless the chunk is a single message that alone exceeds it, both in
    characters of content (as the chunker counts) and in estimated tokens;
    and when the estimate of the whole sequence is below the direct
    threshold there is no chunking: the provider is called once, with the
    whole sequence. *)
Theorem chunker_partitions (env : Env) (msgs : list ChatMessage) (config : APIConfig)
    (l : Language) (custom : option CustomPrompts) (s : ServiceState) :
  concat (chunkLargeContext msgs) = msgs
  ∧ Forall wellSized (chunkLargeContext msgs)
  ∧ Forall wellSizedInTokens (chunkLargeContext msgs)
  ∧ (estimatedTokens msgs < DIRECT_THRESHOLD →
     let run := BackgroundService.handleExtremelyLargeContext env msgs config l custom s in
     newCalls s (snd run) = [(portkey, CallLargeContextAPI msgs, fst run)]).
Proof.
  split_and!.
  - apply chunkLargeContext_concat.
  - apply chunkLargeContext_wellSized.
  - eapply Forall_impl; [apply chunkLargeContext_wellSized | apply wellSized_tokens].
  - intros Hsmall. by apply handleExtremelyLargeContext_direct.
Qed.

(** C4 (as amended). In a chunked operation, a chunk call that fails is
    the last call made and its error is the outcome of the whole
    operation; the operation fails in no other way. A synopsis request
    that fails does not abort the operation: it comes after a chunk call
    that succeeded, and the next chunk is sent right after it, with the
    same synopsis message in front (or none) as the chunk before it. When
    the operation returns a response, every chunk was sent, none of the
    chunk calls failed, and the response is the one to the last chunk. *)
Theorem chunk_failure_aborts (env : Env) (msgs : list ChatMessage) (config : APIConfig)
    (l : Language) (custom : option CustomPrompts) (s : ServiceState) :
  let chunks := chunkLargeContext msgs in
  let run := BackgroundService.handleExtremelyLargeContext env msgs config l custom s in
  let calls := newCalls s (snd run) in
  DIRECT_THRESHOLD <= estimatedTokens msgs →
  (∀ c, c ∈ calls → failedChunkCall c = true →
        ∃ m e, c = (portkey, CallLargeContextAPI m, Thrown e)
               ∧ fst run = Thrown e ∧ last calls = Some c)
  ∧ (∀ e, fst run = Thrown e →
          ∃ m, last calls = Some (portkey, CallLargeContextAPI m, Thrown e))
  ∧ (∀ k t e, calls !! k = Some (portkey, CallAPI (Text t), Thrown e) →
        ∃ k' j cj cj1 header r1 o2,
          k = S k'
          ∧ chunks !! j = Some cj ∧ chunks !! S j = Some cj1
          ∧ calls !! k' = Some (portkey, CallLargeContextAPI (header ++ cj), Returned r1)
          ∧ calls !! S k = Some (portkey, CallLargeContextAPI (header ++ cj1), o2))
  ∧ (∀ r, fst run = Returned r →
          (∃ m, last calls = Some (portkey, CallLargeContextAPI m, Returned r))
          ∧ countCalls isChunkCall calls = length (chunkLargeContext msgs)
          ∧ Forall (fun c => failedChunkCall c = false) calls).
Proof.
  intros chunks run calls Hbig.
  pose proof (handleExtremelyLargeContext_chunked env msgs config l custom s Hbig) as Hrun.
  fold run in Hrun. fold calls in Hrun. fold chunks in Hrun.
  assert (chunks ≠ []) as Hne
    by (apply chunkLargeContext_nonempty, estimate_positive_nonempty, Hbig).
  destruct (ChunkedRun_abort _ _ _ _ _ _ _ Hrun) as [Hfail Hok].
  split_and!; [done | | | done].
  - by apply (ChunkedRun_thrown _ _ _ _ _ _ _ Hrun).
  - intros k t e Hk.
    destruct (ChunkedRun_failed_synopsis _ _ _ _ _ _ _ Hrun k t e Hk) as [(_ & Hi & _)|H];
      [lia | done].
Qed.

(** ** Concrete runs of the chunked operation *)

Lemma chunked_calls_in_order_witness :
  let env := stubEnv serverError sdkAnswers in
  let chunks := chunkLargeContext threeBigMessages in
  let run := BackgroundService.handleExtremelyLargeContext env threeBigMessages someConfig
               english None initialState in
  let calls := newCalls initialState (snd run) in
  DIRECT_THRESHOLD <= estimatedTokens threeBigMessages
  ∧ Forall (fun c => failedChunkCall c = false) calls
  ∧ ∃ synopses responses r,
      length responses = length chunks
      ∧ length synopses = (length chunks - 1)%nat
      ∧ calls = expectedCalls english chunks synopses responses
      ∧ (∀ j chunk, chunks !! j = Some chunk →
           ∃ sent r',
             calls !! (2 * j)%nat = Some (portkey, CallLargeContextAPI sent, Returned r')
             ∧ responses !! j = Some r'
             ∧ withSynopsis (foldl carry [] (take j synopses)) chunk sent)
      ∧ (∀ j o, synopses !! j = Some o →
           ∃ t, calls !! (2 * j + 1)%nat = Some (portkey, CallAPI (Text t), o)
                ∧ holdsAll (take (S j) chunks) t)
      ∧ countCalls isChunkCall calls = length chunks
      ∧ countCalls isSynopsisCall calls = (length chunks - 1)%nat
      ∧ length calls = (2 * length chunks - 1)%nat
      ∧ fst run = Returned r
      ∧ last responses = Some r.
Proof.
  intros env chunks run calls.
  assert (DIRECT_THRESHOLD <= estimatedTokens threeBigMessages) as Hbig by (by vm_compute).
  assert (Forall (fun c => failedChunkCall c = false) calls) as Hok.
  { apply (bool_decide_eq_true_1 (Forall (fun c => failedChunkCall c = false) calls)).
    vm_compute. reflexivity. }
  split_and!; [exact Hbig | exact Hok |].
  exact (chunked_calls_in_order env threeBigMessages someConfig english None initialState
           Hbig Hok).
Defined.

Lemma chunker_partitions_witness :
  let env := stubEnv serverError sdkAnswers in
  estimatedTokens smallMessages < DIRECT_THRESHOLD
  ∧ concat (chunkLargeContext smallMessages) = smallMessages
  ∧ Forall wellSized (chunkLargeContext smallMessages)
  ∧ Forall wellSizedInTokens (chunkLargeContext smallMessages)
  ∧ let run := BackgroundService.handleExtremelyLargeContext env smallMessages someConfig
                 english None initialState in
    newCalls initialState (snd run) = [(portkey, CallLargeContextAPI smallMessages, fst run)].
Proof.
  intros env.
  assert (estimatedTokens smallMessages < DIRECT_THRESHOLD) as Hsmall by (by vm_compute).
  destruct (chunker_partitions env smallMessages someConfig english None initialState)
    as (Hconcat & Hsized & Htokens & Hdirect).
  split_and!;
    [exact Hsmall | exact Hconcat | exact Hsized | exact Htokens | exact (Hdirect Hsmall)].
Defined.

Lemma chunk_failure_aborts_witness :
  let env := stubEnv serverError sdkFailsTwice in
  let run := BackgroundService.handleExtremelyLargeContext env threeBigMessages someConfig
               english None initialState in
  let calls := newCalls initialState (snd run) in
  DIRECT_THRESHOLD <= estimatedTokens threeBigMessages
  ∧ length calls = 5%nat
  ∧ isSynopsisCall <$> calls !! 1%nat = Some true
  ∧ failedCall <$> calls !! 1%nat = Some true
  ∧ failedChunkCall <$> calls !! 2%nat = Some false
  ∧ failedChunkCall <$> calls !! 4%nat = Some true
  ∧ ∃ c m e,
      calls !! 4%nat = Some c
      ∧ c = (portkey, CallLargeContextAPI m, Thrown e)
      ∧ fst run = Thrown e
      ∧ last calls = Some c.
Proof.
  intros env run calls.
  split_and!; [by vm_compute | by vm_compute | by vm_compute | by vm_compute | by vm_compute
              | by vm_compute |].
  assert (DIRECT_THRESHOLD <= estimatedTokens threeBigMessages) as Hbig by (by vm_compute).
  assert (failedChunkCall <$> calls !! 4%nat = Some true) as Hfailed by (by vm_compute).
  destruct (calls !! 4%nat) as [c|] eqn:Hc; [|discriminate Hfailed].
  injection Hfailed as Hfailed.
  destruct (chunk_failure_aborts env threeBigMessages someConfig english None initialState Hbig)
    as (Habort & _).
  destruct (Habort c (list_elem_of_lookup_2 _ _ _ Hc) Hfailed) as (m & e & Hcall & Hout & Hlast).
  exists c, m, e. split_and!; [reflexivity | exact Hcall | exact Hout | exact Hlast].
Defined.

(** C4 fails as stated: in this chunked operation over three chunks the
    first synopsis request fails (the SDK raises and the direct request is
    answered with status 500), and the operation still returns the
    response to the last chunk. *)
Lemma synopsis_failure_is_ignored :
  let env := stubEnv serverError sdkFailsOnce in
  let run := BackgroundService.handleExtremelyLargeContext env threeBigMessages someConfig
               english None initialState in
  let calls := newCalls initialState (snd run) in
  DIRECT_THRESHOLD <= estimatedTokens threeBigMessages
  ∧ existsb failedCall calls = true
  ∧ isSynopsisCall <$> calls !! 1%nat = Some true
  ∧ failedCall <$> calls !! 1%nat = Some true
  ∧ length calls = 5%nat
  ∧ fst run = Returned (plainResponse (lit "S")).
Proof. intros env run calls. split_and!; by vm_compute. Qed.

(** ** The message listener *)

(** C8. A boundary message whose action tag is none of the known ones is
    answered, at once, with the error response [{ error: 'Unknown action' }];
    nothing else happens. *)
Theorem unknown_action_gets_error (env : Env) (request : Message) (s : ServiceState) :
  action request ∉ knownActions →
  onMessage env request s
  = (Returned {| sent := Some (RespError (Some (lit "Unknown action")));
                 keepsChannel := false |}, s).
Proof.
  unfold knownActions. rewrite !not_elem_of_cons.
  intros (H1 & H2 & H3 & H4 & H5 & H6 & H7 & H8 & H9 & H10 & H11 & _).
  unfold onMessage.
  rewrite !bool_decide_false by done.
  reflexivity.
Qed.

Lemma unknown_action_gets_error_witness :
  (action pingMessage ∉ knownActions)
  ∧ onMessage (stubEnv serverError sdkAnswers) pingMessage initialState
    = (Returned {| sent := Some (RespError (Some (lit "Unknown action")));
                   keepsChannel := false |}, initialState).
Proof.
  assert (action pingMessage ∉ knownActions) as Hunknown.
  { apply (bool_decide_eq_true_1 (action pingMessage ∉ knownActions)). by vm_compute. }
  split; [exact Hunknown|].
  exact (unknown_action_gets_error (stubEnv serverError sdkAnswers) pingMessage initialState
           Hunknown).
Defined.

(** ** Adapters on a failure status *)

Section FailureStatus.
Variable env : Env.
Variable r : HttpResponse.
Hypothesis Hvendor : vendorAnswers env r.
Hypothesis Hnot_ok : ok r = false.

(** On a well-formed body the adapters find the vendor's detail. *)
Lemma errorDetailsOf_wellFormed : wellFormed r → errorDetailsOf r = Returned (vendorDetail r).
Proof.
  unfold errorDetailsOf, vendorDetail, wellFormed.
  destruct (json r) as [[d|]|e]; [|done|done].
  intros _.
  destruct (error_message d) as [[|c m]|]; simpl;
    destruct (top_message d) as [[|c' m']|]; done.
Qed.

Lemma errorDetailsOf_null : json r = Returned None → errorDetailsOf r = Thrown (nullRead "error").
Proof. unfold errorDetailsOf. by intros ->. Qed.

(** The run of an adapter up to the reading of the failure's detail. *)
Lemma adapter_run_on_failure_status p input l custom s config :
  configs s !! p = Some config →
  truthy (cfg_apiKey config) = true →
  fst (adapterCallAPI env p input l custom s)
  = match errorDetailsOf r with
    | Returned errorDetails =>
        Thrown (JsError (wrapped p (failureLine (failureLabel p) r errorDetails
                                    ++ hintOf p (status r))))
    | Thrown e =>
        Thrown (match p with portkey => JsError (PortkeyAPI.wrapError e) | _ => e end)
    end.
Proof.
  destruct Hvendor as [Hfetch Hsdk].
  intros Hcfg Hkey.
  assert (errorDetailsOf r = Thrown (nullRead "error") ∨ ∃ d, errorDetailsOf r = Returned d)
    as Hcases.
  { unfold errorDetailsOf. destruct (json r) as [[?|]|?]; eauto. }
  destruct p; simpl.
  - unfold ClaudeAPI.callAPI, validateConfig, readConfig, bind, try_catch, getConfigs, doFetch, ask,
      ret, throw, lift.
    simpl. rewrite Hcfg, Hkey. simpl. rewrite Hcfg. rewrite Hfetch, Hnot_ok.
    destruct Hcases as [->|[d ->]]; [reflexivity|].
    cbn [hintOf]. rewrite app_nil_r. reflexivity.
  - unfold OpenAIAPI.callAPI, validateConfig, readConfig, bind, try_catch, getConfigs, doFetch, ask,
      ret, throw, lift.
    simpl. rewrite Hcfg, Hkey. simpl. rewrite Hcfg. rewrite Hfetch, Hnot_ok.
    destruct Hcases as [->|[d ->]]; reflexivity.
  - unfold OpenRouterAPI.callAPI, validateConfig, readConfig, bind, try_catch, getConfigs,
      doFetch, ask, ret, throw, lift.
    simpl. rewrite Hcfg, Hkey. simpl. rewrite Hcfg. rewrite Hfetch, Hnot_ok.
    destruct Hcases as [->|[d ->]]; reflexivity.
  - unfold PortkeyAPI.callAPI, PortkeyAPI.callDirectChatAPI, validateConfig, readConfig, bind,
      try_catch, getConfigs, doFetch, ask, ret, throw, lift.
    simpl. rewrite Hcfg, Hkey. simpl. rewrite Hcfg.
    match goal with
    | |- context [portkey_create env ?t ?req] => destruct (Hsdk t req) as [e ->]
    end.
    simpl. rewrite Hcfg. rewrite Hfetch, Hnot_ok.
    destruct Hcases as [->|[d ->]]; reflexivity.
Qed.

Lemma adapter_throws_on_failure_status p input l custom s config :
  wellFormed r →
  configs s !! p = Some config →
  truthy (cfg_apiKey config) = true →
  fst (adapterCallAPI env p input l custom s) = Thrown (JsError (nonOkMessage p r)).
Proof.
  intros Hwell Hcfg Hkey.
  rewrite (adapter_run_on_failure_status _ _ _ _ _ _ Hcfg Hkey).
  by rewrite errorDetailsOf_wellFormed.
Qed.

Lemma adapter_throws_on_null_body p input l custom s config :
  json r = Returned None →
  configs s !! p = Some config →
  truthy (cfg_apiKey config) = true →
  fst (adapterCallAPI env p input l custom s) = Thrown (nullBodyThrown p).
Proof.
  intros Hnull Hcfg Hkey.
  rewrite (adapter_run_on_failure_status _ _ _ _ _ _ Hcfg Hkey).
  rewrite errorDetailsOf_null by done. by destruct p.
Qed.

(** The hints are as [isHint] asks. *)
Lemma hintOf_isHint p statusCode : isHint p statusCode (hintOf p statusCode).
Proof.
  unfold isHint, hinted, hintOf, OpenAIAPI.hint, OpenRouterAPI.hint, PortkeyAPI.hint.
  destruct p; [done| | |].
  all: repeat case_bool_decide; split; intros ?; try done; try lia;
    try (eexists; split; [|reflexivity]; done).
Qed.

End FailureStatus.

(** ** The orchestrator: cache reads, provider calls, cache writes *)

Section Extends.

Lemma frame_extends P {A} (m : M A) s : frame P m → extends P s (snd (m s)).
Proof. intros Hm. exact (Hm s). Qed.

Lemma extends_refl P s : extends P s s.
Proof. split; [done|]. exists []. by rewrite app_nil_r. Qed.

Lemma extends_trans P s1 s2 s3 : extends P s1 s2 → extends P s2 s3 → extends P s1 s3.
Proof.
  intros (Hp1 & evs1 & Ht1 & HP1) (Hp2 & evs2 & Ht2 & HP2).
  split; [congruence|]. exists (evs1 ++ evs2).
  rewrite Ht2, Ht1, app_assoc. split; [done|]. by apply Forall_app.
Qed.

Lemma extends_weaken (P Q : Event → Prop) s s' :
  (∀ e, P e → Q e) → extends P s s' → extends Q s s'.
Proof.
  intros HPQ (Hp & evs & Ht & HP). split; [done|]. exists evs. split; [done|].
  eapply Forall_impl; eauto.
Qed.

Lemma cacheSets_app t1 t2 : cacheSets (t1 ++ t2) = cacheSets t1 ++ cacheSets t2.
Proof. apply omap_app. Qed.

Lemma cacheSets_noWrite evs : Forall noWrite evs → cacheSets evs = [].
Proof.
  induction 1 as [|e evs He _ IH]; [done|].
  unfold cacheSets in *. simpl. unfold noWrite in He. by rewrite He.
Qed.

Lemma providerCalls_noCall evs : Forall noCall evs → providerCalls evs = [].
Proof.
  induction 1 as [|e evs He _ IH]; [done|].
  unfold providerCalls in *. simpl. unfold noCall in He. by rewrite He.
Qed.

Lemma extends_cacheSets s s' : extends noWrite s s' → cacheSets (trace s') = cacheSets (trace s).
Proof.
  intros (_ & evs & -> & H). by rewrite cacheSets_app, (cacheSets_noWrite _ H), app_nil_r.
Qed.

Lemma extends_providerCalls s s' :
  extends noCall s s' → providerCalls (trace s') = providerCalls (trace s).
Proof.
  intros (_ & evs & -> & H).
  by rewrite providerCalls_app, (providerCalls_noCall _ H), app_nil_r.
Qed.

Lemma cacheWrites_app s s' ws :
  cacheSets (trace s') = cacheSets (trace s) ++ ws → cacheWrites s s' = ws.
Proof. intros H. unfold cacheWrites. by rewrite H, drop_app_length. Qed.

Lemma silent_noWrite e : silent e → noWrite e.
Proof. by intros [_ ?]. Qed.

Lemma silent_noCall e : silent e → noCall e.
Proof. by intros [? _]. Qed.

Lemma providerSide_noWrite e : providerSide e → noWrite e.
Proof. by destruct e. Qed.

Lemma netEvent_providerSide e : netEvent e → providerSide e.
Proof. by destruct e. Qed.

Lemma netEvent_silent e : netEvent e → silent e.
Proof. by destruct e. Qed.

End Extends.

Section OrchestratorFacts.
Variable env : Env.

Lemma frame_adapter p i l c : frame netEvent (adapterCallAPI env p i l c).
Proof.
  destruct p; simpl;
    auto using frame_claude, frame_openai, frame_openrouter, frame_portkey.
Qed.

Lemma callAPI_observed p i l c :
  callAPI (apiProviders env p) i l c = observed p (CallAPI i) (adapterCallAPI env p i l c).
Proof. by destruct p. Qed.

Lemma frame_callAPI p i l c : frame providerSide (callAPI (apiProviders env p) i l c).
Proof.
  rewrite callAPI_observed. apply frame_observed; [done|].
  eapply frame_weaken; [apply netEvent_providerSide | apply frame_adapter].
Qed.

Lemma frame_large m l c :
  frame providerSide
    (observed portkey (CallLargeContextAPI m) (PortkeyAPI.callLargeContextAPI env m l c)).
Proof.
  apply frame_observed; [done|].
  eapply frame_weaken; [apply netEvent_providerSide | apply frame_portkey_large].
Qed.

Lemma frame_refreshSummary l c i ctx summ :
  frame providerSide (BackgroundService.refreshSummary env l c i ctx summ).
Proof.
  unfold BackgroundService.refreshSummary.
  destruct (_ && _); frame_tac. apply frame_callAPI.
Qed.

Lemma frame_processChunk l c chunk ctx summ :
  frame providerSide (BackgroundService.processChunk env l c chunk ctx summ).
Proof.
  unfold BackgroundService.processChunk. cbn [BackgroundService.getApiProvider apiProviders
    callLargeContextAPI].
  frame_tac.
  eapply frame_weaken; [apply netEvent_providerSide | apply frame_portkey_large].
Qed.

Lemma frame_chunkedLoop n l c chunks :
  ∀ i ctx summ, frame providerSide (BackgroundService.chunkedLoop env n l c chunks i ctx summ).
Proof.
  induction chunks as [|chunk rest IH]; intros i ctx summ; cbn [BackgroundService.chunkedLoop].
  - apply frame_throw.
  - apply frame_bind; [apply frame_refreshSummary|]. intros summ'.
    apply frame_bind; [apply frame_processChunk|]. intros done.
    destruct (bool_decide _); [apply frame_ret | apply IH].
Qed.

Lemma frame_handleExtremelyLargeContext msgs config l c :
  frame providerSide (BackgroundService.handleExtremelyLargeContext env msgs config l c).
Proof.
  unfold BackgroundService.handleExtremelyLargeContext.
  apply frame_bind; [apply frame_initialize|]. intros _.
  destruct (bool_decide _); cbn [BackgroundService.getApiProvider apiProviders
    callLargeContextAPI]; [apply frame_large | apply frame_chunkedLoop].
Qed.

Lemma frame_routeLargeContext request :
  frame providerSide (BackgroundService.routeLargeContext env request).
Proof.
  unfold BackgroundService.routeLargeContext.
  destruct (bool_decide (provider request = portkey)); [|apply frame_ret].
  destruct (callLargeContextAPI _) as [largeAPI|] eqn:Hlarge; [|apply frame_ret].
  destruct (bool_decide _).
  - apply frame_bind; [apply frame_handleExtremelyLargeContext | intros ?; apply frame_ret].
  - apply frame_bind; [|intros ?; apply frame_ret].
    destruct (provider request); simpl in Hlarge; try done.
    injection Hlarge as <-. apply frame_large.
Qed.

Lemma frame_lookupCache request : frame silent (BackgroundService.lookupCache env request).
Proof.
  unfold BackgroundService.lookupCache, BackgroundService.SummaryCache_get',
    BackgroundService.getCacheEntry.
  destruct (_ && _); [|apply frame_ret].
  apply frame_bind; [by apply frame_ask|]. intros [summ|]; [|apply frame_ret].
  destruct (truthy summ); [|apply frame_ret].
  apply frame_bind; [|intros ?; apply frame_ret].
  apply frame_try; [|intros ?; apply frame_ret].
  apply frame_bind; [by apply frame_ask | intros ?; apply frame_ret].
Qed.

Lemma frame_rememberContext request : frame silent (BackgroundService.rememberContext request).
Proof. unfold BackgroundService.rememberContext. frame_tac. Qed.

Lemma frame_initialize_silent p c : frame silent (initialize p c).
Proof.
  unfold initialize. apply frame_bind; [apply frame_setConfig|]. intros _.
  by apply frame_emit.
Qed.

End OrchestratorFacts.

(** ** What adapters and the large-context operation return *)

Section ReturnFacts.

Lemma or_else_truthy (a : option jsstring) (b : jsstring) :
  truthy b = true → truthy (or_else a b) = true.
Proof. intros Hb. destruct a as [x|]; simpl; [|done]. by destruct (truthy x) eqn:Hx. Qed.

Lemma isAnswer_plain (a : option jsstring) : isAnswer (plainResponse (or_else a noResponse)).
Proof. split; [by apply or_else_truthy | done]. Qed.

Lemma returns_ret {A} (Q : A → Prop) a : Q a → returns Q (ret a).
Proof. intros H s. done. Qed.

Lemma returns_throw {A} (Q : A → Prop) e : returns Q (throw e).
Proof. intros s. done. Qed.

Lemma returns_bind {A B} (Q : B → Prop) (m : M A) (k : A → M B) :
  (∀ a, returns Q (k a)) → returns Q (bind m k).
Proof.
  intros Hk s. unfold bind. destruct (m s) as [[a|e] s']; [apply Hk | done].
Qed.

Lemma returns_try {A} (Q : A → Prop) (m : M A) (h : JsThrown → M A) :
  returns Q m → (∀ e, returns Q (h e)) → returns Q (try_catch m h).
Proof.
  intros Hm Hh s. unfold try_catch. specialize (Hm s).
  destruct (m s) as [[a|e] s']; [done | apply Hh].
Qed.

Lemma returns_observed (Q : LLMResponse → Prop) p call m :
  returns Q m → returns Q (observed p call m).
Proof. intros Hm s. unfold observed. specialize (Hm s). by destruct (m s) as [o s']. Qed.

Lemma returns_networkCatch {A} (Q : A → Prop) msg e : returns Q (networkCatch msg e).
Proof. unfold networkCatch. destruct e; try apply returns_throw. destruct (includes _ _); apply returns_throw. Qed.

End ReturnFacts.

Ltac returns_step :=
  match goal with
  | |- returns _ (ret _) => apply returns_ret
  | |- returns _ (throw _) => apply returns_throw
  | |- returns _ (bind _ _) => apply returns_bind; intros ?
  | |- returns _ (try_catch _ _) => apply returns_try; [|intros ?]
  | |- returns _ (observed _ _ _) => apply returns_observed
  | |- returns _ (networkCatch _ _) => apply returns_networkCatch
  | |- returns _ (match ?x with _ => _ end) => destruct x
  | |- returns _ (if ?x then _ else _) => destruct x
  end.

Section AdapterAnswers.
Variable env : Env.

Lemma returns_portkey_direct m l c : returns isAnswer (PortkeyAPI.callDirectChatAPI env m l c).
Proof.
  unfold PortkeyAPI.callDirectChatAPI. repeat returns_step. apply isAnswer_plain.
Qed.

Lemma returns_portkey i l c : returns isAnswer (PortkeyAPI.callAPI env i l c).
Proof.
  unfold PortkeyAPI.callAPI. repeat returns_step;
    auto using isAnswer_plain, returns_portkey_direct.
Qed.

Lemma returns_adapter p i l c : returns isAnswer (adapterCallAPI env p i l c).
Proof.
  destruct p; simpl; [| | |apply returns_portkey].
  - unfold ClaudeAPI.callAPI. repeat returns_step. apply isAnswer_plain.
  - unfold OpenAIAPI.callAPI. repeat returns_step. apply isAnswer_plain.
  - unfold OpenRouterAPI.callAPI. repeat returns_step. apply isAnswer_plain.
Qed.

Lemma returns_callAPI p i l c : returns isAnswer (callAPI (apiProviders env p) i l c).
Proof. rewrite callAPI_observed. apply returns_observed, returns_adapter. Qed.

Lemma returns_large m l c :
  returns isAnswer
    (observed portkey (CallLargeContextAPI m) (PortkeyAPI.callLargeContextAPI env m l c)).
Proof. apply returns_observed. unfold PortkeyAPI.callLargeContextAPI. apply returns_portkey. Qed.

Lemma returns_chunkedLoop n l c chunks :
  ∀ i ctx summ, returns isAnswer (BackgroundService.chunkedLoop env n l c chunks i ctx summ).
Proof.
  induction chunks as [|chunk rest IH]; intros i ctx summ; cbn [BackgroundService.chunkedLoop].
  - apply returns_throw.
  - apply returns_bind. intros summ'.
    unfold BackgroundService.processChunk.
    cbn [BackgroundService.getApiProvider apiProviders callLargeContextAPI].
    intros s. unfold bind, try_catch.
    pose proof (returns_large (integrateSummaryWithChunk chunk summ' l) l c s) as Hr.
    destruct (observed portkey _ _ s) as [[r|e] s1]; simpl in *; [|done].
    destruct (bool_decide _); [done | apply IH].
Qed.

Lemma returns_handleExtremelyLargeContext msgs config l c :
  returns isAnswer (BackgroundService.handleExtremelyLargeContext env msgs config l c).
Proof.
  unfold BackgroundService.handleExtremelyLargeContext.
  apply returns_bind. intros _.
  destruct (bool_decide _); cbn [BackgroundService.getApiProvider apiProviders
    callLargeContextAPI]; [apply returns_large | apply returns_chunkedLoop].
Qed.

End AdapterAnswers.

Section CallLLMAPIFacts.
Variable env : Env.

Lemma SynopsisStep_kind i ctx summ syn summ' :
  SynopsisStep i ctx summ syn summ' → Forall (fun c => isMessagesCall c = false) syn.
Proof. inversion 1; [constructor | by apply Forall_singleton]. Qed.

Lemma ChunkedRun_kind l i ctx summ chunks cs o :
  ChunkedRun l i ctx summ chunks cs o → Forall (fun c => isMessagesCall c = false) cs.
Proof.
  induction 1 as [| ? ? ? ? ? ? ? ? Hsyn | ? ? ? ? ? ? ? Hsyn | ? ? ? ? ? ? ? ? ? ? ? Hsyn ? IH].
  - constructor.
  - apply Forall_app. split; [by eapply SynopsisStep_kind | by apply Forall_singleton].
  - apply Forall_app. split; [by eapply SynopsisStep_kind | by apply Forall_singleton].
  - apply Forall_app. split; [by eapply SynopsisStep_kind | by apply Forall_cons].
Qed.

Lemma handleExtremelyLargeContext_kind msgs config l custom s :
  Forall (fun c => isMessagesCall c = false)
    (newCalls s (snd (BackgroundService.handleExtremelyLargeContext env msgs config l custom s))).
Proof.
  destruct (decide (estimatedTokens msgs < DIRECT_THRESHOLD)) as [Hsmall|Hbig].
  - rewrite handleExtremelyLargeContext_direct by done. by apply Forall_singleton.
  - eapply ChunkedRun_kind, handleExtremelyLargeContext_chunked. lia.
Qed.

Lemma newCalls_providerCalls s s' :
  (∃ cs, providerCalls (trace s') = providerCalls (trace s) ++ cs) →
  providerCalls (trace s') = providerCalls (trace s) ++ newCalls s s'.
Proof. intros [cs H]. by rewrite (newCalls_app _ _ _ H). Qed.

Lemma extends_calls_prefix P s s' :
  extends P s s' → ∃ cs, providerCalls (trace s') = providerCalls (trace s) ++ cs.
Proof. intros (_ & evs & -> & _). rewrite providerCalls_app. eauto. Qed.

(** When the large-context route declines, nothing has happened. *)
Lemma routeLargeContext_None request s s' :
  BackgroundService.routeLargeContext env request s = (Returned None, s') → s' = s.
Proof.
  unfold BackgroundService.routeLargeContext.
  destruct (bool_decide (provider request = portkey)); [|by intros [= <-]].
  destruct (callLargeContextAPI _) as [largeAPI|]; [|by intros [= <-]].
  destruct (bool_decide _); unfold bind, ret.
  - destruct (BackgroundService.handleExtremelyLargeContext _ _ _ _ _ _) as [[?|?] ?]; done.
  - destruct (largeAPI _ _ _ _) as [[?|?] ?]; done.
Qed.

(** The calls of the large-context route are chunk calls and synopsis
    requests. *)
Lemma routeLargeContext_kind request s :
  Forall (fun c => isMessagesCall c = false)
    (newCalls s (snd (BackgroundService.routeLargeContext env request s))).
Proof.
  unfold BackgroundService.routeLargeContext.
  destruct (bool_decide (provider request = portkey)) eqn:Hp;
    [|simpl; unfold newCalls; by rewrite drop_all].
  apply bool_decide_eq_true in Hp. rewrite Hp.
  cbn [BackgroundService.getApiProvider apiProviders callLargeContextAPI].
  destruct (bool_decide _); unfold bind, ret.
  - pose proof (handleExtremelyLargeContext_kind (messages request)
                  (BackgroundService.configOf request)
                  (language_or_default (language request)) (customPrompts request) s) as H.
    destruct (BackgroundService.handleExtremelyLargeContext _ _ _ _ _ _) as [[?|?] ?]; done.
  - pose proof (observed_calls portkey (CallLargeContextAPI (messages request))
                  (PortkeyAPI.callLargeContextAPI env (messages request)
                     (language_or_default (language request)) (customPrompts request)) s
                  (frame_portkey_large env _ _ _)) as H.
    destruct (observed _ _ _ _) as [[?|?] s']; simpl in *;
      rewrite (newCalls_app _ _ _ H); by apply Forall_singleton.
Qed.

Lemma storeInCache_run request r s :
  fst (BackgroundService.storeInCache request r s) = Returned tt
  ∧ pendingRequests (snd (BackgroundService.storeInCache request r s)) = pendingRequests s
  ∧ cacheSets (trace (snd (BackgroundService.storeInCache request r s)))
    = cacheSets (trace s) ++ storedFor request r
  ∧ providerCalls (trace (snd (BackgroundService.storeInCache request r s)))
    = providerCalls (trace s).
Proof.
  unfold BackgroundService.storeInCache, storedFor, BackgroundService.SummaryCache_set.
  destruct (_ && _); simpl.
  - rewrite cacheSets_app, providerCalls_app. simpl. by rewrite app_nil_r.
  - by rewrite app_nil_r.
Qed.

(** What the cache lookup answers with is marked as cached. *)
Lemma lookupCache_fromCache request s r :
  fst (BackgroundService.lookupCache env request s) = Returned (Some r) →
  fromCache r = Some true.
Proof.
  unfold BackgroundService.lookupCache, BackgroundService.SummaryCache_get',
    BackgroundService.getCacheEntry.
  destruct (_ && _); [|done].
  unfold bind, ask, try_catch, ret. cbn [fst snd].
  destruct (SummaryCache_get env _ _ _) as [summ|]; [|done].
  destruct (truthy summ) eqn:Hs; [|done].
  destruct (storage_local_get env _) as [?|?]; simpl; by intros [= <-].
Qed.

(** Only Portkey requests are answered on the large-context route. *)
Lemma routeLargeContext_Some request s r :
  fst (BackgroundService.routeLargeContext env request s) = Returned (Some r) →
  provider request = portkey.
Proof.
  unfold BackgroundService.routeLargeContext. by case_bool_decide.
Qed.

(** The two ways a run of [callLLMAPI] can go: without any [callAPI] call
    on the messages and without a cache write (cache hit, large-context
    route of a Portkey request, or a failure before the call); or with
    exactly that one call, whose response, when it is a success, is
    written to the cache. *)
Lemma callLLMAPI_run request s :
  let run := BackgroundService.callLLMAPI env request s in
  pendingRequests (snd run) = pendingRequests s
  ∧ ((cacheWrites s (snd run) = []
      ∧ Forall (fun c => isMessagesCall c = false) (newCalls s (snd run))
      ∧ ∃ r, fst run = Returned r
             ∧ (fromCache r = Some true ∨ summary r = [] ∨ provider request = portkey))
     ∨ (∃ o,
          newCalls s (snd run) = [(provider request, CallAPI (Msgs (messages request)), o)]
          ∧ match o with
            | Returned r =>
                fst run = Returned r ∧ isAnswer r
                ∧ cacheWrites s (snd run) = storedFor request r
            | Thrown e =>
                fst run = Returned (BackgroundService.errorResponse e)
                ∧ cacheWrites s (snd run) = []
            end)).
Proof.
  intros run. subst run. unfold BackgroundService.callLLMAPI, try_catch, bind, ret.
  (* the cache lookup *)
  pose proof (frame_extends _ _ s (frame_lookupCache env request)) as HA.
  pose proof (lookupCache_fromCache request s) as Hhit.
  destruct (BackgroundService.lookupCache env request s) as [[[response|]|e] s1];
    cbn [fst snd] in HA, Hhit |- *.
  1, 3: split; [apply HA|]; left; split_and!;
    [ apply cacheWrites_app;
      by rewrite (extends_cacheSets _ _ (extends_weaken _ _ _ _ silent_noWrite HA)), app_nil_r
    | unfold newCalls;
      rewrite (extends_providerCalls _ _ (extends_weaken _ _ _ _ silent_noCall HA));
      by rewrite drop_all
    | eexists; split; [reflexivity|]; first [by left; apply Hhit | by right; left] ].
  clear Hhit.
  (* the conversation context and the adapter set-up *)
  pose proof (frame_extends _ _ s1 (frame_rememberContext request)) as HB.
  pose proof (extends_trans _ _ _ _ HA HB) as HAB. clear HA HB.
  destruct (BackgroundService.rememberContext request s1) as [[[]|e] s2];
    cbn [fst snd] in HAB |- *.
  2: { split; [apply HAB|]; left; split_and!;
       [ apply cacheWrites_app;
         by rewrite (extends_cacheSets _ _ (extends_weaken _ _ _ _ silent_noWrite HAB)),
           app_nil_r
       | unfold newCalls;
         rewrite (extends_providerCalls _ _ (extends_weaken _ _ _ _ silent_noCall HAB));
         by rewrite drop_all
       | eexists; split; [reflexivity|]; by right; left ]. }
  pose proof (frame_extends _ _ s2
                (frame_initialize_silent (provider request) (BackgroundService.configOf request)))
    as HC.
  pose proof (extends_trans _ _ _ _ HAB HC) as HABC. clear HAB HC.
  unfold BackgroundService.initializeApiProvider.
  destruct (initialize (provider request) (BackgroundService.configOf request) s2)
    as [[[]|e] s3]; cbn [fst snd] in HABC |- *.
  2: { split; [apply HABC|]; left; split_and!;
       [ apply cacheWrites_app;
         by rewrite (extends_cacheSets _ _ (extends_weaken _ _ _ _ silent_noWrite HABC)),
           app_nil_r
       | unfold newCalls;
         rewrite (extends_providerCalls _ _ (extends_weaken _ _ _ _ silent_noCall HABC));
         by rewrite drop_all
       | eexists; split; [reflexivity|]; by right; left ]. }
  pose proof (extends_cacheSets _ _ (extends_weaken _ _ _ _ silent_noWrite HABC)) as Hsets3.
  pose proof (extends_providerCalls _ _ (extends_weaken _ _ _ _ silent_noCall HABC)) as Hcalls3.
  destruct HABC as [Hpend3 _].
  (* the large-context route *)
  pose proof (frame_extends _ _ s3 (frame_routeLargeContext env request)) as HD.
  pose proof (routeLargeContext_kind request s3) as Hkind.
  pose proof (routeLargeContext_None request s3) as Hnone.
  pose proof (routeLargeContext_Some request s3) as Hsome.
  destruct (BackgroundService.routeLargeContext env request s3) as [[[response|]|e] s4];
    cbn [fst snd] in HD, Hkind, Hsome |- *.
  1, 3: split; [destruct HD; congruence|]; left; split_and!;
    [ apply cacheWrites_app;
      by rewrite (extends_cacheSets _ _ (extends_weaken _ _ _ _ providerSide_noWrite HD)),
        Hsets3, app_nil_r
    | destruct (extends_calls_prefix _ _ _ HD) as [cs Hcs];
      rewrite (newCalls_app _ _ _ Hcs) in Hkind;
      rewrite Hcalls3 in Hcs; by rewrite (newCalls_app _ _ _ Hcs)
    | eexists; split; [reflexivity|];
      first [by right; right; eapply Hsome | by right; left] ].
  specialize (Hnone s4 eq_refl). subst s4. clear HD Hkind Hsome.
  (* the call itself *)
  unfold BackgroundService.getApiProvider.
  pose proof (frame_extends _ _ s3
                (frame_callAPI env (provider request) (Msgs (messages request))
                   (language_or_default (language request)) (customPrompts request))) as HE.
  pose proof (observed_calls (provider request) (CallAPI (Msgs (messages request)))
                (adapterCallAPI env (provider request) (Msgs (messages request))
                   (language_or_default (language request)) (customPrompts request)) s3
                (frame_adapter env _ _ _ _)) as Hcall.
  rewrite <- callAPI_observed in Hcall.
  pose proof (returns_callAPI env (provider request) (Msgs (messages request))
                (language_or_default (language request)) (customPrompts request) s3) as Hanswer.
  destruct (callAPI (apiProviders env (provider request)) (Msgs (messages request))
              (language_or_default (language request)) (customPrompts request) s3)
    as [[r|e] s5]; cbn [fst snd] in HE, Hcall, Hanswer |- *.
  - destruct (storeInCache_run request r s5) as (Hret & Hpend & Hsets & Hcalls).
    destruct (BackgroundService.storeInCache request r s5) as [o6 s6].
    cbn [fst snd] in Hret, Hpend, Hsets, Hcalls. subst o6. cbn [fst snd].
    split; [destruct HE; congruence|]. right. exists (Returned r).
    split_and!.
    + apply newCalls_app. by rewrite Hcalls, Hcall, Hcalls3.
    + done.
    + done.
    + apply cacheWrites_app.
      by rewrite Hsets, (extends_cacheSets _ _ (extends_weaken _ _ _ _ providerSide_noWrite HE)),
        Hsets3.
  - split; [destruct HE; congruence|]. right. exists (Thrown e).
    split_and!.
    + apply newCalls_app. by rewrite Hcall, Hcalls3.
    + done.
    + apply cacheWrites_app.
      by rewrite (extends_cacheSets _ _ (extends_weaken _ _ _ _ providerSide_noWrite HE)),
        Hsets3, app_nil_r.
Qed.

End CallLLMAPIFacts.

Lemma storedFor_nonempty (request : ChatRequest) (r : LLMResponse) :
  storedFor request r ≠ [] ↔
    truthy (default [] (url request)) = true
    ∧ truthy (summary r) = true
    ∧ BackgroundService.truthyOpt (error r) = false
    ∧ isTextSummarization (messages request) = true.
Proof.
  unfold storedFor.
  destruct (truthy (default [] (url request))), (truthy (summary r)),
    (BackgroundService.truthyOpt (error r)), (isTextSummarization (messages request));
    simpl; split; try done; intros (? & ? & ? & ?); done.
Qed.

Lemma storedFor_cases (request : ChatRequest) (r : LLMResponse) :
  storedFor request r = []
  ∨ storedFor request r
    = [(default [] (url request), language_or_default (language request), summary r,
        provider request)].
Proof. unfold storedFor. destruct (_ && _); auto. Qed.

Lemma storedFor_not_text (request : ChatRequest) (r : LLMResponse) :
  isTextSummarization (messages request) = false → storedFor request r = [].
Proof. unfold storedFor. intros ->. by rewrite andb_false_r. Qed.

(** C1 (as amended). A run of [callLLMAPI] always hands back a response,
    and it writes to the cache only if the request carries a non-empty
    URL, its message sequence is exactly one message with role [user], and
    the provider call succeeded (the response is not a cached one and
    carries a summary and no error). For Claude, OpenAI and OpenRouter the
    converse holds too: such a request is written whenever its provider
    call succeeded. The force-refresh flag plays no part in the write.
    There is at most one write, of the summary handed back, under the
    request's URL, language and provider; and a request that is not a
    single user message (multi-turn chat) never causes a write. *)
Theorem cache_write_iff (env : Env) (request : ChatRequest) (s : ServiceState) :
  let run := BackgroundService.callLLMAPI env request s in
  let writes := cacheWrites s (snd run) in
  let u := default [] (url request) in
  ∃ r,
    fst run = Returned r
    ∧ (writes ≠ [] →
       truthy u = true
       ∧ isTextSummarization (messages request) = true
       ∧ providerSucceeded r)
    ∧ (provider request ≠ portkey →
       (writes ≠ [] ↔
          truthy u = true
          ∧ isTextSummarization (messages request) = true
          ∧ providerSucceeded r))
    ∧ (writes = []
       ∨ writes = [(u, language_or_default (language request), summary r, provider request)])
    ∧ (isTextSummarization (messages request) = false → writes = []).
Proof.
  intros run writes u. subst run writes.
  pose proof (callLLMAPI_run env request s) as Hrun. cbv zeta in Hrun.
  destruct Hrun as [_ [(Hnone & _ & r & Hr & Hshape)|(o & Hcalls & Ho)]].
  - exists r. rewrite Hnone. split_and!; [done | done | | by left | done].
    intros Hp. split; [done|]. intros (_ & _ & Hcache & Hsum & _).
    destruct Hshape as [Hc|[Hs|Hq]]; [done | by rewrite Hs in Hsum | done].
  - destruct o as [r|e].
    + destruct Ho as (Hout & (Hsum & Herr & Hfc & _) & Hwrites).
      exists r. rewrite Hwrites.
      assert (storedFor request r ≠ [] ↔
                truthy u = true ∧ isTextSummarization (messages request) = true
                ∧ providerSucceeded r) as Hiff.
      { rewrite storedFor_nonempty. fold u. unfold providerSucceeded.
        rewrite Hfc. split; [intros (? & ? & ? & ?) | intros (? & ? & _ & ? & ?)];
          by split_and!. }
      split_and!; [done | apply Hiff | by intros _ | | apply storedFor_not_text].
      destruct (storedFor_cases request r) as [->| ->]; [by left | by right].
    + destruct Ho as [Hout Hwrites].
      exists (BackgroundService.errorResponse e). rewrite Hwrites.
      split_and!; [done | done | | by left | done].
      intros _. split; [done|]. by intros (_ & _ & _ & Hsum & _).
Qed.

(** C1 fails as stated: a request with force-refresh set, a URL and a
    single user message, answered successfully by the provider, writes
    the summary to the cache. *)
Lemma forced_refresh_is_cached :
  let run := BackgroundService.callLLMAPI (stubEnv (okResponse (lit "X")) sdkAnswers)
               forcedRequest initialState in
  forceFresh forcedRequest = Some true
  ∧ fst run = Returned (plainResponse (lit "X"))
  ∧ cacheWrites initialState (snd run) = [(lit "https://example.com", english, lit "X", openai)].
Proof. intros run. split_and!; by vm_compute. Qed.

Lemma cache_write_iff_witness :
  let env := stubEnv (okResponse (lit "X")) sdkAnswers in
  provider forcedRequest ≠ portkey
  ∧ providerSucceeded (plainResponse (lit "X"))
  ∧ cacheWrites initialState (snd (BackgroundService.callLLMAPI env forcedRequest initialState))
    ≠ []
  ∧ isTextSummarization (messages chatRequest) = false
  ∧ cacheWrites initialState (snd (BackgroundService.callLLMAPI env chatRequest initialState))
    = [].
Proof.
  intros env.
  assert (provider forcedRequest ≠ portkey) as Hp by done.
  assert (providerSucceeded (plainResponse (lit "X"))) as Hok by (by split_and!).
  destruct (cache_write_iff env forcedRequest initialState) as (r & Hr & _ & Hiff & _).
  destruct (cache_write_iff env chatRequest initialState) as (_ & _ & _ & _ & _ & Hchat).
  assert (r = plainResponse (lit "X")) as -> by (by vm_compute in Hr; injection Hr as <-).
  split_and!; [exact Hp | exact Hok | | reflexivity | exact (Hchat eq_refl)].
  apply (Hiff Hp). split_and!; [reflexivity | reflexivity | exact Hok].
Defined.

(** The converse of C1 stops at Portkey: the request of
    [forced_refresh_is_cached] without the force-refresh flag, sent
    through Portkey and answered successfully, is not written to the
    cache, because the large-context route returns before the write;
    the comment at the write ("cache the response if successful and URL is
    provided") and the other three providers say otherwise. *)
Lemma portkey_success_is_not_cached :
  let run := BackgroundService.callLLMAPI (stubEnv (okResponse (lit "X")) sdkAnswers)
               portkeyRequest initialState in
  truthy (default [] (url portkeyRequest)) = true
  ∧ isTextSummarization (messages portkeyRequest) = true
  ∧ fst run = Returned (plainResponse (lit "S"))
  ∧ providerSucceeded (plainResponse (lit "S"))
  ∧ cacheWrites initialState (snd run) = [].
Proof. intros run. split_and!; by vm_compute. Qed.

(** C9. On a cache hit (a URL, no forced refresh, a single user message,
    and [SummaryCache.get] answers with a non-empty summary) the response
    carries the cached summary, [fromCache = true] and, as [cachedAt], the
    timestamp of the entry stored under ["<url>|<language>"]; the only
    interactions are the cache lookup and the read of the stored entry:
    no adapter is initialized or called. *)
Theorem cache_hit_skips_provider (env : Env) (request : ChatRequest) (s : ServiceState)
    (cachedSummary : jsstring) :
  let u := default [] (url request) in
  let l := language_or_default (language request) in
  let run := BackgroundService.callLLMAPI env request s in
  truthy u = true →
  default false (forceFresh request) = false →
  isTextSummarization (messages request) = true →
  SummaryCache_get env (trace s) u l = Some cachedSummary →
  truthy cachedSummary = true →
  fst run = Returned {| summary := cachedSummary; error := None; fromCache := Some true;
                        cachedAt := storedTimestamp env (trace s ++ [EvCacheGet u l]) u l |}
  ∧ trace (snd run) = trace s ++ [EvCacheGet u l; EvStorageGet]
  ∧ configs (snd run) = configs s
  ∧ newCalls s (snd run) = []
  ∧ (∀ cache entry,
       storage_local_get env (trace s ++ [EvCacheGet u l]) = Returned (Some cache) →
       cache !! (u ++ lit "|" ++ language_name l) = Some entry →
       fst run = Returned {| summary := cachedSummary; error := None; fromCache := Some true;
                             cachedAt := timestamp entry |}).
Proof.
  intros u l run Hu Hforce Htext Hget Hsumm.
  assert (run = (Returned {| summary := cachedSummary; error := None; fromCache := Some true;
                             cachedAt := storedTimestamp env (trace s ++ [EvCacheGet u l]) u l |},
                 {| pendingRequests := pendingRequests s;
                    conversationContexts := conversationContexts s;
                    configs := configs s;
                    trace := (trace s ++ [EvCacheGet u l]) ++ [EvStorageGet] |})) as Hrun.
  { subst run. unfold BackgroundService.callLLMAPI, BackgroundService.lookupCache,
      BackgroundService.SummaryCache_get', BackgroundService.getCacheEntry,
      try_catch, bind, ask, ret, storedTimestamp.
    fold u. fold l. rewrite Hu, Hforce, Htext. simpl. rewrite Hget, Hsumm. simpl.
    destruct (storage_local_get env (trace s ++ [EvCacheGet u l])) as [[cache|]|e]; done. }
  rewrite Hrun. cbn [fst snd trace configs]. split_and!.
  - done.
  - by rewrite <- app_assoc.
  - done.
  - unfold newCalls. cbn [trace]. rewrite !providerCalls_app. simpl.
    by rewrite !app_nil_r, drop_all.
  - intros cache entry Hstore Hentry. unfold storedTimestamp.
    by rewrite Hstore, Hentry.
Qed.

Lemma cache_hit_skips_provider_witness :
  let u := lit "https://example.com" in
  let run := BackgroundService.callLLMAPI cachedEnv someRequest initialState in
  fst run = Returned {| summary := lit "A cached summary"; error := None;
                        fromCache := Some true; cachedAt := Some 1699999999999 |}
  ∧ trace (snd run) = [EvCacheGet u english; EvStorageGet]
  ∧ configs (snd run) = ∅
  ∧ newCalls initialState (snd run) = [].
Proof.
  intros u run.
  destruct (cache_hit_skips_provider cachedEnv someRequest initialState
              (lit "A cached summary") eq_refl eq_refl eq_refl eq_refl eq_refl)
    as (Hres & Htrace & Hconfigs & Hcalls & _).
  split_and!; [|exact Htrace | exact Hconfigs | exact Hcalls].
  etrans; [exact Hres | by vm_compute].
Defined.

(** ** Failures: what the caller sees *)

Section FailureSurface.
Variable env : Env.

(** [callLLMAPI] never raises: its outer [catch] turns every failure into
    a response. *)
Lemma callLLMAPI_returns request s :
  ∃ r, fst (BackgroundService.callLLMAPI env request s) = Returned r.
Proof.
  unfold BackgroundService.callLLMAPI, try_catch.
  destruct (bind _ _ s) as [[r|e] s']; simpl; eauto.
Qed.

(** Processing a registered request always ends in [completed], with the
    response of [callLLMAPI] as its result; the [error] state and the
    [error] field of the pending request are never set. *)
Lemma processLLMRequest_completes requestId request s pr :
  pendingRequests s !! requestId = Some pr →
  ∃ r,
    fst (BackgroundService.processLLMRequest env requestId request s) = Returned tt
    ∧ pendingRequests (snd (BackgroundService.processLLMRequest env requestId request s))
      !! requestId
      = Some {| pr_id := pr_id pr; pr_tabUrl := pr_tabUrl pr; pr_status := Status.completed;
                pr_result := Some r; pr_error := pr_error pr;
                pr_timestamp := pr_timestamp pr |}.
Proof.
  intros Hpr.
  unfold BackgroundService.processLLMRequest, bind, getPending, setPending, try_catch.
  cbn [fst snd pendingRequests]. rewrite Hpr. cbn [fst snd].
  match goal with
  | |- context [BackgroundService.callLLMAPI env request ?s1] =>
      destruct (callLLMAPI_returns request s1) as [r Hr];
      destruct (BackgroundService.callLLMAPI env request s1) as [o s2]
  end.
  simpl in Hr. subst o. exists r. cbn [fst snd pendingRequests pr_id pr_tabUrl pr_error
    pr_timestamp]. split; [done|]. apply lookup_insert_eq.
Qed.

(** Processing never raises, registered or not. *)
Lemma processLLMRequest_returns requestId request s :
  fst (BackgroundService.processLLMRequest env requestId request s) = Returned tt.
Proof.
  unfold BackgroundService.processLLMRequest, bind, getPending. cbn [fst snd].
  destruct (pendingRequests s !! requestId) as [pr|] eqn:Hpr; [|done].
  unfold setPending at 1. cbn [fst snd]. unfold try_catch, bind.
  match goal with
  | |- context [BackgroundService.callLLMAPI env request ?s1] =>
      destruct (callLLMAPI_returns request s1) as [r Hr];
      destruct (BackgroundService.callLLMAPI env request s1) as [o s2]
  end.
  simpl in Hr. by subst o.
Qed.

(** Submitting a request never raises: the caller always gets an id. *)
Lemma startLLMRequest_returns request requestId s :
  ∃ id, fst (BackgroundService.startLLMRequest env request requestId s) = Returned id.
Proof.
  unfold BackgroundService.startLLMRequest, bind, try_catch.
  set (pickId := match requestId with
                 | Some i => if truthy i then ret i else BackgroundService.generateRequestId env
                 | None => BackgroundService.generateRequestId env
                 end).
  assert (∃ id s1, pickId s = (Returned id, s1)) as (id & s1 & ->).
  { subst pickId. destruct requestId as [i|]; [destruct (truthy i)|]; eauto. }
  unfold BackgroundService.now, ask, setPending, ret. cbn [fst snd].
  match goal with
  | |- context [BackgroundService.processLLMRequest env id request ?s2] =>
      pose proof (processLLMRequest_returns id request s2) as Hp;
      destruct (BackgroundService.processLLMRequest env id request s2) as [o s3]
  end.
  simpl in Hp. subst o. eauto.
Qed.

End FailureSurface.

(** C5, the code at a failing input. The provider answers the request
    with status 429; the request submitted under the id ["req_1"] ends in
    the state [completed], its own [error] field unset, with a result
    whose [error] field carries the message (including the rate-limit
    hint); the synchronous path returns that same result object. The
    state [error] is not entered (and by [processLLMRequest_completes]
    never is). *)
Theorem failed_request_ends_completed :
  let env := stubEnv rateLimited sdkAnswers in
  let failure :=
    {| summary := []; error := Some (nonOkMessage openai rateLimited);
       fromCache := None; cachedAt := None |} in
  let run := BackgroundService.startLLMRequest env someRequest (Some (lit "req_1"))
               initialState in
  fst run = Returned (lit "req_1")
  ∧ pendingRequests (snd run) !! lit "req_1"
    = Some {| pr_id := lit "req_1"; pr_tabUrl := lit "https://example.com";
              pr_status := Status.completed; pr_result := Some failure;
              pr_error := None; pr_timestamp := 1700000000000 |}
  ∧ fst (BackgroundService.callLLMAPI env someRequest initialState) = Returned failure
  ∧ includes (lit "Tip: Rate limit exceeded") (nonOkMessage openai rateLimited) = true.
Proof. intros env failure run. split_and!; by vm_compute. Qed.

Section FailureConversion.
Variable env : Env.
Variable thrownBy : APIProvider → JsThrown.
Hypothesis Hadapter : ∀ p input l custom s config,
  configs s !! p = Some config →
  truthy (cfg_apiKey config) = true →
  fst (adapterCallAPI env p input l custom s) = Thrown (thrownBy p).
Hypothesis Hmiss : ∀ t u l, SummaryCache_get env t u l = None.

Lemma lookupCache_miss request s :
  fst (BackgroundService.lookupCache env request s) = Returned None.
Proof.
  unfold BackgroundService.lookupCache, BackgroundService.SummaryCache_get', bind, ask, ret.
  destruct (_ && _); [|done]. cbn [fst snd]. by rewrite Hmiss.
Qed.

Lemma rememberContext_run request s :
  fst (BackgroundService.rememberContext request s) = Returned tt
  ∧ configs (snd (BackgroundService.rememberContext request s)) = configs s.
Proof. unfold BackgroundService.rememberContext. by destruct (tabId request). Qed.

Lemma initialize_run p c s :
  fst (initialize p c s) = Returned tt ∧ configs (snd (initialize p c s)) !! p = Some c.
Proof.
  unfold initialize, bind, setConfig, emit. cbn [fst snd configs].
  split; [done|]. apply lookup_insert_eq.
Qed.

Lemma large_call_fails m l c s config :
  configs s !! portkey = Some config → truthy (cfg_apiKey config) = true →
  fst (observed portkey (CallLargeContextAPI m) (PortkeyAPI.callLargeContextAPI env m l c) s)
  = Thrown (thrownBy portkey).
Proof.
  intros Hcfg Hkey. unfold observed, PortkeyAPI.callLargeContextAPI.
  pose proof (Hadapter portkey
                (Msgs (processLargeContext m (maxTokens (getPromptConfig l c)))) l c s config
                Hcfg Hkey) as H.
  simpl in H. by destruct (PortkeyAPI.callAPI env _ l c s) as [o s'].
Qed.

Lemma refreshSummary_first l c ctx summ s :
  BackgroundService.refreshSummary env l c 0 ctx summ s = (Returned summ, s).
Proof.
  unfold BackgroundService.refreshSummary.
  rewrite (bool_decide_false (0 < 0)%nat) by lia. done.
Qed.

Lemma chunkedLoop_first_fails n l c chunks ctx summ s config :
  chunks ≠ [] →
  configs s !! portkey = Some config → truthy (cfg_apiKey config) = true →
  fst (BackgroundService.chunkedLoop env n l c chunks 0 ctx summ s)
  = Thrown (thrownBy portkey).
Proof.
  intros Hne Hcfg Hkey. destruct chunks as [|chunk rest]; [done|].
  cbn [BackgroundService.chunkedLoop].
  unfold bind. rewrite refreshSummary_first.
  unfold BackgroundService.processChunk, try_catch, bind.
  cbn [BackgroundService.getApiProvider apiProviders callLargeContextAPI].
  pose proof (large_call_fails (integrateSummaryWithChunk chunk summ l) l c s config Hcfg Hkey)
    as H.
  by destruct (observed portkey _ _ s) as [[?|?] ?]; simpl in H; simplify_eq.
Qed.

(** Every path of [callLLMAPI] that reaches the provider ends in the
    response carrying the message of what the adapter raised in its
    [error] field. *)
Lemma callLLMAPI_converts request s :
  truthy (apiKey request) = true →
  fst (BackgroundService.callLLMAPI env request s)
  = Returned (BackgroundService.errorResponse (thrownBy (provider request))).
Proof.
  intros Hkey.
  unfold BackgroundService.callLLMAPI, try_catch, bind.
  pose proof (lookupCache_miss request s) as HA.
  destruct (BackgroundService.lookupCache env request s) as [oa s1]. simpl in HA. subst oa.
  destruct (rememberContext_run request s1) as [HB _].
  destruct (BackgroundService.rememberContext request s1) as [ob s2]. simpl in HB. subst ob.
  unfold BackgroundService.initializeApiProvider.
  destruct (initialize_run (provider request) (BackgroundService.configOf request) s2)
    as [HC Hcfg].
  destruct (initialize (provider request) (BackgroundService.configOf request) s2) as [oc s3].
  simpl in HC, Hcfg. subst oc. cbn beta iota.
  unfold BackgroundService.routeLargeContext.
  case_bool_decide as Hp.
  - (* Portkey: the large-context route *)
    rewrite Hp in Hcfg |- *.
    cbn [BackgroundService.getApiProvider apiProviders callLargeContextAPI].
    case_bool_decide as Hbig; unfold bind.
    + unfold BackgroundService.handleExtremelyLargeContext, bind.
      destruct (initialize_run portkey (BackgroundService.configOf request) s3) as [HD Hcfg'].
      destruct (initialize portkey (BackgroundService.configOf request) s3) as [od s4].
      simpl in HD, Hcfg'. subst od. cbn beta iota.
      rewrite bool_decide_false by (unfold DIRECT_THRESHOLD in *; lia).
      assert (chunkLargeContext (messages request) ≠ []) as Hne.
      { apply chunkLargeContext_nonempty, estimate_positive_nonempty. lia. }
      pose proof (chunkedLoop_first_fails (length (chunkLargeContext (messages request)))
                    (language_or_default (language request)) (customPrompts request)
                    (chunkLargeContext (messages request)) [] [] s4
                    (BackgroundService.configOf request) Hne Hcfg' Hkey) as H.
      by destruct (BackgroundService.chunkedLoop env _ _ _ _ _ _ _ s4) as [[?|?] ?];
        simpl in H; simplify_eq.
    + pose proof (large_call_fails (messages request) (language_or_default (language request))
                    (customPrompts request) s3 (BackgroundService.configOf request) Hcfg Hkey)
        as H.
      by destruct (observed portkey _ _ s3) as [[?|?] ?]; simpl in H; simplify_eq.
  - (* the other providers: the call itself *)
    unfold ret at 1. cbn beta iota.
    unfold BackgroundService.getApiProvider. rewrite callAPI_observed.
    pose proof (Hadapter (provider request)
                  (Msgs (messages request)) (language_or_default (language request))
                  (customPrompts request) s3 (BackgroundService.configOf request) Hcfg Hkey)
      as H.
    unfold observed.
    by destruct (adapterCallAPI env (provider request) _ _ _ s3) as [[?|?] ?];
      simpl in H; simplify_eq.
Qed.

End FailureConversion.

(** C6 (as amended). When the vendor answers with a status outside the
    2xx range, the [callAPI] of every adapter raises; the conversion into
    a result object is done by the caller. For a body that is not [null]
    the adapter throws an [Error] whose message is its label (which names
    the provider, except for OpenRouter, whose label is
    ["API request failed"]), the status code and the status text in
    brackets, a colon and the vendor's detail (the message of the body's
    [error], else the body's [message], else ["Unknown error"]), followed
    by a hint, two line breaks and ["Tip: ..."], exactly for the status
    codes 401, 429 and 500 and above, for 404 with OpenAI and for 403 with
    Portkey, and never with Claude; Portkey puts
    ["Portkey API request failed: "] in front of all that. [callLLMAPI]
    then answers with an empty summary and that message in the [error]
    field. For a body that is [null] the adapter raises the [TypeError] of
    the property read (wrapped by Portkey), which [callLLMAPI] converts in
    the same way. *)
Theorem adapter_failure_is_thrown_then_converted (env : Env) (r : HttpResponse)
    (p : APIProvider) (input : MessagesOrText) (l : Language) (custom : option CustomPrompts)
    (s : ServiceState) (config : APIConfig) (request : ChatRequest) :
  vendorAnswers env r →
  ok r = false →
  (wellFormed r →
   (∀ q, isHint q (status r) (hintOf q (status r)))
   ∧ (configs s !! p = Some config →
      truthy (cfg_apiKey config) = true →
      fst (adapterCallAPI env p input l custom s)
      = Thrown (JsError (wrapped p (failureText p r ++ hintOf p (status r)))))
   ∧ ((∀ t u l', SummaryCache_get env t u l' = None) →
      truthy (apiKey request) = true →
      fst (BackgroundService.callLLMAPI env request s)
      = Returned {| summary := [];
                    error := Some (wrapped (provider request)
                                     (failureText (provider request) r
                                      ++ hintOf (provider request) (status r)));
                    fromCache := None; cachedAt := None |}))
  ∧ (json r = Returned None →
     (configs s !! p = Some config →
      truthy (cfg_apiKey config) = true →
      fst (adapterCallAPI env p input l custom s) = Thrown (nullBodyThrown p))
     ∧ ((∀ t u l', SummaryCache_get env t u l' = None) →
        truthy (apiKey request) = true →
        fst (BackgroundService.callLLMAPI env request s)
        = Returned {| summary := [];
                      error := Some (wrapped (provider request)
                                       (lit "Cannot read properties of null (reading 'error')"));
                      fromCache := None; cachedAt := None |})).
Proof.
  intros Hvendor Hnot_ok. split.
  - intros Hwell. split_and!.
    + intros q. apply hintOf_isHint.
    + by apply (adapter_throws_on_failure_status env r).
    + intros Hmiss Hkey.
      by rewrite (callLLMAPI_converts env (fun q => JsError (nonOkMessage q r))
                    (fun q i l0 c0 s0 cfg0 =>
                       adapter_throws_on_failure_status env r Hvendor Hnot_ok q i l0 c0 s0 cfg0
                         Hwell) Hmiss request s Hkey).
  - intros Hnull. split.
    + by apply (adapter_throws_on_null_body env r).
    + intros Hmiss Hkey.
      rewrite (callLLMAPI_converts env nullBodyThrown
                 (fun q i l0 c0 s0 cfg0 =>
                    adapter_throws_on_null_body env r Hvendor Hnot_ok q i l0 c0 s0 cfg0 Hnull)
                 Hmiss request s Hkey).
      by destruct (provider request).
Qed.

Lemma adapter_failure_is_thrown_then_converted_witness :
  vendorAnswers rateLimitedEnv rateLimited
  ∧ ok rateLimited = false
  ∧ isHint portkey 429 (nl ++ nl ++ lit "Tip: You have hit rate limits. Please wait before trying again.")
  ∧ fst (adapterCallAPI rateLimitedEnv portkey (Msgs smallMessages) english None
           (configuredState portkey))
    = Thrown (JsError
                (lit "Portkey API request failed: Portkey API request failed (429 Too Many Requests): Rate limit reached"
                 ++ nl ++ nl
                 ++ lit "Tip: You have hit rate limits. Please wait before trying again."))
  ∧ fst (BackgroundService.callLLMAPI rateLimitedEnv someRequest initialState)
    = Returned {| summary := [];
                  error := Some (lit "OpenAI API request failed (429 Too Many Requests): Rate limit reached"
                                 ++ nl ++ nl
                                 ++ lit "Tip: Rate limit exceeded. Please wait before trying again or check your usage limits.");
                  fromCache := None; cachedAt := None |}.
Proof.
  assert (vendorAnswers rateLimitedEnv rateLimited) as Hvendor.
  { split; intros t req; [reflexivity | eexists; reflexivity]. }
  assert (ok rateLimited = false) as Hnot_ok by reflexivity.
  assert (wellFormed rateLimited) as Hwell by done.
  destruct (adapter_failure_is_thrown_then_converted rateLimitedEnv rateLimited portkey
              (Msgs smallMessages) english None (configuredState portkey) someConfig
              someRequest Hvendor Hnot_ok) as [Hformed _].
  destruct (Hformed Hwell) as (Hhint & Hthrown & Hconverted).
  split_and!; [exact Hvendor | exact Hnot_ok | exact (Hhint portkey) | |].
  - apply Hthrown; by vm_compute.
  - apply Hconverted; [intros; reflexivity | reflexivity].
Defined.

(** C6 fails as stated: answered with status 429, the OpenAI adapter's
    [callAPI] throws. *)
Lemma adapter_throws_on_429 :
  ok rateLimited = false
  ∧ fst (OpenAIAPI.callAPI (stubEnv rateLimited sdkAnswers) (Msgs smallMessages) english None
           (configuredState openai))
    = Thrown (JsError
                (lit "OpenAI API request failed (429 Too Many Requests): Rate limit reached"
                 ++ nl ++ nl
                 ++ lit "Tip: Rate limit exceeded. Please wait before trying again or check your usage limits.")).
Proof. split; by vm_compute. Qed.

(** ** Prompt resolution *)

Section PromptFacts.

Lemma getPromptConfig_default (l : Language) (custom : option CustomPrompts) :
  (custom = None ∨ ∃ c, custom = Some c ∧ custom_at c l = None) →
  getPromptConfig l custom = DEFAULT_PROMPTS l.
Proof. intros [->|(c & -> & Hc)]; [done|]. unfold getPromptConfig. by rewrite Hc. Qed.

Lemma getPromptConfig_custom (l : Language) (c : CustomPrompts) (pc : PromptConfig) :
  custom_at c l = Some pc → getPromptConfig l (Some c) = pc.
Proof. intros Hc. unfold getPromptConfig. by rewrite Hc. Qed.

(** A replacement text without [$] is inserted as it is. *)
Lemma getSubstitution_plain (matched before after replacement : jsstring) :
  DOLLAR ∉ replacement → getSubstitution matched before after replacement = replacement.
Proof.
  induction replacement as [|c r IH]; [done|].
  intros Hno. apply not_elem_of_cons in Hno as [Hc Hr].
  cbn [getSubstitution]. destruct r as [|d r']; [done|].
  rewrite (bool_decide_false (c = DOLLAR)) by done.
  f_equal. by apply IH.
Qed.

Lemma startsWith_app (p s : jsstring) : startsWith p (p ++ s) = true.
Proof. induction p as [|a p IH]; [done|]. simpl. by rewrite bool_decide_true, IH. Qed.

(** [replace] on a template whose first placeholder is at the end of
    [pre], for a text without [$]: the text takes the placeholder's
    place. *)
Lemma replace_plain (pre post pattern text : jsstring) :
  indexOf pattern (pre ++ pattern ++ post) = Some (length pre) →
  DOLLAR ∉ text →
  replace (pre ++ pattern ++ post) pattern text = pre ++ text ++ post.
Proof.
  intros Hidx Hno. unfold replace. rewrite Hidx. cbn zeta.
  rewrite take_app_length.
  rewrite drop_app_add', drop_app_length by done.
  by rewrite getSubstitution_plain.
Qed.

Lemma createPrompt_default_plain (text : jsstring) (l : Language) :
  DOLLAR ∉ text →
  createPrompt text l None = defaultLead l ++ text.
Proof.
  intros Hno. unfold createPrompt. cbn [getPromptConfig].
  assert (userPrompt (DEFAULT_PROMPTS l) = defaultLead l ++ TEXT_PLACEHOLDER ++ []) as ->
    by (destruct l; by vm_compute).
  rewrite replace_plain; [by rewrite app_nil_r | | done].
  destruct l; by vm_compute.
Qed.

(** The shape of what a text is resolved to: one user message
    ([textToChatMessages], Claude) or a system message and a user message
    (OpenAI, OpenRouter, Portkey); a message sequence is passed on as it
    is; the templates are the custom ones for the language when supplied
    and the built-in ones otherwise. *)
Lemma prompt_resolution_shape (text : jsstring) (l : Language)
    (custom : option CustomPrompts) (msgs : list ChatMessage) :
  let cfg := getPromptConfig l custom in
  let userMessage :=
    {| role := user; content := replace (userPrompt cfg) TEXT_PLACEHOLDER text |} in
  textToChatMessages text (Some l) custom = [userMessage]
  ∧ ClaudeAPI.toMessages (Text text) l custom = [userMessage]
  ∧ toMessages (Text text) l custom
    = [ {| role := system; content := systemPrompt cfg |}; userMessage ]
  ∧ ClaudeAPI.toMessages (Msgs msgs) l custom = msgs
  ∧ toMessages (Msgs msgs) l custom = msgs.
Proof. done. Qed.

End PromptFacts.

(** C7, the code at a failing input. The page text ["Price: $$5"] is
    resolved, with the built-in English template, to a user message that
    reads ["...Price: $5"]: [String.prototype.replace] expands [$$] (and
    [$&], [$`], [$']) in the text it inserts, so the text does not arrive
    as it is. For a text without [$] it does
    ([createPrompt_default_plain]), and the shape of the resolution is as
    described ([prompt_resolution_shape], [getPromptConfig_default]). *)
Theorem dollar_in_text_is_rewritten :
  let text := lit "Price: $$5" in
  textToChatMessages text (Some english) None
  = [ {| role := user; content := defaultLead english ++ lit "Price: $5" |} ]
  ∧ textToChatMessages text (Some english) None
    ≠ [ {| role := user; content := defaultLead english ++ text |} ]
  ∧ toMessages (Text (lit "see $& above")) english None
    = [ {| role := system; content := systemPrompt (DEFAULT_PROMPTS english) |};
        {| role := user; content := defaultLead english ++ lit "see {text} above" |} ].
Proof. intros text. split_and!; by vm_compute. Qed.

(** * Further properties of the code *)

(** ** The chunker is greedy *)

Section GreedyFacts.

Lemma greedy_cons c chunks :
  (∀ m rest, head chunks = Some (m :: rest) → totalLength c + contentLength m > maxChunkSize) →
  greedy chunks → greedy (c :: chunks).
Proof.
  intros Hhead Hrest [|i] c1 m rest H1 H2; simpl in *.
  - simplify_eq. apply (Hhead m rest). by destruct chunks.
  - by apply (Hrest i c1 m rest).
Qed.

Lemma chunkLoop_acc msgs a b cur sz :
  chunkLoop msgs (a ++ b) cur sz = a ++ chunkLoop msgs b cur sz.
Proof.
  revert b cur sz. induction msgs as [|m msgs IH]; intros b cur sz; simpl.
  - case_bool_decide; [by rewrite app_assoc | done].
  - destruct (_ && _); [by rewrite <- app_assoc, IH | apply IH].
Qed.

Lemma chunkLoop_greedy msgs : ∀ cur,
  (cur = [] ∧ msgs = [] ∧ chunkLoop msgs [] cur (totalLength cur) = [])
  ∨ ∃ ext chunks,
      chunkLoop msgs [] cur (totalLength cur) = (cur ++ ext) :: chunks
      ∧ greedy ((cur ++ ext) :: chunks)
      ∧ (length chunks + length (cur ++ ext) <= length cur + length msgs)%nat.
Proof.
  induction msgs as [|m msgs IH]; intros cur; simpl.
  - destruct cur as [|c cur]; [by left|]. right. exists [], [].
    rewrite app_nil_r. simpl. split_and!; [done | | lia].
    intros [|i] ? ? ? ? ?; simplify_eq.
  - right.
    destruct (bool_decide (totalLength cur + contentLength m > maxChunkSize)) eqn:Hover;
      destruct (bool_decide (0 < length cur)%nat) eqn:Hlen; simpl.
    + apply bool_decide_eq_true in Hover.
      rewrite (chunkLoop_acc msgs [cur] []).
      destruct (IH [m]) as [(? & _)|(ext & chunks & Hres & Hg & Hn)]; [done|].
      assert (contentLength m = totalLength [m]) as Hm
        by (by rewrite totalLength_cons, totalLength_nil, Z.add_0_r).
      rewrite Hm, Hres. exists [], (([m] ++ ext) :: chunks).
      rewrite app_nil_r. split_and!; [done | |].
      * apply greedy_cons; [|done]. simpl. intros ? ? [= <- <-]. done.
      * simpl in *. lia.
    + apply bool_decide_eq_false in Hlen.
      assert (cur = []) as -> by (destruct cur; [done | simpl in Hlen; lia]).
      simpl. rewrite totalLength_nil, Z.add_0_l.
      destruct (IH [m]) as [(? & _)|(ext & chunks & Hres & Hg & Hn)]; [done|].
      assert (contentLength m = totalLength [m]) as Hm
        by (by rewrite totalLength_cons, totalLength_nil, Z.add_0_r).
      rewrite Hm, Hres. exists (m :: ext), chunks. split_and!; [done | done | simpl in *; lia].
    + destruct (IH (cur ++ [m])) as [(Hnil & _)|(ext & chunks & Hres & Hg & Hn)];
        [by destruct cur|].
      rewrite totalLength_app, totalLength_cons, totalLength_nil, Z.add_0_r in Hres.
      rewrite Hres. exists (m :: ext), chunks. rewrite <- app_assoc in Hg, Hn |- *.
      split_and!; [done | done |]. rewrite !length_app in Hn. rewrite !length_app. simpl in *. lia.
    + apply bool_decide_eq_false in Hlen.
      assert (cur = []) as -> by (destruct cur; [done | simpl in Hlen; lia]).
      simpl. rewrite totalLength_nil, Z.add_0_l.
      destruct (IH [m]) as [(? & _)|(ext & chunks & Hres & Hg & Hn)]; [done|].
      assert (contentLength m = totalLength [m]) as Hm
        by (by rewrite totalLength_cons, totalLength_nil, Z.add_0_r).
      rewrite Hm, Hres. exists (m :: ext), chunks. split_and!; [done | done | simpl in *; lia].
Qed.

End GreedyFacts.

(** X1. The chunker is greedy: a chunk is closed only when the next
    message would take it over the budget, so no two adjacent chunks
    could have been merged up to the first message of the second. There
    are never more chunks than messages, an empty sequence gives no
    chunk, and a sequence within the budget is one chunk. *)
Theorem chunker_is_greedy (msgs : list ChatMessage) :
  greedy (chunkLargeContext msgs)
  ∧ (length (chunkLargeContext msgs) <= length msgs)%nat
  ∧ (msgs = [] → chunkLargeContext msgs = [])
  ∧ (msgs ≠ [] → totalLength msgs <= maxChunkSize → chunkLargeContext msgs = [msgs]).
Proof.
  unfold chunkLargeContext.
  destruct (chunkLoop_greedy msgs []) as [(_ & -> & Hres)|(ext & chunks & Hres & Hg & Hn)].
  - simpl. split_and!; [|done..]. intros [|i] ? ? ? ? ?; simplify_eq.
  - rewrite totalLength_nil in Hres. rewrite Hres. simpl in *.
    split_and!; [done | | |].
    + destruct ext; simpl in *; [|lia].
      pose proof (chunkLoop_wellSized msgs [] [] 0 ltac:(done) ltac:(done) ltac:(by left)) as Hw.
      rewrite Hres in Hw. apply Forall_cons_1 in Hw as [[Hne _] _]. done.
    + intros ->. done.
    + intros Hne Hsmall.
      pose proof (chunkLoop_concat msgs [] [] 0) as Hc. rewrite Hres in Hc. simpl in Hc.
      destruct chunks as [|c chunks]; [simpl in Hc; rewrite app_nil_r in Hc; by subst|].
      exfalso.
      pose proof (chunkLoop_wellSized msgs [] [] 0 ltac:(done) ltac:(done) ltac:(by left)) as Hw.
      rewrite Hres in Hw. apply Forall_cons_1 in Hw as [_ Hw].
      apply Forall_cons_1 in Hw as [[Hcne _] _].
      destruct c as [|m c]; [done|].
      specialize (Hg 0%nat ext m c eq_refl eq_refl).
      subst msgs. simpl in Hsmall.
      rewrite totalLength_app, totalLength_cons in Hsmall.
      pose proof (totalLength_nonneg (c ++ concat chunks)). lia.
Qed.

(** ** The token budget of the truncation *)

Section TruncationBounds.

Lemma estimateTokens_truncated (m : ChatMessage) (a : Z) :
  estimateTokens (content (truncated m (a * 4))) <= Z.max a 0 + 1.
Proof.
  unfold truncated, estimateTokens, ceil4, substring0, ELLIPSIS. cbn [content].
  rewrite length_app, length_take. change (length (lit "...")) with 3%nat.
  transitivity ((2 + (Z.max a 0 + 1) * 4) / 4).
  - apply Z.div_le_mono; lia.
  - rewrite Z.div_add by lia. change (2 / 4) with 0. lia.
Qed.

Lemma sumTokens_leadingSystem_length (msgs : list ChatMessage) :
  (length (leadingSystem msgs) + length (drop 1 msgs) <= length msgs)%nat.
Proof.
  destruct msgs as [|m0 msgs]; simpl; [lia|].
  rewrite drop_0. case_bool_decide; simpl; lia.
Qed.

Lemma processLargeContext_bound (msgs : list ChatMessage) (maxTok : Z) :
  sumTokens (processLargeContext msgs maxTok)
  <= Z.max (availableTokensOf maxTok) (sumTokens (leadingSystem msgs)) + 1
  ∧ (length (processLargeContext msgs maxTok) <= length msgs)%nat.
Proof.
  destruct (processLargeContext_shape msgs maxTok)
    as (older & newer & cut & Hdrop & -> & Hbound & Hcut).
  pose proof (sumTokens_leadingSystem_length msgs) as Hlen.
  rewrite Hdrop, length_app in Hlen.
  rewrite !sumTokens_app, !length_app.
  destruct Hcut as [[-> ->]|(older' & m & -> & -> & Hover)].
  - split; [|simpl in *; lia].
    change (sumTokens []) with 0.
    destruct newer as [|n newer]; [change (sumTokens []) with 0; lia|].
    specialize (Hbound ltac:(done)). lia.
  - split; [|rewrite length_app in Hlen; simpl in *; lia].
    set (T := sumTokens (leadingSystem msgs) + sumTokens newer) in *.
    assert (sumTokens [truncated m ((availableTokensOf maxTok - T) * 4)]
            = estimateTokens (content (truncated m ((availableTokensOf maxTok - T) * 4)))) as ->
      by (unfold sumTokens; simpl; lia).
    pose proof (estimateTokens_truncated m (availableTokensOf maxTok - T)) as Hcut.
    destruct (decide (0 <= availableTokensOf maxTok - T)) as [Hpos|Hneg]; [lia|].
    + destruct newer as [|n newer].
      * change (sumTokens []) with 0 in *. lia.
      * specialize (Hbound ltac:(done)). lia.
Qed.

End TruncationBounds.

(** X2. Token budget of the truncation. What [processLargeContext]
    returns is estimated at no more than one token above the larger of
    the available budget (the budget minus the third reserved for the
    reply) and the estimate of the leading system message; the one token
    is the ["..."] appended to a truncated message. The result never has
    more messages than the input. *)
Theorem processLargeContext_budget (msgs : list ChatMessage) (maxTok : Z) :
  sumTokens (processLargeContext msgs maxTok)
  <= Z.max (availableTokensOf maxTok) (sumTokens (leadingSystem msgs)) + 1
  ∧ (length (processLargeContext msgs maxTok) <= length msgs)%nat.
Proof. apply processLargeContext_bound. Qed.

(** X3. The first message is kept only when it is a system message:
    [slice(1)] skips it whatever its role. A lone message that is not a
    system message is reduced to the empty sequence, and in general the
    result is built from the messages after the first alone (each kept
    whole or truncated). *)
Theorem processLargeContext_skips_first (m0 : ChatMessage) (rest : list ChatMessage)
    (maxTok : Z) :
  role m0 ≠ system →
  processLargeContext [m0] maxTok = []
  ∧ (length (processLargeContext (m0 :: rest) maxTok) <= length rest)%nat
  ∧ ∀ m, m ∈ processLargeContext (m0 :: rest) maxTok →
         m ∈ rest ∨ ∃ m' chars, m' ∈ rest ∧ m = truncated m' chars.
Proof.
  intros Hrole.
  assert (∀ l, leadingSystem (m0 :: l) = []) as Hlead
    by (intros l; simpl; by rewrite bool_decide_false).
  split; [|split].
  - unfold processLargeContext. simpl. by rewrite bool_decide_false.
  - destruct (processLargeContext_shape (m0 :: rest) maxTok)
      as (older & newer & cut & Hdrop & -> & _ & Hcut).
    simpl in Hdrop. rewrite drop_0 in Hdrop. subst rest.
    rewrite Hlead, app_nil_r, !length_app.
    destruct Hcut as [[-> ->]|(older' & m & -> & -> & _)]; [simpl; lia|].
    rewrite length_app. simpl. lia.
  - intros m.
    destruct (processLargeContext_shape (m0 :: rest) maxTok)
      as (older & newer & cut & Hdrop & -> & _ & Hcut).
    simpl in Hdrop. rewrite drop_0 in Hdrop. subst rest.
    rewrite Hlead, app_nil_r, !elem_of_app.
    intros [Hm|Hm]; [|by left; right].
    destruct Hcut as [[-> ->]|(older' & m' & -> & -> & _)]; [by apply elem_of_nil in Hm|].
    apply list_elem_of_singleton in Hm as ->.
    right. eexists m', _. split; [|done]. rewrite !elem_of_app, list_elem_of_singleton. auto.
Qed.

Lemma processLargeContext_skips_first_witness :
  role {| role := user; content := lit "Summarize: hello" |} ≠ system
  ∧ processLargeContext [ {| role := user; content := lit "Summarize: hello" |} ] 1000 = [].
Proof.
  assert (role {| role := user; content := lit "Summarize: hello" |} ≠ system) as H by done.
  split; [done|].
  exact (proj1 (processLargeContext_skips_first
                  {| role := user; content := lit "Summarize: hello" |} [] 1000 H)).
Defined.

(** ** What a request leaves behind in the service *)

Section QuietFacts.

Lemma quiet_ret {A} (a : A) : quiet (ret a).
Proof. done. Qed.

Lemma quiet_throw {A} (e : JsThrown) : quiet (@throw A e).
Proof. done. Qed.

Lemma quiet_bind {A B} (m : M A) (k : A → M B) :
  quiet m → (∀ a, quiet (k a)) → quiet (bind m k).
Proof.
  intros Hm Hk s. unfold bind. destruct (Hm s) as [H1 H2].
  destruct (m s) as [[a|e] s']; simpl in *; [|done].
  destruct (Hk a s') as [H3 H4]. split; congruence.
Qed.

Lemma quiet_try {A} (m : M A) (h : JsThrown → M A) :
  quiet m → (∀ e, quiet (h e)) → quiet (try_catch m h).
Proof.
  intros Hm Hh s. unfold try_catch. destruct (Hm s) as [H1 H2].
  destruct (m s) as [[a|e] s']; simpl in *; [done|].
  destruct (Hh e s') as [H3 H4]. split; congruence.
Qed.

Lemma quiet_emit (e : Event) : quiet (emit e).
Proof. done. Qed.

Lemma quiet_ask {A} (answer : list Event → Outcome A) (e : Event) : quiet (ask answer e).
Proof. done. Qed.

Lemma quiet_getConfigs : quiet getConfigs.
Proof. done. Qed.

Lemma quiet_lift {A} (o : Outcome A) : quiet (lift o).
Proof. done. Qed.

Lemma quiet_observed p call (m : M LLMResponse) : quiet m → quiet (observed p call m).
Proof. intros Hm s. unfold observed. specialize (Hm s). by destruct (m s) as [o s']. Qed.

Lemma quiet_networkCatch {A} msg e : quiet (@networkCatch A msg e).
Proof. unfold networkCatch. destruct e; try done. by destruct (includes _ _). Qed.

End QuietFacts.

Ltac quiet_step :=
  match goal with
  | |- quiet (ret _) => apply quiet_ret
  | |- quiet (throw _) => apply quiet_throw
  | |- quiet (bind _ _) => apply quiet_bind; [|intros ?]
  | |- quiet (try_catch _ _) => apply quiet_try; [|intros ?]
  | |- quiet (emit _) => apply quiet_emit
  | |- quiet (ask _ _) => apply quiet_ask
  | |- quiet getConfigs => apply quiet_getConfigs
  | |- quiet (lift _) => apply quiet_lift
  | |- quiet (observed _ _ _) => apply quiet_observed
  | |- quiet (networkCatch _ _) => apply quiet_networkCatch
  | |- quiet (match ?x with _ => _ end) => destruct x
  | |- quiet (if ?x then _ else _) => destruct x
  end.

Section QuietService.
Variable env : Env.

Lemma quiet_portkey i l c : quiet (PortkeyAPI.callAPI env i l c).
Proof.
  unfold PortkeyAPI.callAPI, PortkeyAPI.callDirectChatAPI, validateConfig, readConfig, doFetch.
  repeat quiet_step.
Qed.

Lemma quiet_adapter p i l c : quiet (adapterCallAPI env p i l c).
Proof.
  destruct p; simpl; [| | |apply quiet_portkey].
  - unfold ClaudeAPI.callAPI, validateConfig, readConfig, doFetch. repeat quiet_step.
  - unfold OpenAIAPI.callAPI, validateConfig, readConfig, doFetch. repeat quiet_step.
  - unfold OpenRouterAPI.callAPI, validateConfig, readConfig, doFetch. repeat quiet_step.
Qed.

Lemma quiet_callAPI p i l c : quiet (callAPI (apiProviders env p) i l c).
Proof. rewrite callAPI_observed. apply quiet_observed, quiet_adapter. Qed.

Lemma quiet_large m l c :
  quiet (observed portkey (CallLargeContextAPI m) (PortkeyAPI.callLargeContextAPI env m l c)).
Proof. apply quiet_observed. unfold PortkeyAPI.callLargeContextAPI. apply quiet_portkey. Qed.

Lemma quiet_chunkedLoop n l c chunks :
  ∀ i ctx summ, quiet (BackgroundService.chunkedLoop env n l c chunks i ctx summ).
Proof.
  induction chunks as [|chunk rest IH]; intros i ctx summ; cbn [BackgroundService.chunkedLoop].
  - apply quiet_throw.
  - apply quiet_bind.
    { unfold BackgroundService.refreshSummary. destruct (_ && _); repeat quiet_step.
      apply quiet_callAPI. }
    intros summ'. apply quiet_bind.
    { unfold BackgroundService.processChunk.
      cbn [BackgroundService.getApiProvider apiProviders callLargeContextAPI].
      apply quiet_try; [|intros ?; apply quiet_throw].
      apply quiet_bind; [apply quiet_large | intros ?; apply quiet_ret]. }
    intros done. destruct (bool_decide _); [apply quiet_ret | apply IH].
Qed.

Lemma quiet_lookupCache request : quiet (BackgroundService.lookupCache env request).
Proof.
  unfold BackgroundService.lookupCache, BackgroundService.SummaryCache_get',
    BackgroundService.getCacheEntry.
  repeat quiet_step.
Qed.

Lemma quiet_storeInCache request r : quiet (BackgroundService.storeInCache request r).
Proof.
  unfold BackgroundService.storeInCache, BackgroundService.SummaryCache_set.
  repeat quiet_step.
Qed.

(** What the cache lookup returns is a cached summary. *)
Lemma returns_lookupCache request :
  returns (fun o => ∀ r, o = Some r →
                         truthy (summary r) = true ∧ error r = None ∧ fromCache r = Some true)
    (BackgroundService.lookupCache env request).
Proof.
  unfold BackgroundService.lookupCache, BackgroundService.SummaryCache_get',
    BackgroundService.getCacheEntry.
  destruct (_ && _); [|by apply returns_ret].
  intros s. unfold bind, ask, try_catch, ret. cbn [fst snd].
  destruct (SummaryCache_get env _ _ _) as [summ|]; [|done].
  destruct (truthy summ) eqn:Hs; [|done].
  destruct (storage_local_get env _) as [?|?]; simpl; by intros ? [= <-].
Qed.

Lemma lookupCache_total request s :
  ∃ o, fst (BackgroundService.lookupCache env request s) = Returned o.
Proof.
  unfold BackgroundService.lookupCache, BackgroundService.SummaryCache_get',
    BackgroundService.getCacheEntry.
  destruct (_ && _); [|by eexists].
  unfold bind, ask, try_catch, ret. cbn [fst snd].
  destruct (SummaryCache_get env _ _ _) as [summ|]; [|by eexists].
  destruct (truthy summ) eqn:Hs; [|by eexists].
  destruct (storage_local_get env _) as [?|?]; simpl; by eexists.
Qed.

Lemma initialize_state p c s :
  initialize p c s
  = (Returned tt,
     {| pendingRequests := pendingRequests s;
        conversationContexts := conversationContexts s;
        configs := <[p := c]> (configs s);
        trace := trace s ++ [EvInitialize p c] |}).
Proof. reflexivity. Qed.

Lemma handleExtremelyLargeContext_state msgs config l c s :
  let run := BackgroundService.handleExtremelyLargeContext env msgs config l c s in
  conversationContexts (snd run) = conversationContexts s
  ∧ configs (snd run) = <[portkey := config]> (configs s).
Proof.
  cbn zeta. unfold BackgroundService.handleExtremelyLargeContext, bind.
  rewrite initialize_state.
  match goal with
  | |- context [snd (?m ?s0)] =>
      assert (quiet m) as Hq; [|destruct (Hq s0) as [H1 H2]; by rewrite H1, H2]
  end.
  destruct (bool_decide _); cbn [BackgroundService.getApiProvider apiProviders
    callLargeContextAPI]; [apply quiet_large | apply quiet_chunkedLoop].
Qed.

(** The large-context route keeps the contexts; the only configuration
    it may set is, once more, the request's own. *)
Lemma routeLargeContext_state request s :
  let run := BackgroundService.routeLargeContext env request s in
  conversationContexts (snd run) = conversationContexts s
  ∧ (configs (snd run) = configs s
     ∨ configs (snd run)
       = <[provider request := BackgroundService.configOf request]> (configs s)).
Proof.
  cbn zeta. unfold BackgroundService.routeLargeContext.
  case_bool_decide as Hp; [|by split; [|left]].
  rewrite Hp. cbn [BackgroundService.getApiProvider apiProviders callLargeContextAPI].
  destruct (bool_decide _).
  - destruct (handleExtremelyLargeContext_state (messages request)
                (BackgroundService.configOf request) (language_or_default (language request))
                (customPrompts request) s) as [H1 H2].
    unfold bind.
    destruct (BackgroundService.handleExtremelyLargeContext _ _ _ _ _ s) as [[?|?] ?];
      simpl in *; split; auto.
  - destruct (quiet_large (messages request) (language_or_default (language request))
                (customPrompts request) s) as [H1 H2].
    unfold bind. destruct (observed _ _ _ s) as [[?|?] ?]; simpl in *; split; auto.
Qed.

Lemma returns_routeLargeContext request :
  returns (fun o => ∀ r, o = Some r → isAnswer r) (BackgroundService.routeLargeContext env request).
Proof.
  unfold BackgroundService.routeLargeContext.
  case_bool_decide as Hp; [|by apply returns_ret].
  rewrite Hp. cbn [BackgroundService.getApiProvider apiProviders callLargeContextAPI].
  destruct (bool_decide _); intros s; unfold bind.
  - pose proof (returns_handleExtremelyLargeContext env (messages request)
                  (BackgroundService.configOf request) (language_or_default (language request))
                  (customPrompts request) s) as H.
    destruct (BackgroundService.handleExtremelyLargeContext _ _ _ _ _ _) as [[?|?] ?];
      simpl in *; [by intros ? [= <-] | done].
  - pose proof (returns_large env (messages request) (language_or_default (language request))
                  (customPrompts request) s) as H.
    destruct (observed _ _ _ s) as [[?|?] ?]; simpl in *; [by intros ? [= <-] | done].
Qed.

(** The two ways a run of [callLLMAPI] can end: answered from the cache,
    with the service's maps untouched; or not, with the conversation
    remembered, the adapter configured, and a response that is either an
    answer or an error. *)
Lemma callLLMAPI_cases request s :
  let run := BackgroundService.callLLMAPI env request s in
  ∃ r, fst run = Returned r
       ∧ ((fromCache r = Some true ∧ error r = None ∧ truthy (summary r) = true
           ∧ conversationContexts (snd run) = conversationContexts s
           ∧ configs (snd run) = configs s)
          ∨ (fromCache r = None
             ∧ (isAnswer r ∨ ∃ e, r = BackgroundService.errorResponse e)
             ∧ conversationContexts (snd run) = remembered request (conversationContexts s)
             ∧ configs (snd run)
               = <[provider request := BackgroundService.configOf request]> (configs s))).
Proof.
  cbn zeta. unfold BackgroundService.callLLMAPI, try_catch, bind, ret.
  destruct (quiet_lookupCache request s) as [HA1 HA2].
  pose proof (returns_lookupCache request s) as HA3.
  destruct (lookupCache_total request s) as [oa HA4].
  destruct (BackgroundService.lookupCache env request s) as [oa' s1].
  cbn [fst snd] in *. subst oa'.
  destruct oa as [response|].
  { exists response. split; [done|]. left. destruct (HA3 response eq_refl) as (? & ? & ?).
    by split_and!. }
  clear HA3.
  assert (BackgroundService.rememberContext request s1
          = (Returned tt,
             {| pendingRequests := pendingRequests s1;
                conversationContexts := remembered request (conversationContexts s1);
                configs := configs s1; trace := trace s1 |})) as ->.
  { unfold BackgroundService.rememberContext, remembered.
    destruct (tabId request); [done|]. by destruct s1. }
  unfold BackgroundService.initializeApiProvider, initialize, bind, setConfig, emit.
  cbn [fst snd pendingRequests conversationContexts configs trace].
  match goal with
  | |- context [BackgroundService.routeLargeContext env request ?s0] => set (s3 := s0)
  end.
  assert (conversationContexts s3 = remembered request (conversationContexts s)) as Hc3
    by (subst s3; simpl; congruence).
  assert (configs s3
          = <[provider request := BackgroundService.configOf request]> (configs s)) as Hg3
    by (subst s3; simpl; congruence).
  clearbody s3.
  destruct (routeLargeContext_state request s3) as [HD1 HD2].
  pose proof (returns_routeLargeContext request s3) as HD3.
  assert (configs (snd (BackgroundService.routeLargeContext env request s3))
          = <[provider request := BackgroundService.configOf request]> (configs s)) as HD4.
  { destruct HD2 as [->| ->]; [done|]. by rewrite Hg3, insert_insert_eq. }
  clear HD2.
  destruct (BackgroundService.routeLargeContext env request s3) as [[[response|]|e] s4];
    cbn [fst snd] in *.
  - exists response. split; [done|]. right.
    destruct (HD3 response eq_refl) as (? & ? & ? & ?).
    split_and!; [done | by left | congruence | done].
  - unfold BackgroundService.getApiProvider.
    destruct (quiet_callAPI (provider request) (Msgs (messages request))
                (language_or_default (language request)) (customPrompts request) s4)
      as [HE1 HE2].
    pose proof (returns_callAPI env (provider request) (Msgs (messages request))
                  (language_or_default (language request)) (customPrompts request) s4) as HE3.
    destruct (callAPI _ _ _ _ s4) as [[r|e] s5]; cbn [fst snd] in *.
    + destruct (quiet_storeInCache request r s5) as [HF1 HF2].
      destruct (storeInCache_run request r s5) as (HF3 & _).
      destruct (BackgroundService.storeInCache request r s5) as [o6 s6].
      cbn [fst snd] in *. subst o6. cbn [fst snd].
      exists r. split; [done|]. right. destruct HE3 as (? & ? & ? & ?).
      split_and!; [done | by left | congruence | congruence].
    + exists (BackgroundService.errorResponse e). split; [done|]. right.
      split_and!; [done | by right; eexists | congruence | congruence].
  - exists (BackgroundService.errorResponse e). split; [done|]. right.
    split_and!; [done | by right; eexists | congruence | done].
Qed.

End QuietService.

(** ** Runs of the adapters *)

Section AdapterRuns.
Variable env : Env.

Lemma validateConfig_ok p s c :
  configs s !! p = Some c → truthy (cfg_apiKey c) = true →
  validateConfig p s = (Returned tt, s).
Proof.
  intros Hcfg Hkey. unfold validateConfig, bind, getConfigs. by rewrite Hcfg, Hkey.
Qed.

Lemma readConfig_ok p s c : configs s !! p = Some c → readConfig p s = (Returned c, s).
Proof. intros Hcfg. unfold readConfig, bind, getConfigs. by rewrite Hcfg. Qed.

(** An adapter without a usable configuration raises at once, before
    anything else happens. *)
Lemma adapter_rejects_config p i l custom s e :
  fst (validateConfig p s) = Thrown e →
  adapterCallAPI env p i l custom s = (Thrown e, s).
Proof.
  intros He.
  assert (validateConfig p s = (Thrown e, s)) as Hv.
  { revert He. unfold validateConfig, bind, getConfigs.
    destruct (configs s !! p) as [c|]; [destruct (truthy (cfg_apiKey c))|];
      simpl; by intros [= <-]. }
  destruct p; simpl;
    [unfold ClaudeAPI.callAPI | unfold OpenAIAPI.callAPI | unfold OpenRouterAPI.callAPI
    | unfold PortkeyAPI.callAPI];
    unfold bind at 1; by rewrite Hv.
Qed.

Lemma try_networkCatch_state {A} (m : M A) msg s :
  snd (try_catch m (networkCatch msg) s) = snd (m s).
Proof.
  unfold try_catch. destruct (m s) as [[a|e] s']; [done|].
  unfold networkCatch. destruct e; try done. by destruct (includes _ _).
Qed.

Lemma portkey_direct_state msgs l custom s c :
  configs s !! portkey = Some c →
  ∃ freq,
    snd (PortkeyAPI.callDirectChatAPI env msgs l custom s) = withEvents s [EvFetch freq]
    ∧ body_messages (req_body freq) = msgs
    ∧ req_body freq
      = {| body_model := getModelIdentifier portkey (cfg_modelIdentifier c);
           body_messages := msgs;
           body_max_tokens := maxTokens (getPromptConfig l custom);
           body_temperature := Some (temperature (getPromptConfig l custom)) |}
    ∧ req_endpoint freq = or_else (cfg_apiUrl c) PortkeyAPI.defaultEndpoint.
Proof.
  intros Hcfg. unfold PortkeyAPI.callDirectChatAPI. unfold bind at 1.
  rewrite (readConfig_ok _ _ _ Hcfg). rewrite try_networkCatch_state.
  unfold bind, doFetch, ask. eexists. split.
  - destruct (fetch env _ _) as [resp|e']; [|reflexivity].
    destruct (negb (ok resp)).
    + unfold lift. by destruct (errorDetailsOf resp).
    + by destruct (json resp) as [[?|]|?].
  - split_and!; reflexivity.
Qed.

End AdapterRuns.

(** X4. No connection. When [fetch] itself fails with a [TypeError]
    whose message mentions ["fetch"] (and, for Portkey, the SDK attempt
    has failed too), every adapter raises an [Error] that says so: a
    fixed text for Claude and OpenAI, a text naming the endpoint for
    OpenRouter and Portkey (for Portkey with the adapter's label in
    front). *)
Theorem network_failure_is_reported (env : Env) (p : APIProvider) (i : MessagesOrText)
    (l : Language) (custom : option CustomPrompts) (s : ServiceState) (c : APIConfig)
    (m : jsstring) :
  configs s !! p = Some c → truthy (cfg_apiKey c) = true →
  (∀ t req, fetch env t req = Thrown (JsTypeError m)) →
  includes (lit "fetch") m = true →
  (p = portkey → ∀ t req, ∃ e, portkey_create env t req = Thrown e) →
  fst (adapterCallAPI env p i l custom s) = Thrown (JsError (networkMessage p c)).
Proof.
  intros Hcfg Hkey Hfetch Hm Hsdk.
  destruct p; simpl.
  - unfold ClaudeAPI.callAPI, bind. rewrite (validateConfig_ok _ _ _ Hcfg Hkey).
    rewrite (readConfig_ok _ _ _ Hcfg).
    unfold try_catch, bind, doFetch, ask. rewrite Hfetch. simpl. by rewrite Hm.
  - unfold OpenAIAPI.callAPI, bind. rewrite (validateConfig_ok _ _ _ Hcfg Hkey).
    rewrite (readConfig_ok _ _ _ Hcfg).
    unfold try_catch, bind, doFetch, ask. rewrite Hfetch. simpl. by rewrite Hm.
  - unfold OpenRouterAPI.callAPI, bind. rewrite (validateConfig_ok _ _ _ Hcfg Hkey).
    rewrite (readConfig_ok _ _ _ Hcfg).
    unfold try_catch, bind, doFetch, ask. rewrite Hfetch. simpl. by rewrite Hm.
  - unfold PortkeyAPI.callAPI, bind. rewrite (validateConfig_ok _ _ _ Hcfg Hkey).
    rewrite (readConfig_ok _ _ _ Hcfg).
    unfold try_catch, bind, ask.
    match goal with
    | |- context [portkey_create env ?t ?req] => destruct (Hsdk eq_refl t req) as [e ->]
    end.
    unfold PortkeyAPI.callDirectChatAPI, bind.
    rewrite (readConfig_ok portkey _ c) by done.
    unfold try_catch, bind, doFetch, ask. rewrite Hfetch. simpl. by rewrite Hm.
Qed.

Lemma network_failure_is_reported_witness :
  fst (adapterCallAPI offlineEnv portkey (Text (lit "hello")) english None
         (configuredState portkey))
  = Thrown (JsError (lit "Portkey API request failed: Network error: Unable to connect to Portkey API endpoint. Check your internet connection and URL: https://api.portkey.ai/v1/chat/completions")).
Proof.
  assert (configs (configuredState portkey) !! portkey = Some someConfig) as Hcfg
    by (by vm_compute).
  assert (truthy (cfg_apiKey someConfig) = true) as Hkey by reflexivity.
  assert (∀ t req, fetch offlineEnv t req = Thrown (JsTypeError (lit "Failed to fetch")))
    as Hfetch by reflexivity.
  assert (includes (lit "fetch") (lit "Failed to fetch") = true) as Hm by (by vm_compute).
  assert (portkey = portkey → ∀ t req, ∃ e, portkey_create offlineEnv t req = Thrown e) as Hsdk
    by (intros _ t req; by eexists).
  etrans; [exact (network_failure_is_reported offlineEnv portkey (Text (lit "hello")) english
                    None (configuredState portkey) someConfig (lit "Failed to fetch")
                    Hcfg Hkey Hfetch Hm Hsdk)|].
  by vm_compute.
Defined.

Lemma portkey_callAPI_run (env : Env) (i : MessagesOrText) (l : Language)
    (custom : option CustomPrompts) (s : ServiceState) (c : APIConfig) :
  configs s !! portkey = Some c → truthy (cfg_apiKey c) = true →
  let run := PortkeyAPI.callAPI env i l custom s in
  ∃ sreq,
    sdk_apiKey sreq = cfg_apiKey c
    ∧ sdk_body sreq
      = {| body_model := getModelIdentifier portkey (cfg_modelIdentifier c);
           body_messages := toMessages i l custom;
           body_max_tokens := maxTokens (getPromptConfig l custom);
           body_temperature := Some (temperature (getPromptConfig l custom)) |}
    ∧ match portkey_create env (trace s) sreq with
      | Returned answer =>
          run = (Returned (plainResponse (or_else answer noResponse)),
                 withEvents s [EvSdkCreate sreq])
      | Thrown _ =>
          ∃ freq,
            trace (snd run) = trace s ++ [EvSdkCreate sreq; EvFetch freq]
            ∧ req_body freq = sdk_body sreq
            ∧ req_endpoint freq = or_else (cfg_apiUrl c) PortkeyAPI.defaultEndpoint
      end.
Proof.
  intros Hcfg Hkey run. subst run.
  unfold PortkeyAPI.callAPI, bind. rewrite (validateConfig_ok _ _ _ Hcfg Hkey).
  rewrite (readConfig_ok _ _ _ Hcfg).
  unfold try_catch, bind, ask.
  eexists. split; [|split]; [| |destruct (portkey_create env (trace s) _) as [answer|e] eqn:Hsdk].
  3: { rewrite Hsdk. reflexivity. }
  1, 2: reflexivity.
  rewrite Hsdk.
  match goal with
  | |- context [PortkeyAPI.callDirectChatAPI env ?ms l custom ?s0] =>
      destruct (portkey_direct_state env ms l custom s0 c Hcfg) as (freq & Hst & _ & Hbody & Hend);
      destruct (PortkeyAPI.callDirectChatAPI env ms l custom s0) as [[r|e1] s1]
  end.
  - exists freq. cbn [fst snd] in *. subst s1. unfold throw, ret, withEvents.
    cbn [fst snd trace]. by rewrite <- app_assoc.
  - exists freq. cbn [fst snd] in *. subst s1. unfold throw, ret, withEvents.
    cbn [fst snd trace]. by rewrite <- app_assoc.
Qed.

(** X5. Portkey tries its SDK first and falls back to a direct HTTP
    request. With a usable configuration, the first thing [callAPI] does
    is one SDK request carrying the API key, the model, the messages and
    the template's token and temperature settings. When the SDK answers,
    that answer (or ["No response generated"]) is the summary and no HTTP
    request is made; when the SDK fails, whatever the failure, exactly one
    HTTP request with the same body follows, to the configured URL or the
    default endpoint. *)
Theorem portkey_sdk_first (env : Env) (i : MessagesOrText) (l : Language)
    (custom : option CustomPrompts) (s : ServiceState) (c : APIConfig) :
  configs s !! portkey = Some c → truthy (cfg_apiKey c) = true →
  let run := PortkeyAPI.callAPI env i l custom s in
  ∃ sreq,
    sdk_apiKey sreq = cfg_apiKey c
    ∧ sdk_body sreq
      = {| body_model := getModelIdentifier portkey (cfg_modelIdentifier c);
           body_messages := toMessages i l custom;
           body_max_tokens := maxTokens (getPromptConfig l custom);
           body_temperature := Some (temperature (getPromptConfig l custom)) |}
    ∧ match portkey_create env (trace s) sreq with
      | Returned answer =>
          run = (Returned (plainResponse (or_else answer noResponse)),
                 withEvents s [EvSdkCreate sreq])
      | Thrown _ =>
          ∃ freq,
            trace (snd run) = trace s ++ [EvSdkCreate sreq; EvFetch freq]
            ∧ req_body freq = sdk_body sreq
            ∧ req_endpoint freq = or_else (cfg_apiUrl c) PortkeyAPI.defaultEndpoint
      end.
Proof. intros Hcfg Hkey. exact (portkey_callAPI_run env i l custom s c Hcfg Hkey). Qed.

Lemma portkey_sdk_first_witness :
  let env := rateLimitedEnv in
  let s := configuredState portkey in
  let run := PortkeyAPI.callAPI env (Msgs smallMessages) english None s in
  ∃ sreq,
    sdk_apiKey sreq = cfg_apiKey someConfig
    ∧ sdk_body sreq
      = {| body_model := getModelIdentifier portkey (cfg_modelIdentifier someConfig);
           body_messages := toMessages (Msgs smallMessages) english None;
           body_max_tokens := maxTokens (getPromptConfig english None);
           body_temperature := Some (temperature (getPromptConfig english None)) |}
    ∧ match portkey_create env (trace s) sreq with
      | Returned answer =>
          run = (Returned (plainResponse (or_else answer noResponse)),
                 withEvents s [EvSdkCreate sreq])
      | Thrown _ =>
          ∃ freq,
            trace (snd run) = trace s ++ [EvSdkCreate sreq; EvFetch freq]
            ∧ req_body freq = sdk_body sreq
            ∧ req_endpoint freq = or_else (cfg_apiUrl someConfig) PortkeyAPI.defaultEndpoint
      end.
Proof.
  assert (configs (configuredState portkey) !! portkey = Some someConfig) as Hcfg
    by (by vm_compute).
  assert (truthy (cfg_apiKey someConfig) = true) as Hkey by reflexivity.
  exact (portkey_sdk_first rateLimitedEnv (Msgs smallMessages) english None
           (configuredState portkey) someConfig Hcfg Hkey).
Defined.

(** ** The history of a request *)

Section Traces.
Variable env : Env.

Lemma frame_lookupCache_reads request :
  frame cacheRead (BackgroundService.lookupCache env request).
Proof.
  unfold BackgroundService.lookupCache, BackgroundService.SummaryCache_get',
    BackgroundService.getCacheEntry.
  destruct (_ && _); [|apply frame_ret].
  apply frame_bind; [by apply frame_ask|]. intros [summ|]; [|apply frame_ret].
  destruct (truthy summ); [|apply frame_ret].
  apply frame_bind; [|intros ?; apply frame_ret].
  apply frame_try; [|intros ?; apply frame_ret].
  apply frame_bind; [by apply frame_ask | intros ?; apply frame_ret].
Qed.

(** A run of [callLLMAPI] is a cache hit, or a cache miss followed by
    the set-up of the adapter and the provider part. *)
Lemma callLLMAPI_split request s :
  ∃ evs, Forall cacheRead evs
    ∧ trace (snd (BackgroundService.lookupCache env request s)) = trace s ++ evs
    ∧ ((∃ r, BackgroundService.callLLMAPI env request s = (Returned r, withEvents s evs)
             ∧ fromCache r = Some true)
       ∨ ∃ s3,
           trace s3 = trace s ++ evs
                      ++ [EvInitialize (provider request) (BackgroundService.configOf request)]
           ∧ pendingRequests s3 = pendingRequests s
           ∧ configs s3 !! provider request = Some (BackgroundService.configOf request)
           ∧ BackgroundService.callLLMAPI env request s
             = try_catch (afterSetup env request)
                 (fun e => ret (BackgroundService.errorResponse e)) s3).
Proof.
  destruct (frame_lookupCache_reads request s) as (HA0 & evs & HA1 & HA2).
  destruct (quiet_lookupCache env request s) as [HA3 HA4].
  pose proof (returns_lookupCache env request s) as HA5.
  destruct (lookupCache_total env request s) as [oa HA6].
  exists evs. split; [done|]. split; [done|].
  destruct (BackgroundService.lookupCache env request s) as [oa' s1] eqn:Hl.
  cbn [fst snd] in *. subst oa'.
  destruct oa as [response|].
  - left. exists response. destruct (HA5 response eq_refl) as (_ & _ & ?). split; [|done].
    unfold BackgroundService.callLLMAPI, try_catch, bind. rewrite Hl.
    unfold ret. f_equal. destruct s1; unfold withEvents; simpl in *. congruence.
  - right.
    exists {| pendingRequests := pendingRequests s1;
              conversationContexts := remembered request (conversationContexts s1);
              configs := <[provider request := BackgroundService.configOf request]> (configs s1);
              trace := trace s1 ++ [EvInitialize (provider request)
                                      (BackgroundService.configOf request)] |}.
    split_and!; cbn [trace pendingRequests configs].
    + rewrite HA1. by rewrite <- app_assoc.
    + done.
    + apply lookup_insert_eq.
    + unfold BackgroundService.callLLMAPI. unfold try_catch at 1. unfold bind at 1.
      rewrite Hl. unfold remembered, BackgroundService.rememberContext.
      destruct (tabId request); reflexivity.
Qed.

Lemma withEvents_trace s evs : trace (withEvents s evs) = trace s ++ evs.
Proof. done. Qed.

Lemma withEvents_configs s evs : configs (withEvents s evs) = configs s.
Proof. done. Qed.

Lemma validateConfig_nokey p s c :
  configs s !! p = Some c → truthy (cfg_apiKey c) = false →
  fst (validateConfig p s) = Thrown (JsError (lit "API key is required")).
Proof. intros Hcfg Hkey. unfold validateConfig, bind, getConfigs. by rewrite Hcfg, Hkey. Qed.

Lemma callAPI_rejected p i l custom s e :
  fst (validateConfig p s) = Thrown e →
  callAPI (apiProviders env p) i l custom s
  = (Thrown e, withEvents s [EvProviderCall p (CallAPI i) (Thrown e)]).
Proof.
  intros He. rewrite callAPI_observed. unfold observed.
  by rewrite (adapter_rejects_config env p i l custom s e He).
Qed.

Lemma large_rejected m l custom s e :
  fst (validateConfig portkey s) = Thrown e →
  observed portkey (CallLargeContextAPI m) (PortkeyAPI.callLargeContextAPI env m l custom) s
  = (Thrown e, withEvents s [EvProviderCall portkey (CallLargeContextAPI m) (Thrown e)]).
Proof.
  intros He. unfold observed, PortkeyAPI.callLargeContextAPI.
  pose proof (adapter_rejects_config env portkey
                (Msgs (processLargeContext m (maxTokens (getPromptConfig l custom))))
                l custom s e He) as H.
  cbn [adapterCallAPI] in H. by rewrite H.
Qed.

Lemma refreshSummary_at_first l c ctx summ s :
  BackgroundService.refreshSummary env l c 0 ctx summ s = (Returned summ, s).
Proof.
  unfold BackgroundService.refreshSummary.
  rewrite (bool_decide_false (0 < 0)%nat) by lia. done.
Qed.

Lemma chunkedLoop_rejected n l custom chunk rest ctx summ s e :
  fst (validateConfig portkey s) = Thrown e →
  BackgroundService.chunkedLoop env n l custom (chunk :: rest) 0 ctx summ s
  = (Thrown e,
     withEvents s [EvProviderCall portkey
                     (CallLargeContextAPI (integrateSummaryWithChunk chunk summ l)) (Thrown e)]).
Proof.
  intros He. cbn [BackgroundService.chunkedLoop]. unfold bind at 1.
  rewrite refreshSummary_at_first. unfold bind at 1.
  unfold BackgroundService.processChunk, try_catch, bind.
  cbn [BackgroundService.getApiProvider apiProviders callLargeContextAPI].
  by rewrite (large_rejected _ l custom s e He).
Qed.

Lemma cacheRead_not_net e : cacheRead e → ¬ netEvent e.
Proof. destruct e; simpl; tauto. Qed.

Lemma not_net_initialize p c : ¬ netEvent (EvInitialize p c).
Proof. by intros []. Qed.

Lemma not_net_call p call o : ¬ netEvent (EvProviderCall p call o).
Proof. by intros []. Qed.

(** Without an API key the provider part fails at the adapter's check,
    and the vendor is not contacted. *)
Lemma afterSetup_nokey request s :
  configs s !! provider request = Some (BackgroundService.configOf request) →
  truthy (apiKey request) = false →
  ∃ evs,
    afterSetup env request s
    = (Thrown (JsError (lit "API key is required")), withEvents s evs)
    ∧ Forall (fun e => ¬ netEvent e) evs.
Proof.
  intros Hcfg Hkey.
  pose proof (validateConfig_nokey _ _ _ Hcfg Hkey) as Hv.
  unfold afterSetup, BackgroundService.routeLargeContext.
  case_bool_decide as Hp.
  - rewrite Hp in *.
    cbn [BackgroundService.getApiProvider apiProviders callLargeContextAPI].
    case_bool_decide as Hbig.
    + unfold BackgroundService.handleExtremelyLargeContext.
      rewrite bool_decide_false by (unfold DIRECT_THRESHOLD in *; lia).
      destruct (chunkLargeContext (messages request)) as [|chunk rest] eqn:Hchunks.
      { exfalso. eapply chunkLargeContext_nonempty; [|exact Hchunks].
        apply estimate_positive_nonempty. lia. }
      unfold bind at 1 2 3. rewrite initialize_state.
      match goal with
      | |- context [BackgroundService.chunkedLoop env ?n ?l ?c _ 0 ?ctx ?summ ?s0] =>
          rewrite (chunkedLoop_rejected n l c chunk rest ctx summ s0
                     (JsError (lit "API key is required")))
      end.
      * rewrite (insert_id _ _ _ Hcfg).
        exists [EvInitialize portkey (BackgroundService.configOf request);
                EvProviderCall portkey
                  (CallLargeContextAPI
                     (integrateSummaryWithChunk chunk [] (language_or_default (language request))))
                  (Thrown (JsError (lit "API key is required")))].
        split; [|repeat constructor; [apply not_net_initialize | apply not_net_call]].
        unfold withEvents. cbn [pendingRequests conversationContexts configs trace].
        by rewrite <- app_assoc.
      * apply (validateConfig_nokey portkey _ (BackgroundService.configOf request));
          [apply lookup_insert_eq | done].
    + unfold bind at 1 2. rewrite (large_rejected _ _ _ s _ Hv).
      eexists. split; [reflexivity|]. repeat constructor. apply not_net_call.
  - unfold bind at 1. unfold ret at 1. cbn beta iota. unfold bind at 1.
    unfold BackgroundService.getApiProvider. rewrite (callAPI_rejected _ _ _ _ s _ Hv).
    eexists. split; [reflexivity|]. repeat constructor. apply not_net_call.
Qed.

End Traces.

(** X6. Without an API key nothing is sent to a vendor. For a request
    whose [apiKey] is empty, [callLLMAPI] either answers from the cache or
    returns the response [{ summary: '', error: 'API key is required' }]
    (the adapter's [validateConfig] raises before anything else), on every
    route; in both cases no SDK request and no HTTP request is made. *)
Theorem missing_key_sends_nothing (env : Env) (request : ChatRequest) (s : ServiceState) :
  truthy (apiKey request) = false →
  let run := BackgroundService.callLLMAPI env request s in
  (∃ r, fst run = Returned r
        ∧ (fromCache r = Some true
           ∨ r = BackgroundService.errorResponse (JsError (lit "API key is required"))))
  ∧ ∃ evs, trace (snd run) = trace s ++ evs ∧ Forall (fun e => ¬ netEvent e) evs.
Proof.
  intros Hkey run. subst run.
  destruct (callLLMAPI_split env request s)
    as (evs & Hreads & _ & [(r & -> & Hr)|(s3 & Ht3 & _ & Hcfg & ->)]).
  - split; [exists r; split; [done | by left]|]. exists evs. split; [done|].
    eapply Forall_impl; [exact Hreads | apply cacheRead_not_net].
  - destruct (afterSetup_nokey env request s3 Hcfg Hkey) as (evs' & Hrun & Hevs').
    unfold try_catch. rewrite Hrun. unfold ret. cbn [fst snd].
    split; [eexists; split; [done | by right]|].
    exists (evs ++ [EvInitialize (provider request)
                                          (BackgroundService.configOf request)] ++ evs').
    rewrite withEvents_trace, Ht3, <- !app_assoc. split; [done|].
    apply Forall_app. split; [eapply Forall_impl; [exact Hreads | apply cacheRead_not_net]|].
    apply Forall_cons. split; [apply not_net_initialize | done].
Qed.

Lemma missing_key_sends_nothing_witness :
  let run := BackgroundService.callLLMAPI (stubEnv (okResponse (lit "S")) sdkAnswers)
               keylessRequest initialState in
  fst run = Returned (BackgroundService.errorResponse (JsError (lit "API key is required")))
  ∧ ∃ evs, trace (snd run) = trace initialState ++ evs ∧ Forall (fun e => ¬ netEvent e) evs.
Proof.
  assert (truthy (apiKey keylessRequest) = false) as Hkey by reflexivity.
  split; [by vm_compute|].
  exact (proj2 (missing_key_sends_nothing (stubEnv (okResponse (lit "S")) sdkAnswers)
                  keylessRequest initialState Hkey)).
Defined.

(** ** One user message through Portkey *)

Section SingleMessage.
Variable env : Env.

Lemma try_ret_state {A} (m : M A) (f : JsThrown → A) s :
  snd (try_catch m (fun e => ret (f e)) s) = snd (m s).
Proof. unfold try_catch. by destruct (m s) as [[a|e] s']. Qed.

Lemma try_throw_state {A} (m : M A) s :
  snd (try_catch m (fun e => throw e) s) = snd (m s).
Proof. unfold try_catch. by destruct (m s) as [[a|e] s']. Qed.

Lemma bind_ret_state {A B} (m : M A) (f : A → B) s :
  snd (bind m (fun a => ret (f a)) s) = snd (m s).
Proof. unfold bind. by destruct (m s) as [[a|e] s']. Qed.

Lemma chunkLargeContext_single m : chunkLargeContext [m] = [[m]].
Proof.
  unfold chunkLargeContext. cbn [chunkLoop length app].
  rewrite (bool_decide_false (0 < 0)%nat) by lia. rewrite andb_false_r.
  cbn [chunkLoop length]. by rewrite bool_decide_true by lia.
Qed.

(** The large-context call on a single message that is not a system
    message: what reaches the vendor carries no message. *)
Lemma large_single m l custom s c :
  role m ≠ system →
  configs s !! portkey = Some c →
  ∃ evs,
    trace (snd (observed portkey (CallLargeContextAPI [m])
                  (PortkeyAPI.callLargeContextAPI env [m] l custom) s))
    = trace s ++ evs
    ∧ Forall sendsNoMessage evs
    ∧ (truthy (cfg_apiKey c) = true → ∃ sreq, EvSdkCreate sreq ∈ evs).
Proof.
  intros Hrole Hcfg.
  destruct (truthy (cfg_apiKey c)) eqn:Hkey.
  - unfold observed, PortkeyAPI.callLargeContextAPI.
    assert (processLargeContext [m] (maxTokens (getPromptConfig l custom)) = []) as ->.
    { unfold processLargeContext. simpl. by rewrite bool_decide_false. }
    destruct (portkey_callAPI_run env (Msgs []) l custom s c Hcfg Hkey)
      as (sreq & _ & Hbody & Hrun).
    apply (f_equal body_messages) in Hbody. cbn [toMessages body_messages] in Hbody.
    destruct (portkey_create env (trace s) sreq) as [answer|e].
    + rewrite Hrun. cbn [snd emit trace withEvents].
      exists [EvSdkCreate sreq; EvProviderCall portkey (CallLargeContextAPI [m])
                                  (Returned (plainResponse (or_else answer noResponse)))].
      split_and!; [by rewrite <- app_assoc | | intros _; exists sreq; by apply elem_of_cons; left].
      by repeat constructor.
    + destruct Hrun as (freq & Htrace & Hreq & _).
      destruct (PortkeyAPI.callAPI env (Msgs []) l custom s) as [o s'].
      cbn [snd emit trace] in *. rewrite Htrace.
      exists [EvSdkCreate sreq; EvFetch freq;
              EvProviderCall portkey (CallLargeContextAPI [m]) o].
      split_and!; [by rewrite <- app_assoc | | intros _; exists sreq; by apply elem_of_cons; left].
      repeat constructor; [done|]. simpl. by rewrite Hreq.
  - assert (fst (validateConfig portkey s) = Thrown (JsError (lit "API key is required"))) as Hv
      by (by apply (validateConfig_nokey portkey s c)).
    rewrite (large_rejected env [m] l custom s _ Hv). cbn [snd].
    eexists. split; [apply withEvents_trace|]. split; [|done]. by repeat constructor.
Qed.

(** The provider part for a single user message through Portkey. *)
Lemma afterSetup_single request s m :
  provider request = portkey →
  messages request = [m] → role m ≠ system →
  configs s !! portkey = Some (BackgroundService.configOf request) →
  ∃ evs,
    trace (snd (afterSetup env request s)) = trace s ++ evs
    ∧ Forall sendsNoMessage evs
    ∧ (truthy (apiKey request) = true → ∃ sreq, EvSdkCreate sreq ∈ evs).
Proof.
  intros Hp Hm Hrole Hcfg.
  assert (∀ (X K : M LLMResponse) s0,
            snd (bind (bind X (fun r => ret (Some r)))
                   (fun large => match large with
                                 | Some response => ret response
                                 | None => K
                                 end) s0)
            = snd (X s0)) as Hroute.
  { intros X K s0. unfold bind. by destruct (X s0) as [[r|e] s']. }
  unfold afterSetup, BackgroundService.routeLargeContext.
  rewrite bool_decide_true by done. rewrite Hp, Hm.
  cbn [BackgroundService.getApiProvider apiProviders callLargeContextAPI].
  destruct (bool_decide _); rewrite Hroute.
  - unfold BackgroundService.handleExtremelyLargeContext.
    rewrite chunkLargeContext_single.
    destruct (bool_decide _);
      cbn [BackgroundService.getApiProvider apiProviders callLargeContextAPI].
    + unfold bind. rewrite initialize_state.
      match goal with
      | |- context [observed _ _ _ ?s0] =>
          destruct (large_single m (language_or_default (language request))
                      (customPrompts request) s0 (BackgroundService.configOf request) Hrole)
            as (evs & Ht & Hevs & Hsdk); [apply lookup_insert_eq|]
      end.
      rewrite Ht. cbn [trace].
      exists (EvInitialize portkey (BackgroundService.configOf request) :: evs).
      split_and!; [by rewrite <- app_assoc | by constructor |].
      intros Hkey. destruct (Hsdk Hkey) as [sreq Hin]. exists sreq. by apply elem_of_cons; right.
    + cbn [length BackgroundService.chunkedLoop]. unfold bind at 1.
      rewrite initialize_state. unfold bind at 1. rewrite refreshSummary_at_first.
      rewrite (bool_decide_true (0 = 1 - 1)%nat) by done.
      rewrite bind_ret_state. unfold BackgroundService.processChunk.
      cbn [BackgroundService.getApiProvider apiProviders callLargeContextAPI integrateSummaryWithChunk
             truthy].
      rewrite try_throw_state, bind_ret_state.
      match goal with
      | |- context [observed _ _ _ ?s0] =>
          destruct (large_single m (language_or_default (language request))
                      (customPrompts request) s0 (BackgroundService.configOf request) Hrole)
            as (evs & Ht & Hevs & Hsdk); [apply lookup_insert_eq|]
      end.
      rewrite Ht. cbn [trace].
      exists (EvInitialize portkey (BackgroundService.configOf request) :: evs).
      split_and!; [by rewrite <- app_assoc | by constructor |].
      intros Hkey. destruct (Hsdk Hkey) as [sreq Hin]. exists sreq. by apply elem_of_cons; right.
  - apply (large_single m _ _ s (BackgroundService.configOf request) Hrole Hcfg).
Qed.

End SingleMessage.

(** X7. A page summarization through Portkey reaches the vendor without
    any message. For a request of one user message with provider
    [portkey], [callLLMAPI] takes the large-context route, whose
    truncation skips the first message: every request made to the vendor
    during the run (through the SDK or over HTTP) carries an empty message
    list; and with an API key, unless the cache answers, such a request
    is made. *)
Theorem portkey_summarization_sends_no_message (env : Env) (request : ChatRequest)
    (s : ServiceState) :
  provider request = portkey →
  isTextSummarization (messages request) = true →
  let run := BackgroundService.callLLMAPI env request s in
  ∃ r evs,
    fst run = Returned r
    ∧ trace (snd run) = trace s ++ evs
    ∧ Forall sendsNoMessage evs
    ∧ (truthy (apiKey request) = true →
       fromCache r = Some true ∨ ∃ sreq, EvSdkCreate sreq ∈ evs).
Proof.
  intros Hp Hshape run. subst run.
  destruct (messages request) as [|m [|? ?]] eqn:Hm; simpl in Hshape; try done.
  apply bool_decide_eq_true in Hshape.
  destruct (callLLMAPI_returns env request s) as [r Hr]. exists r.
  destruct (callLLMAPI_split env request s)
    as (evs & Hreads & _ & [(r' & Hrun & Hhit)|(s3 & Ht3 & _ & Hcfg & Hrun)]).
  - rewrite Hrun in Hr |- *. cbn [fst snd] in *. simplify_eq.
    exists evs. split_and!; [done | done | | by left].
    eapply Forall_impl; [exact Hreads|]. intros e He. by destruct e.
  - rewrite Hp in Hcfg.
    destruct (afterSetup_single env request s3 m Hp Hm ltac:(congruence) Hcfg)
      as (evs' & Ht & Hevs' & Hsdk).
    rewrite Hrun in Hr |- *. rewrite try_ret_state, Ht, Ht3.
    exists (evs ++ [EvInitialize (provider request) (BackgroundService.configOf request)]
            ++ evs').
    split_and!; [done | by rewrite <- !app_assoc | |].
    + apply Forall_app. split; [eapply Forall_impl; [exact Hreads|]; intros e He; by destruct e|].
      by apply Forall_cons.
    + intros Hkey. right. destruct (Hsdk Hkey) as [sreq Hin]. exists sreq.
      rewrite !elem_of_app. auto.
Qed.

Lemma portkey_summarization_sends_no_message_witness :
  let run := BackgroundService.callLLMAPI (stubEnv (okResponse (lit "S")) sdkAnswers)
               portkeyRequest initialState in
  ∃ r evs,
    fst run = Returned r
    ∧ trace (snd run) = trace initialState ++ evs
    ∧ Forall sendsNoMessage evs
    ∧ (truthy (apiKey portkeyRequest) = true →
       fromCache r = Some true ∨ ∃ sreq, EvSdkCreate sreq ∈ evs).
Proof.
  assert (provider portkeyRequest = portkey) as Hp by reflexivity.
  assert (isTextSummarization (messages portkeyRequest) = true) as Hshape by (by vm_compute).
  exact (portkey_summarization_sends_no_message (stubEnv (okResponse (lit "S")) sdkAnswers)
           portkeyRequest initialState Hp Hshape).
Defined.

(** ** Failures of the Portkey adapter, and the shape of every response *)

(** X8. Every failure of the configured Portkey adapter is an [Error]
    labelled ["Portkey API request failed"]: whatever the SDK or the
    direct request raised (an [Error], an object with a status, anything
    else), the outer [catch] of [callAPI] replaces it by an [Error] whose
    message starts with that label. What the adapter returns is a
    non-empty summary and nothing else. *)
Theorem portkey_failures_are_labelled (env : Env) (i : MessagesOrText) (l : Language)
    (custom : option CustomPrompts) (s : ServiceState) (c : APIConfig) :
  configs s !! portkey = Some c → truthy (cfg_apiKey c) = true →
  match fst (PortkeyAPI.callAPI env i l custom s) with
  | Returned r => isAnswer r
  | Thrown e => ∃ detail, e = JsError (lit "Portkey API request failed" ++ detail)
  end.
Proof.
  intros Hcfg Hkey.
  pose proof (returns_portkey env i l custom s) as Hret.
  unfold PortkeyAPI.callAPI, bind in *. rewrite (validateConfig_ok _ _ _ Hcfg Hkey) in *.
  rewrite (readConfig_ok _ _ _ Hcfg) in *.
  unfold try_catch at 1 in Hret. unfold try_catch at 1.
  match goal with
  | |- context [try_catch ?m ?h s] => destruct (try_catch m h s) as [[r|e] s']
  end; [done|].
  unfold throw. cbn [fst]. unfold PortkeyAPI.wrapError.
  destruct e as [m|m|[st|] [m|] nested|]; try (by eexists);
    exists []; by rewrite app_nil_r.
Qed.

Lemma portkey_failures_are_labelled_witness :
  match fst (PortkeyAPI.callAPI rateLimitedEnv (Msgs smallMessages) english None
               (configuredState portkey)) with
  | Returned r => isAnswer r
  | Thrown e => ∃ detail, e = JsError (lit "Portkey API request failed" ++ detail)
  end.
Proof.
  assert (configs (configuredState portkey) !! portkey = Some someConfig) as Hcfg
    by (by vm_compute).
  assert (truthy (cfg_apiKey someConfig) = true) as Hkey by reflexivity.
  exact (portkey_failures_are_labelled rateLimitedEnv (Msgs smallMessages) english None
           (configuredState portkey) someConfig Hcfg Hkey).
Defined.

(** X9. What [callLLMAPI] hands back is a summary or an error, never
    neither: it always returns, and its response has either a non-empty
    summary and no [error] (a cached summary or an adapter's answer, where
    an empty vendor answer reads ["No response generated"]), or an empty
    summary with an [error] message and no cache fields. *)
Theorem callLLMAPI_summary_or_error (env : Env) (request : ChatRequest) (s : ServiceState) :
  ∃ r,
    fst (BackgroundService.callLLMAPI env request s) = Returned r
    ∧ ((truthy (summary r) = true ∧ error r = None)
       ∨ (summary r = [] ∧ is_Some (error r) ∧ fromCache r = None ∧ cachedAt r = None)).
Proof.
  destruct (callLLMAPI_cases env request s)
    as (r & Hr & [(_ & ? & ? & _)|(Hfc & [(? & ? & _ & ?)|[e He]] & _)]);
    exists r; (split; [done|]); [by left | by left | right].
  subst r. split_and!; [done | by eexists | done | done].
Qed.

(** ** Conversation contexts, adapter configurations, submitted requests *)

Section TabKeys.

Lemma lit_inj (a b : string) : lit a = lit b → a = b.
Proof.
  unfold lit. intros H.
  assert (Inj (=) (=) Ascii.N_of_ascii) as Hinj.
  { intros x y Hxy.
    rewrite <- (Ascii.ascii_N_embedding x), <- (Ascii.ascii_N_embedding y). by rewrite Hxy. }
  apply (list_fmap_eq_inj Ascii.N_of_ascii Hinj) in H.
  rewrite <- (String.string_of_list_ascii_of_string a),
    <- (String.string_of_list_ascii_of_string b). by rewrite H.
Qed.

(** Different tabs have different keys. *)
Lemma tabKey_inj (t t' : Z) :
  BackgroundService.tabKey (Some t) = BackgroundService.tabKey (Some t') → t = t'.
Proof.
  unfold BackgroundService.tabKey. intros H.
  apply app_inv_head in H. apply lit_inj in H. by apply (inj pretty) in H.
Qed.

End TabKeys.

(** X10. Conversation contexts, tab by tab. A request that carries a tab
    id and is not answered from the cache stores its messages as that
    tab's context, whether or not the provider call succeeds, and
    [getConversationContext] reads them back; a request answered from the
    cache leaves the tab's context as it was. [clearConversationContext]
    makes the tab's context null. The contexts of other tabs are touched
    by neither. *)
Theorem conversation_context_round_trip (env : Env) (request : ChatRequest)
    (s : ServiceState) (t : Z) :
  tabId request = Some t →
  let run := BackgroundService.callLLMAPI env request s in
  let cleared := snd (BackgroundService.clearConversationContext (Some t) (snd run)) in
  ∃ r,
    fst run = Returned r
    ∧ fst (BackgroundService.getConversationContext (Some t) (snd run))
      = Returned (if bool_decide (fromCache r = Some true)
                  then conversationContexts s !! BackgroundService.tabKey (Some t)
                  else Some (messages request))
    ∧ fst (BackgroundService.getConversationContext (Some t) cleared) = Returned None
    ∧ ∀ t', t' ≠ t →
        fst (BackgroundService.getConversationContext (Some t') (snd run))
        = fst (BackgroundService.getConversationContext (Some t') s)
        ∧ fst (BackgroundService.getConversationContext (Some t') cleared)
          = fst (BackgroundService.getConversationContext (Some t') s).
Proof.
  intros Ht run cleared. subst run cleared.
  destruct (callLLMAPI_cases env request s) as (r & Hr & Hcases).
  exists r. split; [done|].
  unfold BackgroundService.getConversationContext, BackgroundService.clearConversationContext,
    bind, getContexts, updContexts, ret.
  cbn [fst snd conversationContexts].
  assert (∀ t', t' ≠ t →
            BackgroundService.tabKey (Some t) ≠ BackgroundService.tabKey (Some t')) as Hkeys
    by (intros t' Hne Heq; by apply tabKey_inj in Heq).
  assert (conversationContexts (snd (BackgroundService.callLLMAPI env request s))
          = if bool_decide (fromCache r = Some true) then conversationContexts s
            else <[BackgroundService.tabKey (Some t) := messages request]>
                   (conversationContexts s)) as ->.
  { destruct Hcases as [(Hfc & _ & _ & -> & _)|(Hfc & _ & -> & _)].
    - by rewrite bool_decide_true.
    - rewrite bool_decide_false by congruence. unfold remembered. by rewrite Ht. }
  split_and!.
  - case_bool_decide; [done|]. by rewrite lookup_insert_eq.
  - by rewrite lookup_delete_eq.
  - intros t' Hne. specialize (Hkeys t' Hne). rewrite lookup_delete_ne by done.
    case_bool_decide; [done|]. by rewrite lookup_insert_ne.
Qed.

Lemma conversation_context_round_trip_witness :
  let run := BackgroundService.callLLMAPI (stubEnv (okResponse (lit "S")) sdkAnswers)
               chatRequest initialState in
  tabId chatRequest = Some 7
  ∧ ∃ r,
      fst run = Returned r
      ∧ fst (BackgroundService.getConversationContext (Some 7) (snd run))
        = Returned (if bool_decide (fromCache r = Some true)
                    then conversationContexts initialState !! BackgroundService.tabKey (Some 7)
                    else Some (messages chatRequest)).
Proof.
  intros run.
  assert (tabId chatRequest = Some 7) as Ht by reflexivity.
  split; [exact Ht|].
  destruct (conversation_context_round_trip (stubEnv (okResponse (lit "S")) sdkAnswers)
              chatRequest initialState 7 Ht) as (r & Hr & Hget & _).
  exists r. split; [exact Hr | exact Hget].
Defined.

(** X11. The adapter of a request's provider is left configured with the
    request's credentials. After a request that the cache did not answer,
    the configuration of that provider's adapter holds the request's key,
    URL, virtual key, model and templates, and the request's language
    (Chinese when it names none), whatever the outcome of the call, and no
    other adapter's configuration has changed; a request answered from the
    cache changes none. *)
Theorem adapter_keeps_last_configuration (env : Env) (request : ChatRequest)
    (s : ServiceState) :
  let run := BackgroundService.callLLMAPI env request s in
  ∃ r,
    fst run = Returned r
    ∧ (fromCache r = Some true → configs (snd run) = configs s)
    ∧ (fromCache r ≠ Some true →
       configs (snd run) !! provider request
       = Some {| cfg_apiKey := apiKey request;
                 cfg_apiUrl := apiUrl request;
                 cfg_virtualKey := virtualKey request;
                 cfg_modelIdentifier := modelIdentifier request;
                 cfg_language := Some (match language request with
                                       | Some l => l
                                       | None => chinese
                                       end);
                 cfg_customPrompts := customPrompts request |}
       ∧ ∀ q, q ≠ provider request → configs (snd run) !! q = configs s !! q).
Proof.
  intros run. subst run.
  destruct (callLLMAPI_cases env request s)
    as (r & Hr & [(Hfc & _ & _ & _ & ->)|(Hfc & _ & _ & ->)]); exists r; (split; [done|]).
  - split; [done|]. intros Hne. by destruct Hne.
  - split; [intros Hc; congruence|]. intros _. split.
    + rewrite lookup_insert_eq. unfold BackgroundService.configOf, language_or_default.
      by destruct (language request).
    + intros q Hq. by rewrite lookup_insert_ne.
Qed.

Section Submission.
Variable env : Env.

(** Processing a registered request rewrites its entry, and only its
    entry. *)
Lemma processLLMRequest_pending requestId request s pr :
  pendingRequests s !! requestId = Some pr →
  ∃ r,
    fst (BackgroundService.processLLMRequest env requestId request s) = Returned tt
    ∧ pendingRequests (snd (BackgroundService.processLLMRequest env requestId request s))
      = <[requestId := {| pr_id := pr_id pr; pr_tabUrl := pr_tabUrl pr;
                          pr_status := Status.completed; pr_result := Some r;
                          pr_error := pr_error pr; pr_timestamp := pr_timestamp pr |}]>
          (pendingRequests s).
Proof.
  intros Hpr.
  unfold BackgroundService.processLLMRequest, bind, getPending, setPending, try_catch.
  cbn [fst snd pendingRequests]. rewrite Hpr. cbn [fst snd].
  match goal with
  | |- context [BackgroundService.callLLMAPI env request ?s1] =>
      destruct (callLLMAPI_returns env request s1) as [r Hr];
      destruct (callLLMAPI_run env request s1) as [Hpend _];
      destruct (BackgroundService.callLLMAPI env request s1) as [o s2]
  end.
  cbn [fst snd pendingRequests] in *. subst o. exists r.
  cbn [fst snd pendingRequests pr_id pr_tabUrl pr_error pr_timestamp].
  split; [done|]. rewrite Hpend. by rewrite insert_insert_eq.
Qed.

Lemma generateRequestId_prefix s :
  ∃ id s', BackgroundService.generateRequestId env s = (Returned id, s')
           ∧ startsWith (lit "req_") id = true
           ∧ pendingRequests s' = pendingRequests s.
Proof.
  unfold BackgroundService.generateRequestId, BackgroundService.now, bind, ask, ret.
  cbn [fst snd]. eexists _, _. split; [reflexivity|]. split; [|done].
  apply startsWith_app.
Qed.

Lemma startLLMRequest_pending request requestId s :
  ∃ id r ts s',
    BackgroundService.startLLMRequest env request requestId s = (Returned id, s')
    ∧ match requestId with
      | Some i => if truthy i then id = i else startsWith (lit "req_") id = true
      | None => startsWith (lit "req_") id = true
      end
    ∧ pendingRequests s'
      = <[id := {| pr_id := id; pr_tabUrl := default [] (url request);
                   pr_status := Status.completed; pr_result := Some r;
                   pr_error := None; pr_timestamp := ts |}]> (pendingRequests s).
Proof.
  unfold BackgroundService.startLLMRequest, bind at 1.
  set (pickId := match requestId with
                 | Some i => if truthy i then ret i else BackgroundService.generateRequestId env
                 | None => BackgroundService.generateRequestId env
                 end).
  assert (∃ id s1, pickId s = (Returned id, s1)
                   ∧ pendingRequests s1 = pendingRequests s
                   ∧ match requestId with
                     | Some i => if truthy i then id = i else startsWith (lit "req_") id = true
                     | None => startsWith (lit "req_") id = true
                     end) as (id & s1 & -> & Hp1 & Hid).
  { subst pickId. destruct requestId as [i|]; [destruct (truthy i)|].
    - by exists i, s.
    - destruct (generateRequestId_prefix s) as (id & s' & -> & ? & ?). by exists id, s'.
    - destruct (generateRequestId_prefix s) as (id & s' & -> & ? & ?). by exists id, s'. }
  unfold bind, try_catch, BackgroundService.now, ask, setPending, ret. cbn [fst snd].
  match goal with
  | |- context [BackgroundService.processLLMRequest env id request ?s2] =>
      destruct (processLLMRequest_pending id request s2
                  {| pr_id := id; pr_tabUrl := default [] (url request);
                     pr_status := Status.pending; pr_result := None; pr_error := None;
                     pr_timestamp := Date_now env (trace s1) |}) as (r & Hret & Hpend);
        [cbn [pendingRequests]; apply lookup_insert_eq|];
      destruct (BackgroundService.processLLMRequest env id request s2) as [o s3]
  end.
  cbn [fst snd pendingRequests pr_id pr_tabUrl pr_error pr_timestamp] in *. subst o.
  exists id, r, (Date_now env (trace s1)), s3.
  split_and!; [done | done |]. by rewrite Hpend, insert_insert_eq, Hp1.
Qed.

End Submission.

(** X12. A submitted request is registered under the id handed back:
    the caller's id when it gave a non-empty one, otherwise a generated id
    that starts with ["req_"]. Once its processing has run to its end,
    polling that id finds the request completed, with a result, no error
    of its own, and the request's URL (or ['']) as [tabUrl]; the entries
    under all other ids are as they were. *)
Theorem submitted_request_can_be_polled (env : Env) (request : ChatRequest)
    (requestId : option jsstring) (s : ServiceState) :
  let run := BackgroundService.startLLMRequest env request requestId s in
  ∃ id r ts,
    fst run = Returned id
    ∧ match requestId with
      | Some i => if truthy i then id = i else startsWith (lit "req_") id = true
      | None => startsWith (lit "req_") id = true
      end
    ∧ fst (BackgroundService.getRequestStatus id (snd run))
      = Returned (Some {| pr_id := id; pr_tabUrl := default [] (url request);
                          pr_status := Status.completed; pr_result := Some r;
                          pr_error := None; pr_timestamp := ts |})
    ∧ ∀ id', id' ≠ id →
        fst (BackgroundService.getRequestStatus id' (snd run))
        = fst (BackgroundService.getRequestStatus id' s).
Proof.
  intros run. subst run.
  destruct (startLLMRequest_pending env request requestId s)
    as (id & r & ts & s' & -> & Hid & Hpend).
  exists id, r, ts.
  unfold BackgroundService.getRequestStatus, bind, getPending, ret. cbn [fst snd].
  rewrite Hpend.
  split_and!; [done | done | by rewrite lookup_insert_eq |].
  intros id' Hne. by rewrite lookup_insert_ne.
Qed.

(** ** Tabs, the detached window, the listener, custom templates *)

(** X13. The tab list. [getAllTabsInfo] never raises and makes one
    [tabs.query] call; when that call fails the list is empty. Otherwise
    the list holds, in the browser's order, the tabs that have an id other
    than 0 and -1 (a missing id and the id 0 both become -1, which is
    filtered out), each with the browser's id, the browser's URL (['']
    when it has none) and the browser's title (["Untitled"] when it has
    none or an empty one); so no listed tab has the id 0 or -1 or an empty
    title. *)
Theorem getAllTabsInfo_lists_usable_tabs (env : Env) (s : ServiceState) :
  ∃ tabs,
    BackgroundService.getAllTabsInfo env s = (Returned tabs, withEvents s [EvTabsQuery])
    ∧ Forall (fun t => tab_id t ≠ 0 ∧ tab_id t ≠ -1 ∧ truthy (tab_title t) = true) tabs
    ∧ match tabs_query env (trace s) with
      | Returned raw => tabs = omap listedTab raw
      | Thrown _ => tabs = []
      end.
Proof.
  unfold BackgroundService.getAllTabsInfo, try_catch, bind, ask, ret. cbn [fst snd].
  destruct (tabs_query env (trace s)) as [raw|e].
  - eexists. split; [reflexivity|]. split.
    + induction raw as [|tab raw IH]; [constructor|].
      rewrite fmap_cons, filter_cons. case_decide as Hid; [|done].
      constructor; [|done]. cbn [tab_id tab_title] in *.
      split_and!; [|done|by apply or_else_truthy].
      destruct (raw_id tab) as [i|]; [|done]. by case_bool_decide.
    + induction raw as [|tab raw IH]; [done|].
      rewrite fmap_cons, filter_cons. cbn [omap list_omap]. unfold listedTab at 1.
      case_decide as Hid; cbn [tab_id] in Hid.
      * destruct (raw_id tab) as [i|]; [|done].
        rewrite (bool_decide_false (i = 0 ∨ i = -1)).
        { f_equal; [|done]. f_equal.
          - by case_bool_decide.
          - by destruct (raw_url tab) as [[|? ?]|].
          - by destruct (raw_title tab) as [[|? ?]|]. }
        intros [->| ->]; [by rewrite bool_decide_true in Hid | by case_bool_decide].
      * destruct (raw_id tab) as [i|]; [|done].
        rewrite (bool_decide_true (i = 0 ∨ i = -1)); [done|].
        case_bool_decide; [by left | right]. destruct (decide (i = -1)); [done|]. done.
  - exists []. done.
Qed.

Lemma head_filter_first (ws : list BrowserWindow) (w : BrowserWindow) :
  head (filter (fun w => isPopup w = true ∧ showsPopupHtml w = true) ws) = Some w →
  firstDetachedPopup ws w.
Proof.
  induction ws as [|v ws IH]; [done|].
  rewrite filter_cons. case_decide as Hv.
  - intros [= ->]. by exists [], ws.
  - intros Hhead. destruct (IH Hhead) as (before & after & -> & Hbefore & Hw).
    exists (v :: before), after. split_and!; [done | by constructor | done].
Qed.

(** X14. The detached window. When listing the windows fails, the
    failure is passed on and no window is touched. Otherwise exactly one
    window operation follows, and its outcome is the outcome of
    [openDetachedWindow]: when the first detached popup among the windows
    (type [popup], showing [popup.html]) has an id other than 0, that
    window is focused; a window is created only when there is no detached
    popup or the first one has no id or the id 0, whatever the later ones
    have. *)
Theorem openDetachedWindow_focuses_or_creates (env : Env) (s : ServiceState) :
  let run := BackgroundService.openDetachedWindow env s in
  match windows_getAll env (trace s) with
  | Thrown e => run = (Thrown e, withEvents s [EvWindowsGetAll])
  | Returned ws =>
      ∃ op,
        snd run = withEvents s [EvWindowsGetAll; op]
        ∧ match op with
          | EvWindowsUpdate i =>
              i ≠ 0
              ∧ (∃ w, firstDetachedPopup ws w ∧ window_id w = Some i)
              ∧ fst run = windows_update env (trace s ++ [EvWindowsGetAll]) i
          | EvWindowsCreate =>
              fst run = windows_create env (trace s ++ [EvWindowsGetAll])
              ∧ ((∀ w, w ∈ ws → ¬ isDetachedPopup w)
                 ∨ ∃ w, firstDetachedPopup ws w
                        ∧ (window_id w = None ∨ window_id w = Some 0))
          | _ => False
          end
  end.
Proof.
  intros run. subst run.
  unfold BackgroundService.openDetachedWindow, try_catch, bind, ask, throw. cbn [fst snd trace].
  destruct (windows_getAll env (trace s)) as [ws|e]; [|done].
  set (popups := filter (fun w => isPopup w = true ∧ showsPopupHtml w = true) ws).
  destruct (head popups) as [w|] eqn:Hhead.
  - assert (firstDetachedPopup ws w) as Hfirst by (by apply head_filter_first).
    cbn [mbind option_bind].
    destruct (window_id w) as [i|] eqn:Hid.
    + case_bool_decide as Hzero.
      * exists EvWindowsCreate. subst i.
        destruct (windows_create env _) as [[]|e]; cbn [fst snd];
          (split; [unfold withEvents; cbn; by rewrite <- app_assoc|]);
          (split; [done|]); right; exists w; auto.
      * exists (EvWindowsUpdate i).
        destruct (windows_update env _ i) as [[]|e]; cbn [fst snd];
          (split; [unfold withEvents; cbn; by rewrite <- app_assoc|]);
          split_and!; eauto.
    + exists EvWindowsCreate.
      destruct (windows_create env _) as [[]|e]; cbn [fst snd];
        (split; [unfold withEvents; cbn; by rewrite <- app_assoc|]);
        (split; [done|]); right; exists w; auto.
  - cbn [mbind option_bind]. exists EvWindowsCreate.
    apply head_None in Hhead.
    destruct (windows_create env _) as [[]|e]; cbn [fst snd];
      (split; [unfold withEvents; cbn; by rewrite <- app_assoc|]);
      (split; [done|]); left; intros w Hin Hpop;
      eapply (filter_nil_not_elem_of _ ws w); eauto.
Qed.

Section ListenerFacts.
Variable env : Env.

Lemma thenSend_run {A} (m : M A) (wrap : A → Response) s :
  fst (thenSend m wrap s)
  = Returned {| sent := match fst (m s) with
                        | Returned a => Some (wrap a)
                        | Thrown _ => None
                        end;
                keepsChannel := true |}.
Proof. unfold thenSend. by destruct (m s) as [[a|e] s']. Qed.

Lemma thenSendCatch_run {A} (m : M A) (wrap : A → Response) onError s :
  fst (thenSendCatch m wrap onError s)
  = Returned {| sent := Some match fst (m s) with
                             | Returned a => wrap a
                             | Thrown e => onError e
                             end;
                keepsChannel := true |}.
Proof. unfold thenSendCatch. by destruct (m s) as [[a|e] s']. Qed.

Lemma getAllTabsInfo_returns s : ∃ tabs, fst (BackgroundService.getAllTabsInfo env s) = Returned tabs.
Proof.
  unfold BackgroundService.getAllTabsInfo, try_catch, bind, ask, ret. cbn [fst snd].
  destruct (tabs_query env (trace s)); by eexists.
Qed.

Lemma extractTextFromTab_returns tab s :
  ∃ text, fst (BackgroundService.extractTextFromTab env tab s) = Returned text.
Proof.
  unfold BackgroundService.extractTextFromTab, try_catch, bind, ask, ret. cbn [fst snd].
  destruct (scripting_executeScript env (trace s) tab); by eexists.
Qed.

End ListenerFacts.

(** Two different action names cannot both be the action of a message. *)
Ltac other_action :=
  let Ha := fresh "Ha" in
  intros Ha; exfalso;
  match goal with
  | H : action _ = lit _ |- _ => rewrite Ha in H; by vm_compute in H
  | H : action _ ≠ lit _ |- _ => by destruct (H Ha)
  end.

(** X15. What the listener does with a known action. [startSummarize]
    and [summarizeText] on a message without [data] make the listener
    itself raise a [TypeError]: nothing is sent and nothing changes. In
    every other case the listener returns [true] (the channel stays open)
    and the action is answered, with one exception, [openDetachedWindow]
    when the window operation fails: the rejection is not handled and no
    response is ever sent. The answer is what the service method of the
    action gave: the tab list, the extracted text, the request id, the
    entry of the polled request (none for an unknown id), the response of
    [callLLMAPI] (for [chatMessage] without [data], the response with the
    error ["Unknown API provider: undefined"]), the tab's conversation
    context, or a bare acknowledgement; the summarize actions pass on the
    data's fields with the text turned into one user message and the
    message's own [url] and [forceFresh], [chatMessage] the data with the
    message's [tabId]. (For [getCacheStats] and [clearCache] this rests on
    the cache module, which is not among the sources, not raising.) *)
Theorem known_action_is_answered (env : Env) (request : Message) (s : ServiceState) :
  action request ∈ knownActions →
  let run := onMessage env request s in
  (needsData (action request) ∧ msg_data request = None →
   run = (Thrown (JsTypeError
                    (lit "Cannot destructure property 'text' of 'request.data' as it is undefined.")),
          s))
  ∧ (¬ (needsData (action request) ∧ msg_data request = None) →
     ∃ h,
       fst run = Returned h
       ∧ keepsChannel h = true
       ∧ (sent h = None →
          action request = lit "openDetachedWindow"
          ∧ ∃ e, fst (BackgroundService.openDetachedWindow env s) = Thrown e)
       ∧ (action request = lit "getAllTabs" →
          ∃ tabs, fst (BackgroundService.getAllTabsInfo env s) = Returned tabs
                  ∧ sent h = Some (RespTabs tabs))
       ∧ (action request = lit "extractTabText" →
          ∃ t, fst (BackgroundService.extractTextFromTab env (msg_tabId request) s) = Returned t
               ∧ sent h = Some (RespText t))
       ∧ (action request = lit "startSummarize" →
          ∃ data id,
            msg_data request = Some data
            ∧ fst (BackgroundService.startLLMRequest env (dataWithUrl request data)
                     (msg_requestId request) s) = Returned id
            ∧ sent h = Some (RespRequestId id))
       ∧ (action request = lit "getRequestStatus" →
          snd run = s
          ∧ sent h = Some (RespStatus
                             (match msg_requestId request with
                              | Some id => pendingRequests s !! id
                              | None => None
                              end)))
       ∧ (action request = lit "summarizeText" →
          ∃ data r,
            msg_data request = Some data
            ∧ fst (BackgroundService.callLLMAPI env (dataWithUrl request data) s) = Returned r
            ∧ sent h = Some (RespLLM r))
       ∧ (action request = lit "openDetachedWindow" →
          sent h = match fst (BackgroundService.openDetachedWindow env s) with
                   | Returned _ => Some RespVoid
                   | Thrown _ => None
                   end)
       ∧ (action request = lit "getCacheStats" → ∃ st, sent h = Some (RespStats st))
       ∧ (action request = lit "clearCache" → sent h = Some RespSuccess)
       ∧ (action request = lit "chatMessage" →
          ∃ r,
            sent h = Some (RespLLM r)
            ∧ match msg_data request with
              | Some data =>
                  fst (BackgroundService.callLLMAPI env (chatRequestOf request data) s)
                  = Returned r
              | None =>
                  r = {| summary := [];
                         error := Some (lit "Unknown API provider: undefined");
                         fromCache := None; cachedAt := None |}
              end)
       ∧ (action request = lit "getConversationContext" →
          snd run = s
          ∧ sent h = Some (RespContext
                             (conversationContexts s
                                !! (lit "tab_" ++ match msg_tabId request with
                                                  | Some z => lit (pretty z)
                                                  | None => lit "undefined"
                                                  end))))
       ∧ (action request = lit "clearConversationContext" →
          sent h = Some RespSuccess
          ∧ fst (BackgroundService.getConversationContext (msg_tabId request) (snd run))
            = Returned None))
  ∧ (∀ data,
       messages (dataWithUrl request data)
       = [ {| role := user;
              content := createPrompt (text data)
                           (match language (base data) with Some l => l | None => chinese end)
                           (customPrompts (base data)) |} ]
       ∧ url (dataWithUrl request data) = msg_url request
       ∧ forceFresh (dataWithUrl request data) = msg_forceFresh request
       ∧ provider (dataWithUrl request data) = provider (base data)
       ∧ apiKey (dataWithUrl request data) = apiKey (base data)
       ∧ language (dataWithUrl request data) = language (base data)
       ∧ messages (chatRequestOf request data) = messages (base data)
       ∧ provider (chatRequestOf request data) = provider (base data)
       ∧ apiKey (chatRequestOf request data) = apiKey (base data)
       ∧ url (chatRequestOf request data) = url (base data)
       ∧ tabId (chatRequestOf request data) = msg_tabId request).
Proof.
  intros Hknown run. subst run. split_and!.
  - intros [[Ha|Ha] Hdata]; unfold onMessage; rewrite Ha, Hdata;
      repeat (case_bool_decide as Hc; [by vm_compute in Hc|]); [|];
      try done.
  - intros Hdata. unfold onMessage.
    repeat case_bool_decide.
    + rewrite thenSend_run. eexists. split; [reflexivity|].
      destruct (getAllTabsInfo_returns env s) as [tabs Hr]. rewrite Hr. cbn [sent keepsChannel].
      split_and!; try done; try other_action. intros _. by exists tabs.
    + rewrite thenSend_run. eexists. split; [reflexivity|].
      destruct (extractTextFromTab_returns env (msg_tabId request) s) as [t Hr]. rewrite Hr.
      cbn [sent keepsChannel].
      split_and!; try done; try other_action. intros _. by exists t.
    + destruct (msg_data request) as [data|] eqn:Hd;
        [|destruct Hdata; split; [by left | done]].
      rewrite thenSendCatch_run. eexists. split; [reflexivity|].
      destruct (startLLMRequest_returns env (dataWithUrl request data) (msg_requestId request) s)
        as [id Hr].
      rewrite Hr. cbn [sent keepsChannel].
      split_and!; try done; try other_action. intros _. by exists data, id.
    + unfold bind, BackgroundService.getRequestStatus, getPending, ret.
      exists {| sent := Some (RespStatus (match msg_requestId request with
                                          | Some id => pendingRequests s !! id
                                          | None => None
                                          end));
                keepsChannel := true |}.
      split; [by destruct (msg_requestId request)|].
      cbn [sent keepsChannel].
      split_and!; try done; try other_action. intros _.
      by destruct (msg_requestId request).
    + destruct (msg_data request) as [data|] eqn:Hd;
        [|destruct Hdata; split; [by right | done]].
      rewrite thenSend_run. eexists. split; [reflexivity|].
      destruct (callLLMAPI_returns env (dataWithUrl request data) s) as [r Hr].
      rewrite Hr. cbn [sent keepsChannel].
      split_and!; try done; try other_action. intros _. by exists data, r.
    + rewrite thenSend_run. eexists. split; [reflexivity|]. cbn [sent keepsChannel].
      split_and!; try done; try other_action.
      intros Hnone. split; [done|].
      destruct (fst (BackgroundService.openDetachedWindow env s)) as [[]|e]; [done|eauto].
    + rewrite thenSend_run. eexists. split; [reflexivity|]. cbn [sent keepsChannel].
      split_and!; try done; try other_action. intros _. by eexists.
    + rewrite thenSend_run. eexists. split; [reflexivity|]. cbn [sent keepsChannel].
      split_and!; try done; try other_action.
    + destruct (msg_data request) as [data|].
      * rewrite thenSend_run. eexists. split; [reflexivity|].
        destruct (callLLMAPI_returns env (chatRequestOf request data) s) as [r Hr].
        rewrite Hr. cbn [sent keepsChannel].
        split_and!; try done; try other_action. intros _. by exists r.
      * rewrite thenSend_run. eexists. split; [reflexivity|].
        assert (fst (callLLMAPI_without_data (msg_tabId request) s)
                = Returned {| summary := [];
                              error := Some (lit "Unknown API provider: undefined");
                              fromCache := None; cachedAt := None |}) as ->
          by (by destruct (msg_tabId request)).
        cbn [sent keepsChannel].
        split_and!; try done; try other_action. intros _. by eexists.
    + unfold bind, BackgroundService.getConversationContext, getContexts, ret.
      eexists. split; [reflexivity|]. cbn [sent keepsChannel fst snd].
      split_and!; try done; try other_action.
    + unfold bind, BackgroundService.clearConversationContext,
        BackgroundService.getConversationContext, updContexts, getContexts, ret.
      eexists. split; [reflexivity|]. cbn [sent keepsChannel fst snd conversationContexts].
      split_and!; try done; try other_action. intros _. split; [done|].
      unfold bind. cbn [fst snd conversationContexts]. by rewrite lookup_delete_eq.
    + exfalso. revert Hknown. unfold knownActions. rewrite !elem_of_cons, elem_of_nil. tauto.
  - intros data. unfold dataWithUrl, chatRequestOf, textToChatMessages, language_or_default.
    cbn. split_and!; done.
Qed.

Lemma known_action_is_answered_witness :
  let request :=
    {| action := lit "chatMessage"; msg_tabId := Some 7;
       msg_data := Some {| text := []; base := chatRequest |};
       msg_url := None; msg_forceFresh := None; msg_requestId := None |} in
  let run := onMessage (stubEnv (okResponse (lit "S")) sdkAnswers) request initialState in
  (action request ∈ knownActions)
  ∧ ∃ h r,
      fst run = Returned h
      ∧ keepsChannel h = true
      ∧ sent h = Some (RespLLM r)
      ∧ fst (BackgroundService.callLLMAPI (stubEnv (okResponse (lit "S")) sdkAnswers)
               chatRequest initialState) = Returned r.
Proof.
  intros request run.
  assert (action request ∈ knownActions) as Hknown.
  { apply (bool_decide_eq_true_1 (action request ∈ knownActions)). by vm_compute. }
  split; [exact Hknown|].
  destruct (known_action_is_answered (stubEnv (okResponse (lit "S")) sdkAnswers) request
              initialState Hknown) as (_ & Hanswered & _).
  destruct Hanswered as (h & Hh & Hk & _ & _ & _ & _ & _ & _ & _ & _ & _ & Hchat & _).
  { intros [_ Hnone]. discriminate Hnone. }
  destruct (Hchat eq_refl) as (r & Hsent & Hr).
  exists h, r. split_and!; [exact Hh | exact Hk | exact Hsent | exact Hr].
Defined.

Section PlaceholderFacts.

Lemma startsWith_true (p s : jsstring) : startsWith p s = true → ∃ t, s = p ++ t.
Proof.
  revert s. induction p as [|a p IH]; intros s H; [by exists s|].
  destruct s as [|b s]; [done|]. simpl in H.
  apply andb_true_iff in H as [Hab Hrest]. apply bool_decide_eq_true in Hab as ->.
  destruct (IH s Hrest) as [t ->]. by exists t.
Qed.

(** [indexOf] finds nothing only when the pattern does not occur. *)
Lemma indexOf_None (p s : jsstring) :
  (∀ pre post, s ≠ pre ++ p ++ post) → indexOf p s = None.
Proof.
  induction s as [|b s IH]; intros Hno.
  - destruct p as [|a p]; [by destruct (Hno [] [])|]. done.
  - cbn [indexOf].
    destruct (startsWith p (b :: s)) eqn:Hstart.
    { apply startsWith_true in Hstart as [t Ht]. by destruct (Hno [] t). }
    rewrite IH; [done|]. intros pre post ->. by destruct (Hno (b :: pre) post).
Qed.

(** [indexOf] finds the pattern right after a prefix free of the
    pattern's first character. *)
Lemma indexOf_after (a : N) (p pre post : jsstring) :
  a ∉ pre → indexOf (a :: p) (pre ++ (a :: p) ++ post) = Some (length pre).
Proof.
  induction pre as [|b pre IH]; intros Hno.
  - pose proof (startsWith_app (a :: p) post) as Hstart.
    cbn [app] in *. cbn [indexOf]. by rewrite Hstart.
  - apply not_elem_of_cons in Hno as [Hab Hpre].
    change ((b :: pre) ++ (a :: p) ++ post) with (b :: (pre ++ (a :: p) ++ post)).
    cbn [indexOf startsWith]. rewrite (bool_decide_false (a = b)) by done.
    cbn [andb]. by rewrite (IH Hpre).
Qed.

End PlaceholderFacts.

(** X16. Custom templates. When the custom user template for the
    language has no [{text}] placeholder, [createPrompt] returns the
    template as it is: the page text is not part of the prompt. When it
    has one, a text without [$] takes the place of the first placeholder
    (here: the one after a prefix without [{]) and the rest of the
    template, further placeholders included, is left as it is. *)
Theorem createPrompt_custom_template (text : jsstring) (l : Language) (c : CustomPrompts)
    (pc : PromptConfig) :
  custom_at c l = Some pc →
  ((∀ pre post, userPrompt pc ≠ pre ++ TEXT_PLACEHOLDER ++ post) →
   createPrompt text l (Some c) = userPrompt pc)
  ∧ (∀ pre post,
       userPrompt pc = pre ++ TEXT_PLACEHOLDER ++ post → BRACE ∉ pre → DOLLAR ∉ text →
       createPrompt text l (Some c) = pre ++ text ++ post).
Proof.
  intros Hc. unfold createPrompt. rewrite (getPromptConfig_custom _ _ _ Hc). split.
  - intros Hno. unfold replace. by rewrite indexOf_None.
  - intros pre post -> Hpre Htext. apply replace_plain; [|done].
    change TEXT_PLACEHOLDER with (BRACE :: lit "text}"). by apply indexOf_after.
Qed.

Lemma createPrompt_custom_template_witness :
  createPrompt (lit "hello") english (Some twicePrompts)
  = lit "Summarize " ++ lit "hello" ++ lit " (again: {text})".
Proof.
  assert (custom_at twicePrompts english
          = Some {| systemPrompt := lit "Be brief.";
                    userPrompt := lit "Summarize " ++ TEXT_PLACEHOLDER ++ lit " (again: {text})";
                    temperature := (1 # 2)%Q;
                    maxTokens := 500 |}) as Hc by reflexivity.
  assert (BRACE ∉ lit "Summarize ") as Hpre.
  { apply (bool_decide_eq_true_1 (BRACE ∉ lit "Summarize ")). by vm_compute. }
  assert (DOLLAR ∉ lit "hello") as Htext.
  { apply (bool_decide_eq_true_1 (DOLLAR ∉ lit "hello")). by vm_compute. }
  exact (proj2 (createPrompt_custom_template (lit "hello") english twicePrompts _ Hc)
           (lit "Summarize ") (lit " (again: {text})") eq_refl Hpre Htext).
Defined.

(** ** The large-context call and the reply budget *)

(** X17. What the large-context call sends is cut down to two thirds of
    the reply budget. [callLargeContextAPI] truncates with the template's
    [maxTokens], the limit it also sends as [max_tokens] of the reply: the
    messages of its SDK request are [processLargeContext] of the input and
    are estimated at no more than that bound (plus one token). With the
    built-in templates and no leading system message that is 668 tokens,
    however long the conversation. *)
Theorem large_context_is_cut_to_reply_budget (env : Env) (msgs : list ChatMessage)
    (l : Language) (custom : option CustomPrompts) (s : ServiceState) (c : APIConfig) :
  configs s !! portkey = Some c → truthy (cfg_apiKey c) = true →
  let budget := maxTokens (getPromptConfig l custom) in
  ∃ sreq rest,
    trace (snd (PortkeyAPI.callLargeContextAPI env msgs l custom s))
    = trace s ++ EvSdkCreate sreq :: rest
    ∧ body_messages (sdk_body sreq) = processLargeContext msgs budget
    ∧ body_max_tokens (sdk_body sreq) = budget
    ∧ sumTokens (body_messages (sdk_body sreq))
      <= Z.max (availableTokensOf budget) (sumTokens (leadingSystem msgs)) + 1
    ∧ (custom = None → leadingSystem msgs = [] →
       sumTokens (body_messages (sdk_body sreq)) <= 668).
Proof.
  intros Hcfg Hkey budget. unfold PortkeyAPI.callLargeContextAPI. fold budget.
  destruct (portkey_callAPI_run env (Msgs (processLargeContext msgs budget)) l custom s c
              Hcfg Hkey) as (sreq & _ & Hbody & Hrun).
  cbn [toMessages] in Hbody.
  assert (∃ rest, trace (snd (PortkeyAPI.callAPI env (Msgs (processLargeContext msgs budget))
                                l custom s))
                  = trace s ++ EvSdkCreate sreq :: rest) as [rest Htrace].
  { destruct (portkey_create env (trace s) sreq).
    - rewrite Hrun. by exists [].
    - destruct Hrun as (freq & -> & _). by eexists. }
  exists sreq, rest. rewrite Hbody. cbn [body_messages body_max_tokens].
  pose proof (processLargeContext_bound msgs budget) as [Hbound _].
  split_and!; [done | done | done | done |].
  intros -> Hlead. rewrite Hlead in Hbound. subst budget.
  change (sumTokens []) with 0 in Hbound.
  assert (availableTokensOf (maxTokens (getPromptConfig l None)) = 667) as Havail
    by (by destruct l).
  rewrite Havail in Hbound. lia.
Qed.

Lemma large_context_is_cut_to_reply_budget_witness :
  let env := stubEnv (okResponse (lit "S")) sdkAnswers in
  let s := configuredState portkey in
  estimatedTokens longConversation = 40000
  ∧ ∃ sreq rest,
      trace (snd (PortkeyAPI.callLargeContextAPI env longConversation english None s))
      = trace s ++ EvSdkCreate sreq :: rest
      ∧ sumTokens (body_messages (sdk_body sreq)) <= 668.
Proof.
  intros env s.
  assert (configs s !! portkey = Some someConfig) as Hcfg by (by vm_compute).
  assert (truthy (cfg_apiKey someConfig) = true) as Hkey by reflexivity.
  split; [by vm_compute|].
  destruct (large_context_is_cut_to_reply_budget env longConversation english None s
              someConfig Hcfg Hkey) as (sreq & rest & Ht & _ & _ & _ & Hcut).
  exists sreq, rest. split; [exact Ht|]. by apply Hcut.
Defined.

(** ** Reads of the cache *)

Section CacheReads.
Variable env : Env.

Lemma providerSide_not_read e : providerSide e → ¬ cacheRead e.
Proof. destruct e; simpl; tauto. Qed.

Lemma frame_afterSetup request :
  frame (fun e => ¬ cacheRead e) (afterSetup env request).
Proof.
  unfold afterSetup.
  apply frame_bind.
  { eapply frame_weaken; [apply providerSide_not_read | apply frame_routeLargeContext]. }
  intros [response|]; [apply frame_ret|].
  apply frame_bind.
  { eapply frame_weaken; [apply providerSide_not_read | apply frame_callAPI]. }
  intros apiResponse. apply frame_bind; [|intros ?; apply frame_ret].
  unfold BackgroundService.storeInCache, BackgroundService.SummaryCache_set.
  destruct (_ && _); [|apply frame_ret]. apply frame_emit. by intros [].
Qed.

Lemma lookupCache_ineligible request s :
  cacheEligible request = false →
  BackgroundService.lookupCache env request s = (Returned None, s).
Proof.
  unfold cacheEligible, BackgroundService.lookupCache. by intros ->.
Qed.

Lemma lookupCache_eligible request s :
  cacheEligible request = true →
  ∃ rest,
    trace (snd (BackgroundService.lookupCache env request s))
    = trace s ++ EvCacheGet (default [] (url request)) (language_or_default (language request))
                 :: rest.
Proof.
  unfold cacheEligible, BackgroundService.lookupCache. intros ->.
  unfold BackgroundService.SummaryCache_get', BackgroundService.getCacheEntry,
    bind, ask, try_catch, ret. cbn [fst snd].
  destruct (SummaryCache_get env _ _ _) as [summ|]; [|by exists []].
  destruct (truthy summ); [|by exists []].
  destruct (storage_local_get env _) as [?|?]; cbn [fst snd trace];
    rewrite <- app_assoc; by eexists.
Qed.

End CacheReads.

(** X18. The cache is consulted exactly for the requests that qualify: a
    request with a URL, without forced refresh, of one user message,
    starts with the cache lookup for its URL and language; any other
    request (a chat with a history, a forced refresh, no URL) runs
    without a single read of the cache or of its persisted collection. *)
Theorem cache_is_read_only_when_eligible (env : Env) (request : ChatRequest)
    (s : ServiceState) :
  let run := BackgroundService.callLLMAPI env request s in
  ∃ evs,
    trace (snd run) = trace s ++ evs
    ∧ if cacheEligible request
      then ∃ rest, evs = EvCacheGet (default [] (url request))
                           (language_or_default (language request)) :: rest
      else Forall (fun e => ¬ cacheRead e) evs.
Proof.
  intros run. subst run.
  destruct (callLLMAPI_split env request s)
    as (evs & Hreads & Hlook & [(r & -> & _)|(s3 & Ht3 & _ & _ & ->)]).
  - cbn [snd]. rewrite withEvents_trace. exists evs. split; [done|].
    destruct (cacheEligible request) eqn:Helig.
    + destruct (lookupCache_eligible env request s Helig) as [rest Hrest].
      rewrite Hrest in Hlook. apply app_inv_head in Hlook. by exists rest.
    + rewrite (lookupCache_ineligible env request s Helig) in Hlook. cbn [snd] in Hlook.
      rewrite <- (app_nil_r (trace s)) in Hlook at 1. apply app_inv_head in Hlook.
      subst evs. constructor.
  - rewrite try_ret_state.
    destruct (frame_afterSetup env request s3) as (_ & evs' & Ht & Hevs').
    rewrite Ht, Ht3.
    exists (evs ++ [EvInitialize (provider request) (BackgroundService.configOf request)]
            ++ evs').
    split; [by rewrite <- !app_assoc|].
    destruct (cacheEligible request) eqn:Helig.
    + destruct (lookupCache_eligible env request s Helig) as [rest Hrest].
      rewrite Hrest in Hlook. apply app_inv_head in Hlook. subst evs. by eexists.
    + rewrite (lookupCache_ineligible env request s Helig) in Hlook. cbn [snd] in Hlook.
      rewrite <- (app_nil_r (trace s)) in Hlook at 1. apply app_inv_head in Hlook.
      subst evs. cbn [app]. apply Forall_cons. split; [by intros []|done].
Qed.
